(** * NextDevServer: request dispatch, route resolution, transform cache,
    env injection and streaming API responses.

    Shallow embedding of [src/src/frameworks/next-dev-server.ts]. *)

From Stdlib Require Import String Ascii List Bool Arith Lia ZArith.
From Stdlib Require DecimalString.
Import ListNotations.
Open Scope list_scope.
Open Scope string_scope.

(** ** String helpers (the JavaScript [String.prototype] methods used) *)
Module Str.

(** [s.slice(n)] for [n >= 0]. *)
Fixpoint drop (n : nat) (s : string) : string :=
  match n, s with
  | 0, _ => s
  | S n', String _ s' => drop n' s'
  | S _, EmptyString => EmptyString
  end.

(** [s.startsWith(pre)] *)
Definition startsWith (s pre : string) : bool := String.prefix pre s.

(** [s.endsWith(suf)] *)
Definition endsWith (s suf : string) : bool :=
  Nat.leb (String.length suf) (String.length s)
  && String.eqb (drop (String.length s - String.length suf) s) suf.

(** [s.includes(c)] for a one-character needle. *)
Fixpoint includesChar (c : ascii) (s : string) : bool :=
  match s with
  | EmptyString => false
  | String c' s' => Ascii.eqb c c' || includesChar c s'
  end.

(** [s.slice(a, -b)] for [a, b >= 0]. *)
Definition sliceMid (a b : nat) (s : string) : string :=
  String.substring a (String.length s - a - b) s.

Definition isDigit (c : ascii) : bool :=
  let n := Ascii.nat_of_ascii c in Nat.leb 48 n && Nat.leb n 57.

(** A word character of a regular expression: [[A-Za-z0-9_]]. *)
Definition isWordChar (c : ascii) : bool :=
  let n := Ascii.nat_of_ascii c in
  isDigit c || (Nat.leb 65 n && Nat.leb n 90) || (Nat.leb 97 n && Nat.leb n 122)
  || Nat.eqb n 95.

(** Number of leading characters satisfying [p] (a greedy [p+] match). *)
Fixpoint leading (p : ascii -> bool) (s : string) : nat :=
  match s with
  | EmptyString => 0
  | String c s' => if p c then S (leading p s') else 0
  end.

Lemma startsWith_append (a b : string) : startsWith (a ++ b) a = true.
Proof.
  unfold startsWith. induction a as [|c a IH]; simpl.
  - destruct b; reflexivity.
  - destruct (ascii_dec c c) as [_|n]; [exact IH | congruence].
Qed.

Lemma drop_append (a b : string) : drop (String.length a) (a ++ b) = b.
Proof. induction a as [|c a IH]; simpl; [reflexivity | exact IH]. Qed.

Lemma startsWith_drop (s pre : string) :
  startsWith s pre = true -> s = pre ++ drop (String.length pre) s.
Proof.
  unfold startsWith. revert s. induction pre as [|c pre IH]; intros s H; simpl.
  - reflexivity.
  - destruct s as [|c' s']; simpl in H; [discriminate|].
    destruct (ascii_dec c c') as [E|E]; [|discriminate].
    subst c'. f_equal. apply IH. exact H.
Qed.

Lemma startsWith_cons (c d : ascii) (s t : string) :
  startsWith (String c s) (String d t) = true <-> d = c /\ startsWith s t = true.
Proof.
  unfold startsWith; cbn [String.prefix].
  destruct (ascii_dec d c); split; intuition congruence.
Qed.

End Str.

(** ** Request dispatch ([NextDevServer.handleRequest], lines 1511-1615) *)
Module Dispatch.
Import Str.

(** Server configuration as the constructor leaves it: [assetPrefix] and
    [basePath] are normalised ("" when absent). *)
Record config := {
  assetPrefix : string;
  basePath : string;
  publicDir : string;
  useAppRouter : bool
}.

(** The virtual file system as seen by [this.exists] / [this.isDirectory]. *)
Record fsview := {
  fexists : string -> bool;
  fisDir : string -> bool
}.

(** A request after [new URL(url, 'http://localhost')]: the parsed
    [pathname] and [search]. *)
Record request := {
  rmethod : string;
  rpathname : string;
  rsearch : string
}.

(** [pathname.match(/^\/__virtual__\/\d+/)] and the slice that follows. *)
Definition stripVirtual (p : string) : string :=
  if startsWith p "/__virtual__/" then
    let r := drop 13 p in
    let n := leading isDigit r in
    if Nat.ltb 0 n then
      let q := drop n r in if String.eqb q "" then "/" else q
    else p
  else p.

(** The [assetPrefix] strip, with the double-slash normalisation. *)
Definition stripAsset (ap p : string) : string :=
  if negb (String.eqb ap "") && startsWith p ap then
    let rest := drop (String.length ap) p in
    if String.eqb rest "" || startsWith rest "/" then
      let p' := if String.eqb rest "" then "/" else rest in
      if startsWith p' "//" then drop 1 p' else p'
    else p
  else p.

(** The [basePath] strip. *)
Definition stripBase (bp p : string) : string :=
  if negb (String.eqb bp "") && startsWith p bp then
    let rest := drop (String.length bp) p in
    if String.eqb rest "" || startsWith rest "/" then
      if String.eqb rest "" then "/" else rest
    else p
  else p.

Definition normalize (cfg : config) (p : string) : string :=
  stripBase (basePath cfg) (stripAsset (assetPrefix cfg) (stripVirtual p)).

(** [/\.(jsx|tsx|ts)$/.test(path)] *)
Definition needsTransform (p : string) : bool :=
  endsWith p ".jsx" || endsWith p ".tsx" || endsWith p ".ts".

(** [/\.\w+$/.test(p)] *)
Definition hasExtension (p : string) : bool :=
  let r := string_of_list_ascii (rev (list_ascii_of_string p)) in
  let n := leading isWordChar r in
  Nat.ltb 0 n && match String.get n r with
              | Some c => Ascii.eqb c "."%char
              | None => false
              end.

Definition resolveFileWithExtension (fs : fsview) (p : string) : option string :=
  if hasExtension p && fexists fs p then Some p else
  let exts := [".tsx"; ".ts"; ".jsx"; ".js"] in
  match find (fun e => fexists fs (p ++ e)) exts with
  | Some e => Some (p ++ e)
  | None =>
      match find (fun e => fexists fs (p ++ "/index" ++ e)) exts with
      | Some e => Some (p ++ "/index" ++ e)
      | None => None
      end
  end.

(** The branch [handleRequest] takes, with the arguments it passes on. *)
Inductive decision :=
| ShimD (p : string)
| RouteInfoD
| PagesCompD (p : string)
| AppCompD (p : string)
| StaticD (p : string)
| AppRouteD (file p : string)
| ApiD (p : string)
| PublicD (file : string)
| TransformD (file p : string)
| ServeD (file : string)
| PageRouteD (p : string).

(** Steps after the prefix strips; [appRoute] is [resolveAppRouteHandler]. *)
Definition route (cfg : config) (fs : fsview)
    (appRoute : string -> option string) (p : string) : decision :=
  if startsWith p "/_next/shims/" then ShimD p else
  if String.eqb p "/_next/route-info" then RouteInfoD else
  if startsWith p "/_next/pages/" then PagesCompD p else
  if startsWith p "/_next/app/" then AppCompD p else
  if startsWith p "/_next/static/" then StaticD p else
  match (if useAppRouter cfg then appRoute p else None) with
  | Some f => AppRouteD f p
  | None =>
  if startsWith p "/api/" then ApiD p else
  let publicPath := publicDir cfg ++ p in
  if fexists fs publicPath && negb (fisDir fs publicPath) then PublicD publicPath else
  if needsTransform p && fexists fs p then TransformD p p else
  match resolveFileWithExtension fs p with
  | Some f => if needsTransform f then TransformD f p else ServeD f
  | None =>
  if fexists fs p && negb (fisDir fs p) then ServeD p else PageRouteD p
  end
  end.

(** [handleRequest]: every branch builds its response from the branch
    arguments, the method, headers and body, and [urlObj.search]; headers
    and body are passed through unchanged and are left out. *)
Definition handleRequest (cfg : config) (fs : fsview)
    (appRoute : string -> option string) (req : request)
    : decision * string * string :=
  (route cfg fs appRoute (normalize cfg (rpathname req)), rmethod req, rsearch req).

End Dispatch.

(** ** Claims about dispatch *)
Module DispatchFacts.
Import Str Dispatch.

Definition allDigits (s : string) : bool :=
  Nat.eqb (leading isDigit s) (String.length s).

(** The prefixed forms of a path [P] accepted by [handleRequest]: the
    virtual prefix, [assetPrefix] (also with the doubled slash) and
    [basePath], each with the earlier strips leaving the prefixed path as
    it is. *)
Inductive prefixForm (cfg : config) : string -> string -> Prop :=
| pf_virtual n P :
    n <> "" -> allDigits n = true ->
    prefixForm cfg ("/__virtual__/" ++ n) P
| pf_asset P :
    assetPrefix cfg <> "" ->
    stripVirtual (assetPrefix cfg ++ P) = assetPrefix cfg ++ P ->
    prefixForm cfg (assetPrefix cfg) P
| pf_asset_slash P :
    assetPrefix cfg <> "" ->
    stripVirtual (assetPrefix cfg ++ "/" ++ P) = assetPrefix cfg ++ "/" ++ P ->
    prefixForm cfg (assetPrefix cfg ++ "/") P
| pf_base P :
    basePath cfg <> "" ->
    stripAsset (assetPrefix cfg) (stripVirtual (basePath cfg ++ P)) = basePath cfg ++ P ->
    prefixForm cfg (basePath cfg) P.

Definition cfgM : config :=
  {| assetPrefix := "/m"; basePath := "/docs"; publicDir := "/public";
     useAppRouter := false |}.

Example stripAsset_double_slash :
  normalize cfgM "/m//images/x.png" = "/images/x.png".
Proof. reflexivity. Qed.

Example strip_virtual_then_base :
  normalize cfgM "/__virtual__/3001/docs/about" = "/about".
Proof. reflexivity. Qed.

Lemma string_app_assoc (a b c : string) : (a ++ b) ++ c = a ++ (b ++ c).
Proof. induction a as [|x a IH]; simpl; [reflexivity | now rewrite IH]. Qed.

Lemma slash_nonempty (P : string) : startsWith P "/" = true -> String.eqb P "" = false.
Proof. destruct P; [discriminate | reflexivity]. Qed.

Lemma leading_digits_app (n P : string) :
  allDigits n = true -> startsWith P "/" = true ->
  leading isDigit (n ++ P) = String.length n.
Proof.
  unfold allDigits. intros Hn HP. apply Nat.eqb_eq in Hn. revert Hn.
  induction n as [|c n IH]; simpl; intros Hn.
  - destruct P as [|c P]; [discriminate|].
    apply startsWith_cons in HP. destruct HP as [<- _]. reflexivity.
  - destruct (isDigit c); [|discriminate]. injection Hn as Hn. now rewrite IH.
Qed.

Lemma length_pos (n : string) : n <> "" -> Nat.ltb 0 (String.length n) = true.
Proof. destruct n; [congruence | reflexivity]. Qed.

Lemma stripVirtual_prefixed (n P : string) :
  n <> "" -> allDigits n = true -> startsWith P "/" = true ->
  stripVirtual ("/__virtual__/" ++ n ++ P) = P.
Proof.
  intros Hne Hd HP. unfold stripVirtual.
  rewrite startsWith_append.
  change 13 with (String.length "/__virtual__/"). rewrite drop_append.
  rewrite (leading_digits_app n P Hd HP), (length_pos n Hne).
  rewrite drop_append, (slash_nonempty P HP). reflexivity.
Qed.

Lemma stripAsset_prefixed (ap P : string) :
  ap <> "" -> startsWith P "/" = true -> startsWith P "//" = false ->
  stripAsset ap (ap ++ P) = P /\ stripAsset ap (ap ++ "/" ++ P) = P.
Proof.
  intros Hap HP HP2. unfold stripAsset.
  assert (Hne : String.eqb ap "" = false) by (apply String.eqb_neq; exact Hap).
  rewrite Hne, !startsWith_append, !drop_append. simpl negb.
  rewrite (slash_nonempty P HP), HP, HP2. split; [reflexivity|].
  destruct P as [|c P]; [discriminate|].
  apply startsWith_cons in HP. destruct HP as [<- _]. cbn. destruct P; reflexivity.
Qed.

Lemma stripBase_prefixed (bp P : string) :
  bp <> "" -> startsWith P "/" = true -> stripBase bp (bp ++ P) = P.
Proof.
  intros Hbp HP. unfold stripBase.
  assert (Hne : String.eqb bp "" = false) by (apply String.eqb_neq; exact Hbp).
  rewrite Hne, startsWith_append, drop_append. simpl negb.
  rewrite (slash_nonempty P HP), HP. reflexivity.
Qed.

(** C1 (amended): for a path [P] that starts with a single ['/'] and
    carries none of the strippable prefixes itself, a request whose path is
    [P] behind the virtual prefix, [assetPrefix] (also in its [//] form) or
    [basePath] takes the same branch, with the same arguments, method and
    query, as the request with path [P]: the two responses coincide. *)
Theorem handleRequest_prefix_transparent (cfg : config) (fs : fsview)
    (appRoute : string -> option string) (m srch X P : string) :
  prefixForm cfg X P ->
  startsWith P "/" = true -> startsWith P "//" = false ->
  stripVirtual P = P -> stripAsset (assetPrefix cfg) P = P ->
  stripBase (basePath cfg) P = P ->
  handleRequest cfg fs appRoute {| rmethod := m; rpathname := X ++ P; rsearch := srch |}
  = handleRequest cfg fs appRoute {| rmethod := m; rpathname := P; rsearch := srch |}.
Proof.
  intros Hpf HP HP2 HV HA HB. unfold handleRequest, normalize; simpl.
  rewrite HV, HA, HB.
  inversion Hpf as [n P' Hne Hd EX EP|P' Hap Hv EX EP|P' Hap Hv EX EP|P' Hbp Hv EX EP];
    subst.
  - rewrite string_app_assoc, (stripVirtual_prefixed n P Hne Hd HP), HA, HB.
    reflexivity.
  - rewrite Hv. destruct (stripAsset_prefixed _ P Hap HP HP2) as [-> _].
    rewrite HB. reflexivity.
  - rewrite string_app_assoc, Hv.
    destruct (stripAsset_prefixed _ P Hap HP HP2) as [_ ->].
    rewrite HB. reflexivity.
  - rewrite Hv, (stripBase_prefixed _ P Hbp HP). reflexivity.
Qed.

Definition emptyFs : fsview := {| fexists := fun _ => false; fisDir := fun _ => false |}.

Definition cfgDocs : config :=
  {| assetPrefix := ""; basePath := "/docs"; publicDir := "/public";
     useAppRouter := false |}.

(** Witness for C1: the double-slash asset form of [/images/x.png]. *)
Lemma handleRequest_prefix_transparent_witness :
  prefixForm cfgM ("/m" ++ "/") "/images/x.png" /\
  handleRequest cfgM emptyFs (fun _ => None)
    {| rmethod := "GET"; rpathname := ("/m" ++ "/") ++ "/images/x.png"; rsearch := "" |}
  = handleRequest cfgM emptyFs (fun _ => None)
    {| rmethod := "GET"; rpathname := "/images/x.png"; rsearch := "" |}.
Proof.
  assert (H : prefixForm cfgM ("/m" ++ "/") "/images/x.png").
  { apply (pf_asset_slash cfgM "/images/x.png"); [discriminate | reflexivity]. }
  split; [exact H|].
  apply (handleRequest_prefix_transparent cfgM emptyFs (fun _ => None) "GET" ""
           ("/m" ++ "/") "/images/x.png" H); reflexivity.
Defined.

End DispatchFacts.

(** ** [JSON.stringify] on strings and flat string-valued objects *)
Module Json.

Definition quote : string := String (ascii_of_nat 34) EmptyString.
Definition backslash : ascii := ascii_of_nat 92.

Definition hexDigit (n : nat) : ascii :=
  if Nat.ltb n 10 then ascii_of_nat (48 + n) else ascii_of_nat (87 + n).

(** The escape [JSON.stringify] applies to one character. *)
Definition escapeChar (c : ascii) : string :=
  let n := nat_of_ascii c in
  if Nat.eqb n 34 then String backslash quote
  else if Nat.eqb n 92 then String backslash (String backslash EmptyString)
  else if Nat.eqb n 8 then String backslash "b"
  else if Nat.eqb n 12 then String backslash "f"
  else if Nat.eqb n 10 then String backslash "n"
  else if Nat.eqb n 13 then String backslash "r"
  else if Nat.eqb n 9 then String backslash "t"
  else if Nat.ltb n 32 then
    String backslash (String "u"%char (String "0"%char (String "0"%char
      (String (hexDigit (n / 16)) (String (hexDigit (n mod 16)) EmptyString)))))
  else String c EmptyString.

Fixpoint escape (s : string) : string :=
  match s with
  | EmptyString => EmptyString
  | String c s' => escapeChar c ++ escape s'
  end.

(** [JSON.stringify(s)] for a string [s]. *)
Definition str (s : string) : string := quote ++ escape s ++ quote.

Fixpoint members (kvs : list (string * string)) : string :=
  match kvs with
  | [] => EmptyString
  | [(k, v)] => str k ++ ":" ++ str v
  | (k, v) :: rest => str k ++ ":" ++ str v ++ "," ++ members rest
  end.

(** [JSON.stringify(obj)] for an object whose values are strings, with its
    own enumerable keys in enumeration order. *)
Definition obj (kvs : list (string * string)) : string :=
  "{" ++ members kvs ++ "}".

Example obj_error : obj [("error", "Not found")] =
  "{" ++ quote ++ "error" ++ quote ++ ":" ++ quote ++ "Not found" ++ quote ++ "}".
Proof. reflexivity. Qed.

End Json.

(** ** Streaming API responses ([handleStreamingRequest], lines 2043-2094,
    and [createStreamingMockResponse], lines 2099-2206) *)
Module Streaming.
Import Str.

(** The callbacks the bridge receives, in call order. *)
Inductive event :=
| OnStart (code : nat) (msg : string) (headers : list (string * string))
| OnChunk (data : string)
| OnEnd.

(** The calls a handler makes on the mock [res]. *)
Inductive call :=
| Status (code : nat)
| SetHeader (name value : string)
| Write (chunk : string)
| JsonCall (rendered : string)        (* [res.json(data)], [JSON.stringify(data)] *)
| SendString (data : string)
| SendObject (rendered : string)      (* [res.send(obj)] delegates to [json] *)
| EndCall (data : option string)
| RedirectStatus (code : nat) (url : option string)
| RedirectUrl (url : string).

(** How the handler invocation ([executeApiHandler], including the
    transform and [createMockRequest]) finishes. *)
Inductive outcome :=
| Returns
| Throws (message : string).

Record resState := {
  statusCode : nat;
  statusMessage : string;
  headers : list (string * string);
  ended : bool;
  headersSent : bool;
  trace : list event
}.

Definition initRes : resState :=
  {| statusCode := 200; statusMessage := "OK"; headers := []; ended := false;
     headersSent := false; trace := [] |}.

(** [headers[name] = value] on a JavaScript object: an existing key keeps
    its place. *)
Fixpoint setKey (k v : string) (h : list (string * string)) : list (string * string) :=
  match h with
  | [] => [(k, v)]
  | (k', v') :: h' => if String.eqb k k' then (k, v) :: h' else (k', v') :: setKey k v h'
  end.

Definition emit (e : event) (r : resState) : resState :=
  {| statusCode := statusCode r; statusMessage := statusMessage r; headers := headers r;
     ended := ended r; headersSent := headersSent r; trace := trace r ++ [e] |}.

Definition withStatus (n : nat) (r : resState) : resState :=
  {| statusCode := n; statusMessage := statusMessage r; headers := headers r;
     ended := ended r; headersSent := headersSent r; trace := trace r |}.

Definition withHeader (k v : string) (r : resState) : resState :=
  {| statusCode := statusCode r; statusMessage := statusMessage r;
     headers := setKey k v (headers r);
     ended := ended r; headersSent := headersSent r; trace := trace r |}.

(** [sendHeaders] *)
Definition sendHeaders (r : resState) : resState :=
  if headersSent r then r else
  emit (OnStart (statusCode r) (statusMessage r) (headers r))
    {| statusCode := statusCode r; statusMessage := statusMessage r;
       headers := headers r; ended := ended r; headersSent := true;
       trace := trace r |}.

(** [markEnded] *)
Definition markEnded (r : resState) : resState :=
  if ended r then r else
  let r1 := sendHeaders r in
  emit OnEnd
    {| statusCode := statusCode r1; statusMessage := statusMessage r1;
       headers := headers r1; ended := true; headersSent := headersSent r1;
       trace := trace r1 |}.

Definition jsonCT : string := "application/json; charset=utf-8".

(** One method call on the streaming mock response. *)
Definition step (r : resState) (c : call) : resState :=
  match c with
  | Status n => withStatus n r
  | SetHeader k v => withHeader k v r
  | Write s => emit (OnChunk s) (sendHeaders r)
  | JsonCall j | SendObject j =>
      markEnded (emit (OnChunk j) (sendHeaders (withHeader "Content-Type" jsonCT r)))
  | SendString s => markEnded (emit (OnChunk s) (sendHeaders r))
  | EndCall d =>
      match d with
      | Some s => if String.eqb s "" then markEnded r
                  else markEnded (emit (OnChunk s) (sendHeaders r))
      | None => markEnded r
      end
  | RedirectStatus n u =>
      markEnded (withHeader "Location" (match u with Some s => if String.eqb s "" then "/" else s | None => "/" end)
                   (withStatus n r))
  | RedirectUrl u => markEnded (withHeader "Location" u (withStatus 307 r))
  end.

Definition runCalls (cs : list call) (r : resState) : resState := fold_left step cs r.

(** The [catch] block of [handleStreamingRequest]. *)
Definition failWith (msg : string) (tr : list event) : list event :=
  tr ++ [OnStart 500 "Internal Server Error" [("Content-Type", "application/json")];
         OnChunk (Json.obj [("error", msg)]); OnEnd].

(** The replacement template of [pathname.replace(/^\/api/, template)]
    with its [$] patterns expanded (the match is [/api] at position 0 and
    the pattern has no groups): [$$] gives [$], [$&] the match, [$`] the
    empty text before it, [$'] the text [after] it; any other [$] is kept. *)
Fixpoint expandReplacement (after : string) (t : string) : string :=
  match t with
  | String c t' =>
      if Ascii.eqb c "$"%char then
        match t' with
        | String d t'' =>
            if Ascii.eqb d "$"%char then String "$" (expandReplacement after t'')
            else if Ascii.eqb d "&"%char then "/api" ++ expandReplacement after t''
            else if Ascii.eqb d "`"%char then expandReplacement after t''
            else if Ascii.eqb d "'"%char then after ++ expandReplacement after t''
            else String c (expandReplacement after t')
        | EmptyString => String c EmptyString
        end
      else String c (expandReplacement after t')
  | EmptyString => EmptyString
  end.

(** [resolveApiFile]; [pathname] starts with [/api]. *)
Definition resolveApiFile (pagesDir : string) (fexists : string -> bool)
    (pathname : string) : option string :=
  let apiPath := expandReplacement (drop 4 pathname) (pagesDir ++ "/api") ++ drop 4 pathname in
  let exts := [".js"; ".ts"; ".jsx"; ".tsx"] in
  match find (fun e => fexists (apiPath ++ e)) exts with
  | Some e => Some (apiPath ++ e)
  | None =>
      match find (fun e => fexists (apiPath ++ "/index" ++ e)) exts with
      | Some e => Some (apiPath ++ "/index" ++ e)
      | None => None
      end
  end.

(** [handleStreamingRequest] on the parsed [pathname]; [run file] is what
    the handler module in [file] does with [res]. A handler that returns
    without ending the response is failed by the 30 s timeout. *)
Definition handleStreamingRequest (pagesDir : string) (fexists : string -> bool)
    (run : string -> list call * outcome) (pathname : string) : list event :=
  if negb (startsWith pathname "/api/") then
    [OnStart 404 "Not Found" [("Content-Type", "application/json")];
     OnChunk (Json.obj [("error", "Not found")]); OnEnd]
  else
  match resolveApiFile pagesDir fexists pathname with
  | None =>
    [OnStart 404 "Not Found" [("Content-Type", "application/json")];
     OnChunk (Json.obj [("error", "API route not found")]); OnEnd]
  | Some file =>
    let '(cs, out) := run file in
    let r := runCalls cs initRes in
    match out with
    | Throws msg => failWith msg (trace r)
    | Returns => if ended r then trace r else failWith "API handler timeout" (trace r)
    end
  end.

End Streaming.

Module StreamingFacts.
Import Str Streaming.

Definition isStart (e : event) : bool := match e with OnStart _ _ _ => true | _ => false end.
Definition isChunk (e : event) : bool := match e with OnChunk _ => true | _ => false end.
Definition isEnd (e : event) : bool := match e with OnEnd => true | _ => false end.

(** Some chunk is emitted before the first [onStart]. *)
Fixpoint chunkBeforeStart (tr : list event) : bool :=
  match tr with
  | [] => false
  | e :: tr' => if isStart e then false else isChunk e || chunkBeforeStart tr'
  end.

(** Some chunk is emitted after the first [onEnd]. *)
Fixpoint chunkAfterEnd (tr : list event) : bool :=
  match tr with
  | [] => false
  | e :: tr' => if isEnd e then existsb isChunk tr' else chunkAfterEnd tr'
  end.

(** The ordering the bridge relies on: one [onStart] before every chunk,
    one [onEnd] after every chunk. *)
Definition wellBracketed (tr : list event) : bool :=
  Nat.eqb (count_occ Bool.bool_dec (map isStart tr) true) 1
  && Nat.eqb (count_occ Bool.bool_dec (map isEnd tr) true) 1
  && negb (chunkBeforeStart tr) && negb (chunkAfterEnd tr).

Definition oneFile (f : string) : string -> bool := fun p => String.eqb p f.

(** Scenario 5 of the spec: [res.write('A'); res.write('B'); res.end('C')]. *)
Example streaming_write_end :
  handleStreamingRequest "/pages" (oneFile "/pages/api/chat.js")
    (fun _ => ([Write "A"; Write "B"; EndCall (Some "C")], Returns)) "/api/chat"
  = [OnStart 200 "OK" []; OnChunk "A"; OnChunk "B"; OnChunk "C"; OnEnd].
Proof. reflexivity. Qed.

(** C4 (code defect): a handler that writes a chunk and then throws. The
    [catch] block of [handleStreamingRequest] calls [onStart] again, with
    500, after headers were already sent by [sendHeaders]: [onStart] runs
    twice and a chunk follows the second start. *)
Theorem streaming_throw_after_write :
  handleStreamingRequest "/pages" (oneFile "/pages/api/stream.js")
    (fun _ => ([Write "A"], Throws "boom")) "/api/stream"
  = [OnStart 200 "OK" []; OnChunk "A";
     OnStart 500 "Internal Server Error" [("Content-Type", "application/json")];
     OnChunk (Json.obj [("error", "boom")]); OnEnd]
  /\ wellBracketed
       (handleStreamingRequest "/pages" (oneFile "/pages/api/stream.js")
          (fun _ => ([Write "A"], Throws "boom")) "/api/stream") = false.
Proof. split; reflexivity. Qed.

(** The same happens when the handler ends and then throws ([onEnd] twice),
    and when it writes and never ends (the timeout [catch]). *)
Example streaming_end_then_throw :
  wellBracketed
    (handleStreamingRequest "/pages" (oneFile "/pages/api/s.js")
       (fun _ => ([EndCall (Some "x")], Throws "late")) "/api/s") = false.
Proof. reflexivity. Qed.

Example streaming_write_timeout :
  wellBracketed
    (handleStreamingRequest "/pages" (oneFile "/pages/api/s.js")
       (fun _ => ([Write "x"], Returns)) "/api/s") = false.
Proof. reflexivity. Qed.

(** C10: [handleStreamingRequest] tests the parsed pathname itself for the
    [/api/] prefix, with no prefix stripping; every other path gets the
    404 JSON triple, whatever the file system holds. *)
Theorem streaming_non_api_404 (pagesDir : string) (fexists : string -> bool)
    (run : string -> list call * outcome) (pathname : string) :
  startsWith pathname "/api/" = false ->
  handleStreamingRequest pagesDir fexists run pathname
  = [OnStart 404 "Not Found" [("Content-Type", "application/json")];
     OnChunk (Json.obj [("error", "Not found")]); OnEnd].
Proof. intros H. unfold handleStreamingRequest. rewrite H. reflexivity. Qed.

(** Witness for C10: the virtual-prefixed form of an existing API route. *)
Lemma streaming_non_api_404_witness :
  startsWith "/__virtual__/3001/api/hello" "/api/" = false /\
  handleStreamingRequest "/pages" (oneFile "/pages/api/hello.js")
    (fun _ => ([EndCall (Some "hi")], Returns)) "/__virtual__/3001/api/hello"
  = [OnStart 404 "Not Found" [("Content-Type", "application/json")];
     OnChunk (Json.obj [("error", "Not found")]); OnEnd].
Proof.
  split; [reflexivity|].
  apply streaming_non_api_404. reflexivity.
Defined.

End StreamingFacts.

(** ** Transform cache ([transformAndServe], lines 3513-3568) *)
Module TransformCache.

(** A response as [transformAndServe] builds it (the [Content-Length]
    header is left out). *)
Record response := {
  status : nat;
  hdrs : list (string * string);
  body : string
}.

(** [transformCode]: the transformer either yields code or throws. *)
Inductive result := Ok (code : string) | Err (message : string).

(** [this.transformCache]: file path to [{ code, hash }]. *)
Definition cache := list (string * (string * Z)).

Fixpoint lookup (k : string) (c : cache) : option (string * Z) :=
  match c with
  | [] => None
  | (k', v) :: c' => if String.eqb k k' then Some v else lookup k c'
  end.

(** [Map.prototype.set]: an existing key keeps its place. *)
Fixpoint set (k : string) (v : string * Z) (c : cache) : cache :=
  match c with
  | [] => [(k, v)]
  | (k', v') :: c' => if String.eqb k k' then (k, v) :: c' else (k', v') :: set k v c'
  end.

Definition jsHeaders : list (string * string) :=
  [("Content-Type", "application/javascript; charset=utf-8");
   ("Cache-Control", "no-cache"); ("X-Transformed", "true")].

(** The cache-miss path of [transformAndServe]: transform, store, serve;
    a throwing transform gives the error module and stores nothing. *)
Definition transformMiss (transformCode : string -> string -> result)
    (tc : cache) (filePath content : string) (hash : Z) : response * cache :=
  match transformCode content filePath with
  | Ok out => ({| status := 200; hdrs := jsHeaders; body := out |},
               set filePath (out, hash) tc)
  | Err msg =>
      ({| status := 200;
          hdrs := [("Content-Type", "application/javascript; charset=utf-8");
                   ("X-Transform-Error", "true")];
          body := "// Transform Error: " ++ msg ++ String (ascii_of_nat 10) EmptyString
                  ++ "console.error(" ++ Json.str msg ++ ");" |}, tc)
  end.

(** [transformAndServe filePath]: [content] is what [readFileSync] returns
    for [filePath].

    Modelled from the spec: [simpleHash] ([src/utils/hash], not among the
    sources) is "a 32-bit fingerprint of the source bytes"; it is the
    parameter [simpleHash], so every result holds for any fingerprint. *)
Definition transformAndServe (simpleHash : string -> Z)
    (transformCode : string -> string -> result)
    (tc : cache) (filePath content : string) : response * cache :=
  let hash := simpleHash content in
  match lookup filePath tc with
  | Some (code, h) =>
      if Z.eqb h hash then
        ({| status := 200; hdrs := jsHeaders ++ [("X-Cache", "hit")]; body := code |}, tc)
      else transformMiss transformCode tc filePath content hash
  | None => transformMiss transformCode tc filePath content hash
  end.

Definition isHit (r : response) : bool :=
  existsb (fun kv => String.eqb (fst kv) "X-Cache" && String.eqb (snd kv) "hit") (hdrs r).

End TransformCache.

Module TransformCacheFacts.
Import TransformCache.

Lemma lookup_set_eq (k : string) (v : string * Z) (c : cache) :
  lookup k (set k v c) = Some v.
Proof.
  induction c as [|[k' v'] c IH]; simpl.
  - now rewrite String.eqb_refl.
  - destruct (String.eqb k k') eqn:E; simpl.
    + now rewrite String.eqb_refl.
    + now rewrite E.
Qed.

Lemma hit_headers (code : string) :
  isHit {| status := 200; hdrs := jsHeaders ++ [("X-Cache", "hit")]; body := code |} = true.
Proof. reflexivity. Qed.

(** After serving [F] with content [c] successfully transformed, the
    cache holds [F] with the fingerprint of [c]. *)
Lemma serve_stores (simpleHash : string -> Z) (tcode : string -> string -> result)
    (tc : cache) (F c out : string) :
  tcode c F = Ok out ->
  exists code, lookup F (snd (transformAndServe simpleHash tcode tc F c))
               = Some (code, simpleHash c)
    /\ body (fst (transformAndServe simpleHash tcode tc F c)) = code.
Proof.
  intros Ht. unfold transformAndServe.
  destruct (lookup F tc) as [[code h]|] eqn:L.
  - destruct (Z.eqb h (simpleHash c)) eqn:E.
    + apply Z.eqb_eq in E. subst h. exists code. simpl. now rewrite L.
    + unfold transformMiss. rewrite Ht. exists out. simpl. now rewrite lookup_set_eq.
  - unfold transformMiss. rewrite Ht. exists out. simpl. now rewrite lookup_set_eq.
Qed.

(** A request whose content matches the stored fingerprint is a hit that
    serves the stored code and leaves the cache as it is. *)
Lemma serve_hit (simpleHash : string -> Z) (tcode : string -> string -> result)
    (tc : cache) (F c code : string) :
  lookup F tc = Some (code, simpleHash c) ->
  transformAndServe simpleHash tcode tc F c
  = ({| status := 200; hdrs := jsHeaders ++ [("X-Cache", "hit")]; body := code |}, tc).
Proof. intros L. unfold transformAndServe. rewrite L, Z.eqb_refl. reflexivity. Qed.

(** A request whose content does not match the stored fingerprint is a
    miss. *)
Lemma serve_miss (simpleHash : string -> Z) (tcode : string -> string -> result)
    (tc : cache) (F c code : string) (h : Z) :
  lookup F tc = Some (code, h) -> h <> simpleHash c ->
  isHit (fst (transformAndServe simpleHash tcode tc F c)) = false.
Proof.
  intros L Hne. unfold transformAndServe. rewrite L.
  apply Z.eqb_neq in Hne. rewrite Hne. unfold transformMiss.
  destruct (tcode c F); reflexivity.
Qed.

(** C2 (amended): when the transformer succeeds on the content, two
    consecutive requests for [F] with the same bytes give the same body and
    the second carries [X-Cache: hit]; after an edit to bytes whose
    fingerprint differs from the stored one, the next response is not a
    hit, and the one after it (same bytes, transform succeeded) is. *)
Theorem transform_cache_hit_and_invalidation (simpleHash : string -> Z)
    (tcode : string -> string -> result) (tc : cache) (F c c' out out' : string) :
  tcode c F = Ok out -> tcode c' F = Ok out' -> simpleHash c' <> simpleHash c ->
  let '(r1, k1) := transformAndServe simpleHash tcode tc F c in
  let '(r2, k2) := transformAndServe simpleHash tcode k1 F c in
  let '(r3, k3) := transformAndServe simpleHash tcode k2 F c' in
  let '(r4, _) := transformAndServe simpleHash tcode k3 F c' in
  body r2 = body r1 /\ isHit r2 = true /\
  isHit r3 = false /\ isHit r4 = true /\ body r4 = body r3.
Proof.
  intros Ht Ht' Hne.
  destruct (serve_stores simpleHash tcode tc F c out Ht) as [code [L1 B1]].
  destruct (transformAndServe simpleHash tcode tc F c) as [r1 k1]. simpl in L1, B1.
  rewrite (serve_hit simpleHash tcode k1 F c code L1).
  destruct (serve_stores simpleHash tcode k1 F c' out' Ht') as [code' [L3 B3]].
  pose proof (serve_miss simpleHash tcode k1 F c' code (simpleHash c) L1
                (fun E => Hne (eq_sym E))) as M3.
  destruct (transformAndServe simpleHash tcode k1 F c') as [r3 k3]. simpl in L3, B3, M3.
  rewrite (serve_hit simpleHash tcode k3 F c' code' L3).
  simpl. repeat split; [exact (eq_sym B1) | exact M3 | exact (eq_sym B3)].
Qed.

Definition lengthHash (s : string) : Z := Z.of_nat (String.length s).
Definition identityTransform (code _ : string) : result := Ok code.

(** Witness for C2: edit ["a"] to ["ab"] under an identity transform. *)
Lemma transform_cache_hit_and_invalidation_witness :
  identityTransform "a" "/pages/index.jsx" = Ok "a" /\
  identityTransform "ab" "/pages/index.jsx" = Ok "ab" /\
  lengthHash "ab" <> lengthHash "a" /\
  (let '(r1, k1) := transformAndServe lengthHash identityTransform [] "/pages/index.jsx" "a" in
   let '(r2, k2) := transformAndServe lengthHash identityTransform k1 "/pages/index.jsx" "a" in
   let '(r3, k3) := transformAndServe lengthHash identityTransform k2 "/pages/index.jsx" "ab" in
   let '(r4, _) := transformAndServe lengthHash identityTransform k3 "/pages/index.jsx" "ab" in
   body r2 = body r1 /\ isHit r2 = true /\
   isHit r3 = false /\ isHit r4 = true /\ body r4 = body r3).
Proof.
  split; [reflexivity|]. split; [reflexivity|]. split; [unfold lengthHash; simpl; lia|].
  apply (transform_cache_hit_and_invalidation lengthHash identityTransform []
           "/pages/index.jsx" "a" "ab" "a" "ab"); [reflexivity | reflexivity |].
  unfold lengthHash; simpl; lia.
Defined.

Definition failingTransform (_ _ : string) : result := Err "esbuild not available".

(** C2 counterexample: when the transformer throws, nothing is cached and
    the second of two requests with identical bytes carries no
    [X-Cache: hit]. *)
Lemma transform_cache_no_hit_on_error :
  let '(_, k1) := transformAndServe lengthHash failingTransform [] "/pages/index.jsx" "x" in
  isHit (fst (transformAndServe lengthHash failingTransform k1 "/pages/index.jsx" "x"))
  = false.
Proof. reflexivity. Qed.

End TransformCacheFacts.

(** ** Env injection ([generateEnvScript], lines 1418-1440) *)
Module EnvScript.
Import Str.

Definition isPublic (key : string) : bool := startsWith key "NEXT_PUBLIC_".

(** [publicEnvVars]: built by assignment over [Object.entries(env)]; [env]
    is listed in its enumeration order. *)
Definition publicEnvVars (env : list (string * string)) : list (string * string) :=
  fold_left (fun acc kv => if isPublic (fst kv) then Streaming.setKey (fst kv) (snd kv) acc
                           else acc) env [].

Definition generateEnvScript (env : list (string * string)) (basePath : string) : string :=
  "<script>
  // Environment variables (injected by NextDevServer)
  window.process = window.process || {};
  window.process.env = window.process.env || {};
  Object.assign(window.process.env, " ++ Json.obj (publicEnvVars env) ++ ");
  // Next.js config values
  window.__NEXT_BASE_PATH__ = " ++ Json.str basePath ++ ";
</script>".

(** [generatePageHtml] and [generateAppRouterHtml] splice the env script
    into their template; [before] and [after] are the rest of the
    template, built from the port, the route, the file system and the
    Tailwind config, none of which reads [env]. *)
Definition htmlDocument (before after : string) (env : list (string * string))
    (basePath : string) : string :=
  before ++ generateEnvScript env basePath ++ after.

End EnvScript.

Module EnvScriptFacts.
Import Str EnvScript.

Lemma setKey_absent (k v : string) (h : list (string * string)) :
  ~ In k (map fst h) -> Streaming.setKey k v h = (h ++ [(k, v)])%list.
Proof.
  induction h as [|[k' v'] h IH]; simpl; intros Hn; [reflexivity|].
  destruct (String.eqb k k') eqn:E.
  - apply String.eqb_eq in E. subst. exfalso. apply Hn. now left.
  - rewrite IH; [reflexivity|]. intros Hi. apply Hn. now right.
Qed.

Lemma publicEnvVars_acc (env acc : list (string * string)) :
  NoDup (map fst (acc ++ env)%list) ->
  fold_left (fun acc kv => if isPublic (fst kv) then Streaming.setKey (fst kv) (snd kv) acc
                           else acc) env acc
  = (acc ++ filter (fun kv => isPublic (fst kv)) env)%list.
Proof.
  revert acc. induction env as [|[k v] env IH]; intros acc Hnd; simpl.
  - now rewrite app_nil_r.
  - rewrite map_app in Hnd. simpl in Hnd.
    apply NoDup_remove in Hnd as [Hnd Hk].
    destruct (isPublic k).
    + rewrite setKey_absent by (rewrite in_app_iff in Hk; tauto).
      rewrite IH.
      * now rewrite <- app_assoc.
      * rewrite map_app, map_app, <- app_assoc. simpl. apply (proj2 (NoDup_Add (Add_app k (map fst acc) (map fst env)))). split; assumption.
    + rewrite IH; [reflexivity|]. now rewrite map_app.
Qed.

Lemma publicEnvVars_filter (env : list (string * string)) :
  NoDup (map fst env) ->
  publicEnvVars env = filter (fun kv => isPublic (fst kv)) env.
Proof. intros H. unfold publicEnvVars. now rewrite (publicEnvVars_acc env []). Qed.

(** C3 (amended): for env objects (keys distinct), the object the env
    script serialises ([publicEnvVars]) is exactly the list of the
    [NEXT_PUBLIC_] entries, in the env's enumeration order, and two envs with the same [NEXT_PUBLIC_] entries in the same
    order give the same HTML: non-public entries do not reach it. *)
Theorem env_html_public_only (before after basePath : string)
    (e1 e2 : list (string * string)) :
  NoDup (map fst e1) -> NoDup (map fst e2) ->
  filter (fun kv => isPublic (fst kv)) e1 = filter (fun kv => isPublic (fst kv)) e2 ->
  publicEnvVars e1 = filter (fun kv => isPublic (fst kv)) e1 /\
  publicEnvVars e2 = filter (fun kv => isPublic (fst kv)) e2 /\
  htmlDocument before after e1 basePath = htmlDocument before after e2 basePath.
Proof.
  intros H1 H2 Hf. split; [exact (publicEnvVars_filter e1 H1)|].
  split; [exact (publicEnvVars_filter e2 H2)|].
  - unfold htmlDocument, generateEnvScript.
    rewrite (publicEnvVars_filter e1 H1), (publicEnvVars_filter e2 H2), Hf.
    reflexivity.
Qed.

(** Witness for C3: a secret added to one env leaves the HTML unchanged. *)
Lemma env_html_public_only_witness :
  NoDup (map fst [("NEXT_PUBLIC_A", "x"); ("SECRET", "s")]) /\
  NoDup (map fst [("NEXT_PUBLIC_A", "x")]) /\
  (publicEnvVars [("NEXT_PUBLIC_A", "x"); ("SECRET", "s")]
   = filter (fun kv => isPublic (fst kv)) [("NEXT_PUBLIC_A", "x"); ("SECRET", "s")] /\
   publicEnvVars [("NEXT_PUBLIC_A", "x")]
   = filter (fun kv => isPublic (fst kv)) [("NEXT_PUBLIC_A", "x")] /\
   htmlDocument "<head>" "</head>" [("NEXT_PUBLIC_A", "x"); ("SECRET", "s")] ""
   = htmlDocument "<head>" "</head>" [("NEXT_PUBLIC_A", "x")] "").
Proof.
  assert (N1 : NoDup (map fst [("NEXT_PUBLIC_A", "x"); ("SECRET", "s")])).
  { simpl. constructor; [simpl; intros [H|[]]; discriminate | constructor; [easy | constructor]]. }
  assert (N2 : NoDup (map fst [("NEXT_PUBLIC_A", "x")])).
  { simpl. constructor; [easy | constructor]. }
  split; [exact N1|]. split; [exact N2|].
  exact (env_html_public_only "<head>" "</head>" "" _ _ N1 N2 eq_refl).
Defined.

(** C3 counterexample: two envs with the same public entries, enumerated
    in different orders, give different HTML bodies. *)
Lemma env_html_order_sensitive :
  htmlDocument "" "" [("NEXT_PUBLIC_A", "x"); ("NEXT_PUBLIC_B", "y")] ""
  <> htmlDocument "" "" [("NEXT_PUBLIC_B", "y"); ("NEXT_PUBLIC_A", "x")] "".
Proof. vm_compute. discriminate. Qed.

End EnvScriptFacts.

(** ** App-router route handlers ([handleAppRouteHandler], lines 1917-2035) *)
Module RouteHandler.

(** A Rocq [string] is read as Latin-1 text: one UTF-16 code unit (0-255)
    per character. Case mapping can leave Latin-1, so its results are
    lists of code units. *)
Definition codes (s : string) : list nat := map nat_of_ascii (list_ascii_of_string s).

(** [String.prototype.toUpperCase] on one Latin-1 character: the Unicode
    uppercase mapping ([U+00B5] to [U+039C], [U+00FF] to [U+0178], and
    [U+00DF] to [SS]). *)
Definition upperCode (n : nat) : list nat :=
  if Nat.leb 97 n && Nat.leb n 122 then [n - 32]
  else if Nat.eqb n 181 then [924]
  else if Nat.eqb n 223 then [83; 83]
  else if Nat.leb 224 n && Nat.leb n 254 && negb (Nat.eqb n 247) then [n - 32]
  else if Nat.eqb n 255 then [376]
  else [n].

Definition toUpperCase (s : string) : list nat := flat_map upperCode (codes s).

(** [String.prototype.toLowerCase] on the code units [toUpperCase] yields
    from Latin-1 text: the Latin-1 letters, [U+039C] and [U+0178]; every
    other code unit of that range is its own lower case. *)
Definition lowerCode (n : nat) : nat :=
  if Nat.leb 65 n && Nat.leb n 90 then n + 32
  else if Nat.leb 192 n && Nat.leb n 222 && negb (Nat.eqb n 215) then n + 32
  else if Nat.eqb n 924 then 956
  else if Nat.eqb n 376 then 255
  else n.

Definition toLowerCase (u : list nat) : list nat := map lowerCode u.

(** The JavaScript values read from [module.exports]: a function of the
    module, a builtin function, or any other value (with its truthiness). *)
Inductive jsval :=
| JFunction (id : nat)
| JBuiltin (name : string)
| JValue (truthy : bool).

Definition truthy (v : option jsval) : bool :=
  match v with
  | None => false
  | Some (JValue b) => b
  | Some _ => true
  end.

(** [typeof v === 'function'] *)
Definition isFunction (v : jsval) : bool :=
  match v with
  | JValue _ => false
  | _ => true
  end.

Fixpoint ownProp (k : list nat) (props : list (string * jsval)) : option jsval :=
  match props with
  | [] => None
  | (k', v) :: ps => if list_eq_dec Nat.eq_dec k (codes k') then Some v else ownProp k ps
  end.

(** The properties an ordinary object inherits from [Object.prototype]
    ([__proto__] reads [Object.prototype] itself, a truthy object). *)
Definition objectPrototype : list (string * jsval) :=
  [("constructor", JBuiltin "Object");
   ("__defineGetter__", JBuiltin "__defineGetter__");
   ("__defineSetter__", JBuiltin "__defineSetter__");
   ("hasOwnProperty", JBuiltin "hasOwnProperty");
   ("__lookupGetter__", JBuiltin "__lookupGetter__");
   ("__lookupSetter__", JBuiltin "__lookupSetter__");
   ("isPrototypeOf", JBuiltin "isPrototypeOf");
   ("propertyIsEnumerable", JBuiltin "propertyIsEnumerable");
   ("toString", JBuiltin "toString");
   ("valueOf", JBuiltin "valueOf");
   ("__proto__", JValue true);
   ("toLocaleString", JBuiltin "toLocaleString")].

(** [module.exports[k]]: an own property, else an inherited one. *)
Definition prop (k : list nat) (exports : list (string * jsval)) : option jsval :=
  match ownProp k exports with
  | Some v => Some v
  | None => ownProp k objectPrototype
  end.

(** Transforming and evaluating the route module: [Loaded] lists the own
    properties of [module.exports], an ordinary object; [LoadError] is the
    message of what was thrown. *)
Inductive load := Loaded (exports : list (string * jsval)) | LoadError (message : string).

Inductive outcome :=
| Respond (status : nat) (statusMessage : string) (body : string)
| CallHandler (handler : jsval) (methodUpper : list nat).

Definition handleAppRouteHandler (module : load) (method : string) : outcome :=
  match module with
  | LoadError msg =>
      Respond 500 "Internal Server Error" (Json.obj [("error", msg)])
  | Loaded exports =>
      let methodUpper := toUpperCase method in
      let h1 := prop methodUpper exports in
      let handler := if truthy h1 then h1 else prop (toLowerCase methodUpper) exports in
      match handler with
      | Some h =>
          if isFunction h then CallHandler h methodUpper
          else Respond 405 "Method Not Allowed"
                 (Json.obj [("error", "Method " ++ method ++ " not allowed")])
      | None => Respond 405 "Method Not Allowed"
                  (Json.obj [("error", "Method " ++ method ++ " not allowed")])
      end
  end.

(** What [await handler(request, ...)] gives, for the conversion that ends
    the [try] block: a [Response] (status, [statusText], text), another
    non-null object (its [JSON.stringify]), or any other value (its
    [String(v || '')]). *)
Inductive result :=
| RResponse (status : nat) (statusText body : string)
| RObject (json : string)
| ROther (text : string).

Definition convertResult (r : result) : outcome :=
  match r with
  | RResponse s t b => Respond s (if String.eqb t "" then "OK" else t) b
  | RObject j => Respond 200 "OK" j
  | ROther t => Respond 200 "OK" t
  end.

(** [Object(request)] returns the [Request] itself, an object whose
    properties are all accessors of [Request.prototype], which
    [JSON.stringify] serialises as [{}]. *)
Definition objectCalledOnRequest : result := RObject "{}".

End RouteHandler.

Module RouteHandlerFacts.
Import RouteHandler.

(** When the loaded module has no function, own or inherited from
    [Object.prototype], under the upper-cased method or its lower case,
    the dispatcher answers 405 with the JSON body
    [{ error: "Method <method> not allowed" }]. *)
Theorem route_handler_405 (exports : list (string * jsval)) (method : string) :
  (forall h, prop (toUpperCase method) exports = Some h -> isFunction h = false) ->
  (forall h, prop (toLowerCase (toUpperCase method)) exports = Some h -> isFunction h = false) ->
  handleAppRouteHandler (Loaded exports) method
  = Respond 405 "Method Not Allowed"
      (Json.obj [("error", "Method " ++ method ++ " not allowed")]).
Proof.
  intros Hu Hl. unfold handleAppRouteHandler.
  destruct (truthy (prop (toUpperCase method) exports)).
  - destruct (prop (toUpperCase method) exports) as [h|] eqn:E;
      [rewrite (Hu h eq_refl)|]; reflexivity.
  - destruct (prop (toLowerCase (toUpperCase method)) exports) as [h|] eqn:E;
      [rewrite (Hl h eq_refl)|]; reflexivity.
Qed.

(** Scenario 9 of the spec: a POST to a module exporting only [GET]. *)
Lemma route_handler_405_witness :
  (forall h, prop (toUpperCase "POST") [("GET", JFunction 0)] = Some h -> isFunction h = false) /\
  (forall h, prop (toLowerCase (toUpperCase "POST")) [("GET", JFunction 0)] = Some h ->
     isFunction h = false) /\
  handleAppRouteHandler (Loaded [("GET", JFunction 0)]) "POST"
  = Respond 405 "Method Not Allowed" (Json.obj [("error", "Method POST not allowed")]).
Proof.
  assert (H1 : forall h, prop (toUpperCase "POST") [("GET", JFunction 0)] = Some h ->
                 isFunction h = false) by (intros h; vm_compute; discriminate).
  assert (H2 : forall h, prop (toLowerCase (toUpperCase "POST")) [("GET", JFunction 0)] = Some h ->
                 isFunction h = false) by (intros h; vm_compute; discriminate).
  split; [exact H1|]. split; [exact H2|].
  exact (route_handler_405 [("GET", JFunction 0)] "POST" H1 H2).
Defined.

(** C8 (code bug): a module exporting only [GET], asked with the method
    [constructor], exports nothing under [CONSTRUCTOR] or [constructor];
    yet [module.exports.constructor] is inherited from [Object.prototype],
    so the dispatcher calls the builtin [Object] instead of answering 405,
    and the [Request] that call returns is answered with 200 and the body
    [{}]. *)
Theorem route_handler_constructor_calls_Object :
  ownProp (toUpperCase "constructor") [("GET", JFunction 0)] = None /\
  ownProp (toLowerCase (toUpperCase "constructor")) [("GET", JFunction 0)] = None /\
  handleAppRouteHandler (Loaded [("GET", JFunction 0)]) "constructor"
  = CallHandler (JBuiltin "Object") (toUpperCase "constructor") /\
  convertResult objectCalledOnRequest = Respond 200 "OK" "{}".
Proof. vm_compute. repeat split. Qed.

End RouteHandlerFacts.

(** ** Mock request of legacy API routes ([createMockRequest], lines
    2238-2254, called from [handleApiRoute] with the stripped pathname) *)
Module ApiRequest.
Import Str.

Definition qmark : ascii := "?"%char.
Definition hashmark : ascii := "#"%char.

Fixpoint takeUntil (p : ascii -> bool) (s : string) : string :=
  match s with
  | EmptyString => EmptyString
  | String c s' => if p c then EmptyString else String c (takeUntil p s')
  end.

Fixpoint dropUntil (p : ascii -> bool) (s : string) : string :=
  match s with
  | EmptyString => EmptyString
  | String c s' => if p c then s else dropUntil p s'
  end.

Definition isQorHash (c : ascii) : bool := Ascii.eqb c qmark || Ascii.eqb c hashmark.

(** [new URL(u, 'http://localhost').pathname] for a path-only [u]. *)
Definition urlPathname (u : string) : string := takeUntil isQorHash u.

(** [.search]: from the first ['?'] (before any ['#']) up to ['#']. *)
Definition urlSearch (u : string) : string :=
  let r := dropUntil isQorHash u in
  match r with
  | String c _ => if Ascii.eqb c qmark then takeUntil (Ascii.eqb hashmark) r else EmptyString
  | EmptyString => EmptyString
  end.

Fixpoint splitOn (sep : ascii) (s : string) : list string :=
  match s with
  | EmptyString => [EmptyString]
  | String c s' =>
      if Ascii.eqb c sep then EmptyString :: splitOn sep s'
      else match splitOn sep s' with
           | w :: ws => String c w :: ws
           | [] => [String c EmptyString]
           end
  end.

(** [Object.fromEntries(new URLSearchParams(search))], percent-decoding
    left out: pairs split at the first ['='], empty pieces skipped, a later
    duplicate key overwriting an earlier one. *)
Definition parseQuery (search : string) : list (string * string) :=
  let body := match search with String c s => if Ascii.eqb c qmark then s else search
                                | EmptyString => EmptyString end in
  fold_left (fun acc piece =>
               if String.eqb piece "" then acc else
               let k := takeUntil (Ascii.eqb "="%char) piece in
               let v := drop (String.length k + 1) piece in
               Streaming.setKey k v acc)
            (splitOn "&"%char body) [].

(** The [query] field [createMockRequest] builds from its [pathname]
    argument. *)
Definition mockQuery (pathname : string) : list (string * string) :=
  parseQuery (urlSearch pathname).

(** The legacy API branch of [handleRequest]: [handleApiRoute] receives the
    stripped [urlObj.pathname] and hands it to [createMockRequest]. *)
Definition apiRequestQuery (cfg : Dispatch.config) (url : string) : list (string * string) :=
  mockQuery (Dispatch.normalize cfg (urlPathname url)).

End ApiRequest.

Module ApiRequestFacts.
Import Str ApiRequest.

Example parse_hello_query :
  urlPathname "/api/hello?name=world" = "/api/hello" /\
  urlSearch "/api/hello?name=world" = "?name=world" /\
  parseQuery "?name=world&x=1" = [("name", "world"); ("x", "1")].
Proof. repeat split; reflexivity. Qed.

Lemma includes_drop (c : ascii) (n : nat) (s : string) :
  includesChar c s = false -> includesChar c (drop n s) = false.
Proof.
  revert s. induction n as [|n IH]; intros s H; [exact H|].
  destruct s as [|c' s]; [reflexivity|]. simpl in *.
  apply orb_false_iff in H as [_ H]. now apply IH.
Qed.

Lemma includes_takeUntil (s : string) : includesChar qmark (takeUntil isQorHash s) = false.
Proof.
  induction s as [|c s IH]; [reflexivity|]. cbn [takeUntil].
  destruct (isQorHash c) eqn:E; [reflexivity|]. cbn [includesChar].
  unfold isQorHash in E. apply orb_false_iff in E as [E _].
  rewrite Ascii.eqb_sym, E. exact IH.
Qed.

Lemma includes_stripVirtual (p : string) :
  includesChar qmark p = false -> includesChar qmark (Dispatch.stripVirtual p) = false.
Proof.
  intros H. unfold Dispatch.stripVirtual.
  destruct (startsWith p "/__virtual__/"); [|exact H].
  destruct (Nat.ltb 0 _); [|exact H].
  destruct (String.eqb _ ""); [reflexivity|]. now apply includes_drop, includes_drop.
Qed.

Lemma includes_stripAsset (ap p : string) :
  includesChar qmark p = false -> includesChar qmark (Dispatch.stripAsset ap p) = false.
Proof.
  intros H. unfold Dispatch.stripAsset.
  destruct (negb (String.eqb ap "") && startsWith p ap); [|exact H].
  destruct (_ || _); [|exact H].
  destruct (String.eqb (drop (String.length ap) p) "");
    destruct (startsWith _ "//"); try reflexivity; now repeat apply includes_drop.
Qed.

Lemma includes_stripBase (bp p : string) :
  includesChar qmark p = false -> includesChar qmark (Dispatch.stripBase bp p) = false.
Proof.
  intros H. unfold Dispatch.stripBase.
  destruct (negb (String.eqb bp "") && startsWith p bp); [|exact H].
  destruct (_ || _); [|exact H].
  destruct (String.eqb _ ""); [reflexivity|]. now apply includes_drop.
Qed.

Lemma urlSearch_no_qmark (s : string) : includesChar qmark s = false -> urlSearch s = "".
Proof.
  unfold urlSearch. induction s as [|c s IH]; intros H; [reflexivity|].
  cbn [includesChar] in H. apply orb_false_iff in H as [Hc H]. cbn [dropUntil].
  destruct (isQorHash c) eqn:E.
  - rewrite Ascii.eqb_sym, Hc. reflexivity.
  - exact (IH H).
Qed.

(** The [req.query] the legacy API handler receives is always empty: the
    pathname handed to [createMockRequest] has no query string. *)
Lemma apiRequestQuery_empty (cfg : Dispatch.config) (url : string) :
  apiRequestQuery cfg url = [].
Proof.
  unfold apiRequestQuery, mockQuery, Dispatch.normalize.
  rewrite urlSearch_no_qmark; [reflexivity|].
  apply includes_stripBase, includes_stripAsset, includes_stripVirtual, includes_takeUntil.
Qed.

(** C9 (code defect): for [GET /api/hello?name=world] the URL-parsed query
    is [{ name: "world" }], but [handleApiRoute] passes only the pathname
    to [createMockRequest], whose [query] is [{}]. *)
Theorem api_query_dropped :
  parseQuery (urlSearch "/api/hello?name=world") = [("name", "world")] /\
  apiRequestQuery
    {| Dispatch.assetPrefix := ""; Dispatch.basePath := ""; Dispatch.publicDir := "/public";
       Dispatch.useAppRouter := false |} "/api/hello?name=world" = [].
Proof. split; reflexivity. Qed.

End ApiRequestFacts.

(** ** App Router resolution ([resolveAppRoute] and
    [resolveAppDynamicRoute], lines 2540-2776) *)
Module AppRouter.
Import Str.

(** A VFS path as its components: [/app/(marketing)/about] is
    [["app"; "(marketing)"; "about"]]; the source's [`${dir}/${entry}`]
    is [dir ++ [entry]]. *)
Definition path := list string.

Fixpoint peqb (p q : path) : bool :=
  match p, q with
  | [], [] => true
  | a :: p', b :: q' => String.eqb a b && peqb p' q'
  | _, _ => false
  end.

(** Modelled from the spec: the consumed VFS interface ([existsSync],
    [isDirectorySync], [readdirSync], section 6; the VFS itself is not part
    of this code). A VFS is every file and directory with a directory flag;
    [readdirSync] lists the children of a directory in the order of this
    list, so a theorem over every [vfs] covers every listing order. *)
Definition vfs := list (path * bool).

Definition existsSync (fs : vfs) (p : path) : bool := existsb (fun e => peqb (fst e) p) fs.
Definition isDirectory (fs : vfs) (p : path) : bool :=
  existsb (fun e => peqb (fst e) p && snd e) fs.

Fixpoint childName (dir p : path) : option string :=
  match dir, p with
  | [], [x] => Some x
  | a :: dir', b :: p' => if String.eqb a b then childName dir' p' else None
  | _, _ => None
  end.

Definition readdirSync (fs : vfs) (dir : path) : list string :=
  flat_map (fun e => match childName dir (fst e) with Some x => [x] | None => [] end) fs.

(** A route param: a string, or a list for catch-alls. *)
Inductive pval := PStr (s : string) | PList (l : list string).

(** [{ ...params, [name]: value }]: an existing key keeps its place. *)
Fixpoint setParam (k : string) (v : pval) (ps : list (string * pval)) : list (string * pval) :=
  match ps with
  | [] => [(k, v)]
  | (k', v') :: ps' => if String.eqb k k' then (k, v) :: ps' else (k', v') :: setParam k v ps'
  end.

Record appRoute := {
  page : path;
  layouts : list path;
  params : list (string * pval);
  loading : option path;
  error : option path;
  notFound : option path
}.

Definition extensions : list string := [".jsx"; ".tsx"; ".js"; ".ts"].

Definition memPath (p : path) (ps : list path) : bool := existsb (peqb p) ps.

Section Resolver.
Variable fs : vfs.
Variable appDir : path.

Definition collectLayout (dir : path) (ls : list path) : list path :=
  match find (fun ext => existsSync fs (app dir ["layout" ++ ext])
                         && negb (memPath (app dir ["layout" ++ ext]) ls)) extensions with
  | Some ext => app ls [app dir ["layout" ++ ext]]
  | None => ls
  end.

Definition findFile (dir : path) (name : string) : option path :=
  match find (fun ext => existsSync fs (app dir [name ++ ext])) extensions with
  | Some ext => Some (app dir [name ++ ext])
  | None => None
  end.

Definition findPage (dir : path) : option path := findFile dir "page".

(** The directories [findNearestConventionFile] visits: [dir], then its
    parents, while they lie under [appDir]. *)
Fixpoint ancestors (dir : path) (fuel : nat) : list path :=
  match fuel with
  | 0 => []
  | S f =>
      if Nat.leb (length appDir) (length dir)
         && peqb (firstn (length appDir) dir) appDir
      then dir :: ancestors (removelast dir) f
      else []
  end.

Definition findNearestConventionFile (dir : path) (name : string) : option path :=
  let fix go (ds : list path) :=
    match ds with
    | [] => None
    | d :: ds' => match findFile d name with Some f => Some f | None => go ds' end
    end in
  go (ancestors dir (S (length dir))).

Definition isRouteGroup (e : string) : bool :=
  match list_ascii_of_string e with
  | c :: rest =>
      Ascii.eqb c "("%char
      && match rev rest with
         | c' :: mid => Ascii.eqb c' ")"%char && negb (Nat.eqb (length mid) 0)
                        && negb (existsb (Ascii.eqb ")"%char) mid)
         | [] => false
         end
  | [] => false
  end.

Definition getRouteGroups (dir : path) : list string :=
  filter (fun e => isRouteGroup e && isDirectory fs (app dir [e])) (readdirSync fs dir).

Fixpoint firstSome {A B : Type} (f : A -> option B) (l : list A) : option B :=
  match l with
  | [] => None
  | x :: l' => match f x with Some r => Some r | None => firstSome f l' end
  end.

Definition orElse {A : Type} (a b : option A) : option A :=
  match a with Some _ => a | None => b end.

Definition mkRoute (pg : path) (dir : path) (ls : list path) (ps : list (string * pval)) : appRoute :=
  {| page := pg; layouts := ls; params := ps;
     loading := findNearestConventionFile dir "loading";
     error := findNearestConventionFile dir "error";
     notFound := findNearestConventionFile dir "not-found" |}.

(** [tryPath(dirPath, [], layouts, params)] *)
Definition tryEmpty (dir : path) (ls : list path) (ps : list (string * pval)) : option appRoute :=
  let ls := collectLayout dir ls in
  match findPage dir with
  | Some pg => Some (mkRoute pg dir ls ps)
  | None =>
      firstSome (fun g =>
        let gp := (app dir [g]) in
        let gl := collectLayout gp ls in
        match findPage gp with
        | Some pg => Some (mkRoute pg gp gl ps)
        | None => None
        end) (getRouteGroups dir)
  end.

(** The kinds of dynamic directory entries, tested in the source's order. *)
Inductive dynKind := CatchAll (name : string) | OptCatchAll (name : string)
                   | Single (name : string) | NotDynamic.

Definition classify (e : string) : dynKind :=
  if startsWith e "[..." && endsWith e "]" then CatchAll (sliceMid 4 1 e)
  else if startsWith e "[[..." && endsWith e "]]" then OptCatchAll (sliceMid 5 2 e)
  else if startsWith e "[" && endsWith e "]" && negb (includesChar "."%char e)
  then Single (sliceMid 1 1 e)
  else NotDynamic.

(** One entry of a [readdirSync] listing in the dynamic-segment loops, with
    [current :: rest] the remaining segments; [recRest dp bl ps'] is
    [tryPath(dp, rest, bl, ps')]. *)
Definition dynEntry (recRest : path -> list path -> list (string * pval) -> option appRoute)
    (base : path) (bl : list path) (current : string) (rest : list string)
    (ps : list (string * pval)) (entry : string) : option appRoute :=
  let dp := app base [entry] in
  if isDirectory fs dp then
    match classify entry with
    | CatchAll n | OptCatchAll n => tryEmpty dp bl (setParam n (PList (current :: rest)) ps)
    | Single n => recRest dp bl (setParam n (PStr current) ps)
    | NotDynamic => None
    end
  else None.

Definition dynLoop recRest base bl current rest ps : option appRoute :=
  firstSome (dynEntry recRest base bl current rest ps) (readdirSync fs base).

Fixpoint tryPath (dir : path) (segs : list string) (ls : list path)
    (ps : list (string * pval)) {struct segs} : option appRoute :=
  match segs with
  | [] => tryEmpty dir ls ps
  | current :: rest =>
    let ls := collectLayout dir ls in
    orElse
      (let exact := app dir [current] in
       if isDirectory fs exact then tryPath exact rest ls ps else None)
    (orElse
      (firstSome (fun g =>
         let gp := app dir [g] in
         let gl := collectLayout gp ls in
         orElse
           (let ge := app gp [current] in
            if isDirectory fs ge then tryPath ge rest gl ps else None)
           (dynLoop (fun dp bl ps' => tryPath dp rest bl ps') gp gl current rest ps))
         (getRouteGroups dir))
      (dynLoop (fun dp bl ps' => tryPath dp rest bl ps') dir ls current rest ps))
  end.

(** [resolveAppDynamicRoute]: the root layout, then the walk. *)
Definition resolveAppDynamicRoute (segments : list string) : option appRoute :=
  let root := match find (fun ext => existsSync fs (app appDir ["layout" ++ ext])) extensions with
              | Some ext => [(app appDir ["layout" ++ ext])]
              | None => []
              end in
  tryPath appDir segments root [].

End Resolver.

(** [pathname === '/' ? [] : pathname.split('/').filter(Boolean)] *)
Definition segmentsOf (pathname : string) : list string :=
  if String.eqb pathname "/" then []
  else filter (fun s => negb (String.eqb s "")) (ApiRequest.splitOn "/"%char pathname).

Definition resolveAppRoute (fs : vfs) (appDir : path) (pathname : string) : option appRoute :=
  resolveAppDynamicRoute fs appDir (segmentsOf pathname).

End AppRouter.

Module AppRouterFacts.
Import Str AppRouter.

Lemma peqb_eq (p q : path) : peqb p q = true <-> p = q.
Proof.
  revert q; induction p as [|a p IH]; intros [|b q]; cbn; split; intro H;
    try discriminate; try reflexivity.
  - apply andb_prop in H as [H1 H2]. apply String.eqb_eq in H1.
    apply IH in H2. subst. reflexivity.
  - injection H as -> ->. rewrite String.eqb_refl. apply andb_true_intro.
    split; [reflexivity | apply IH; reflexivity].
Qed.

Lemma firstSome_some {A B : Type} (f : A -> option B) (l : list A) (r : B) :
  firstSome f l = Some r -> exists x, In x l /\ f x = Some r.
Proof.
  induction l as [|x l IH]; cbn; [discriminate|].
  destruct (f x) eqn:E.
  - intros H; injection H as <-. exists x. split; [left; reflexivity | exact E].
  - intros H. destruct (IH H) as [y [Hy Hf]]. exists y. split; [right; exact Hy | exact Hf].
Qed.

Lemma orElse_some {A : Type} (a b : option A) (r : A) :
  orElse a b = Some r -> a = Some r \/ b = Some r.
Proof. destruct a; cbn; intros H; [left | right]; exact H. Qed.

Lemma getRouteGroups_group fs d g : In g (getRouteGroups fs d) -> isRouteGroup g = true.
Proof.
  unfold getRouteGroups. intros H. apply filter_In in H as [_ H].
  apply andb_prop in H as [H _]. exact H.
Qed.

Lemma findPage_some fs d p :
  findPage fs d = Some p -> exists ext, In ext extensions /\ p = app d ["page" ++ ext].
Proof.
  unfold findPage, findFile. destruct (find _ extensions) as [ext|] eqn:E; [|discriminate].
  intros H; injection H as <-. exists ext. split; [|reflexivity].
  apply (find_some _ _ E).
Qed.

(** [a] is an ancestor-or-self of [b]. *)
Definition isPrefix (a b : path) : Prop := exists t, b = app a t.

Definition layoutDir (l : path) : path := removelast l.

(** Outermost first: every layout's directory is an ancestor-or-self of the
    directory of every layout after it. *)
Definition outermostFirst (ls : list path) : Prop :=
  ForallOrdPairs (fun a b => isPrefix (layoutDir a) (layoutDir b)) ls.

(** All layouts sit on the way to [d], outermost first. *)
Definition LInv (d : path) (ls : list path) : Prop :=
  (forall l, In l ls -> isPrefix (layoutDir l) d) /\ outermostFirst ls.

Definition hasLayoutAt (fs : vfs) (d : path) : Prop :=
  exists ext, In ext extensions /\ existsSync fs (app d ["layout" ++ ext]) = true.

Definition layoutIn (d : path) (ls : list path) : Prop :=
  exists ext, In (app d ["layout" ++ ext]) ls.

Lemma isPrefix_refl d : isPrefix d d.
Proof. exists []. rewrite app_nil_r. reflexivity. Qed.

Lemma isPrefix_trans a b c : isPrefix a b -> isPrefix b c -> isPrefix a c.
Proof. intros [t ->] [u ->]. exists (app t u). rewrite app_assoc. reflexivity. Qed.

Lemma isPrefix_app a t : isPrefix a (app a t).
Proof. exists t. reflexivity. Qed.

Lemma isPrefix_split d c ds d' :
  isPrefix d d' -> isPrefix d' (app d (c :: ds)) -> d' = d \/ isPrefix (app d [c]) d'.
Proof.
  intros [t ->] [u Hu]. rewrite <- app_assoc in Hu. apply app_inv_head in Hu.
  destruct t as [|x t].
  - left. rewrite app_nil_r. reflexivity.
  - right. cbn in Hu. injection Hu as -> _. exists t. rewrite <- app_assoc. reflexivity.
Qed.

Lemma layoutDir_layout d f : layoutDir (app d [f]) = d.
Proof. unfold layoutDir. apply removelast_last. Qed.

Lemma ForallOrdPairs_snoc {A : Type} (R : A -> A -> Prop) (l : list A) (x : A) :
  ForallOrdPairs R l -> (forall a, In a l -> R a x) -> ForallOrdPairs R (app l [x]).
Proof.
  induction l as [|a l IH]; cbn; intros H Hx.
  - constructor; [constructor | constructor].
  - inversion H as [|? ? Ha Hl]; subst. constructor.
    + apply Forall_app. split; [exact Ha|]. constructor; [apply Hx; left; reflexivity | constructor].
    + apply IH; [exact Hl | intros b Hb; apply Hx; right; exact Hb].
Qed.

Lemma collectLayout_cases fs d ls :
  collectLayout fs d ls = ls \/
  exists ext, collectLayout fs d ls = app ls [app d ["layout" ++ ext]].
Proof.
  unfold collectLayout. destruct (find _ extensions) as [ext|].
  - right. exists ext. reflexivity.
  - left. reflexivity.
Qed.

Lemma collectLayout_mono fs d ls l : In l ls -> In l (collectLayout fs d ls).
Proof.
  intros H. destruct (collectLayout_cases fs d ls) as [-> | [ext ->]]; [exact H|].
  apply in_or_app. left. exact H.
Qed.

Lemma collectLayout_inv fs d ls : LInv d ls -> LInv d (collectLayout fs d ls).
Proof.
  intros [Hd Ho]. destruct (collectLayout_cases fs d ls) as [-> | [ext ->]].
  - split; assumption.
  - split.
    + intros l Hl. apply in_app_or in Hl as [Hl | [<- | []]].
      * apply Hd, Hl.
      * rewrite layoutDir_layout. apply isPrefix_refl.
    + apply ForallOrdPairs_snoc; [exact Ho|]. intros a Ha.
      rewrite layoutDir_layout. apply Hd, Ha.
Qed.

Lemma LInv_child d c ls : LInv d ls -> LInv (app d [c]) ls.
Proof.
  intros [Hd Ho]. split; [|exact Ho]. intros l Hl.
  apply (isPrefix_trans _ d); [apply Hd, Hl | apply isPrefix_app].
Qed.

Lemma collectLayout_complete fs d ls :
  hasLayoutAt fs d -> layoutIn d (collectLayout fs d ls).
Proof.
  intros [e [He Hx]]. unfold collectLayout.
  destruct (find _ extensions) as [ext|] eqn:E.
  - exists ext. apply in_or_app. right. left. reflexivity.
  - pose proof (find_none _ _ E e He) as Hn. cbn beta in Hn.
    rewrite Hx in Hn. cbn in Hn. apply negb_false_iff in Hn.
    unfold memPath in Hn. apply existsb_exists in Hn as [l [Hl Heq]].
    apply peqb_eq in Heq. subst l. exists e. exact Hl.
Qed.

Lemma layoutIn_mono d ls ls' :
  layoutIn d ls -> (forall l, In l ls -> In l ls') -> layoutIn d ls'.
Proof. intros [e He] Hm. exists e. apply Hm, He. Qed.

(** How the directories below the walk's start spell a URL: a directory
    named like the segment consumes it; a route group consumes nothing; a
    [[name]] directory consumes one segment and binds it as a string; a
    catch-all ([[...name]] or [[[...name]]]) consumes all remaining segments,
    which must be at least one, and binds them as a sequence. *)
Inductive matchDirs : list string -> list string -> list (string * pval) ->
    list (string * pval) -> Prop :=
| md_nil ps : matchDirs [] [] ps ps
| md_exact c ds rest ps ps' :
    matchDirs ds rest ps ps' -> matchDirs (c :: ds) (c :: rest) ps ps'
| md_group g ds segs ps ps' :
    isRouteGroup g = true -> matchDirs ds segs ps ps' -> matchDirs (g :: ds) segs ps ps'
| md_single e n s ds rest ps ps' :
    classify e = Single n ->
    matchDirs ds rest (setParam n (PStr s) ps) ps' -> matchDirs (e :: ds) (s :: rest) ps ps'
| md_catch e n s ds rest ps ps' :
    classify e = CatchAll n \/ classify e = OptCatchAll n ->
    matchDirs ds [] (setParam n (PList (s :: rest)) ps) ps' ->
    matchDirs (e :: ds) (s :: rest) ps ps'.

(** What a walk from [d] with layouts [ls], params [ps] and segments
    [segs] produces when it finds [r]: a page in a directory [d ++ ds] that
    spells [segs], the params bound on the way, and layouts that keep [ls],
    lie on the way to the page outermost first, and include a layout of
    every directory of the way that has one. *)
Definition resolvedFrom (fs : vfs) (d : path) (ls : list path)
    (ps : list (string * pval)) (segs : list string) (r : appRoute) : Prop :=
  exists ds ext,
    page r = app (app d ds) ["page" ++ ext] /\ In ext extensions /\
    matchDirs ds segs ps (params r) /\
    LInv (app d ds) (layouts r) /\
    (forall l, In l ls -> In l (layouts r)) /\
    (forall d', isPrefix d d' -> isPrefix d' (app d ds) -> hasLayoutAt fs d' ->
       layoutIn d' (layouts r)).

Lemma isPrefix_antisym a b : isPrefix a b -> isPrefix b a -> a = b.
Proof.
  intros [t ->] [u Hu]. rewrite <- app_assoc in Hu.
  assert (Hl : length (app t u) = 0).
  { apply (f_equal (@length string)) in Hu. rewrite length_app in Hu. lia. }
  destruct t; [rewrite app_nil_r; reflexivity | discriminate].
Qed.

Lemma resolvedFrom_weaken fs d bl ls ps segs r :
  resolvedFrom fs d bl ps segs r -> (forall l, In l ls -> In l bl) ->
  resolvedFrom fs d ls ps segs r.
Proof.
  intros [ds [ext [H1 [H2 [H3 [H4 [H5 H6]]]]]]] Hm.
  exists ds, ext. refine (conj H1 (conj H2 (conj H3 (conj H4 (conj _ H6))))).
  intros l Hl. apply H5, Hm, Hl.
Qed.

Lemma resolvedFrom_here fs appDir d pg bl ps :
  findPage fs d = Some pg -> LInv d bl -> (hasLayoutAt fs d -> layoutIn d bl) ->
  resolvedFrom fs d bl ps [] (mkRoute fs appDir pg d bl ps).
Proof.
  intros Hp Hl Hc. apply findPage_some in Hp as [ext [He ->]].
  exists [], ext. rewrite app_nil_r. cbn.
  repeat split; [exact He | constructor | apply Hl | apply Hl | auto |].
  intros d' H1 H2 H3. rewrite (isPrefix_antisym _ _ H2 H1). apply Hc.
  rewrite <- (isPrefix_antisym _ _ H2 H1). exact H3.
Qed.

Lemma resolvedFrom_step fs base e bl ps ps' segs segs' r :
  resolvedFrom fs (app base [e]) bl ps' segs' r ->
  (hasLayoutAt fs base -> layoutIn base bl) ->
  (forall ds, matchDirs ds segs' ps' (params r) -> matchDirs (e :: ds) segs ps (params r)) ->
  resolvedFrom fs base bl ps segs r.
Proof.
  intros [ds [ext [H1 [H2 [H3 [H4 [H5 H6]]]]]]] Hb Hm.
  assert (Ha : app (app base [e]) ds = app base (e :: ds)) by (rewrite <- app_assoc; reflexivity).
  rewrite Ha in H1, H4, H6.
  exists (e :: ds), ext. refine (conj H1 (conj H2 (conj (Hm _ H3) (conj H4 (conj H5 _))))).
  intros d' P1 P2 P3. destruct (isPrefix_split _ _ _ _ P1 P2) as [-> | P].
  - apply (layoutIn_mono _ bl); auto.
  - apply H6; assumption.
Qed.

Lemma collected fs d ls : hasLayoutAt fs d -> layoutIn d (collectLayout fs d ls).
Proof. apply collectLayout_complete. Qed.

Lemma tryEmpty_sound fs appDir d ls ps r :
  LInv d ls -> tryEmpty fs appDir d ls ps = Some r -> resolvedFrom fs d ls ps [] r.
Proof.
  intros Hl. unfold tryEmpty.
  destruct (findPage fs d) as [pg|] eqn:Ep.
  - intros H; injection H as <-.
    apply (resolvedFrom_weaken _ _ (collectLayout fs d ls)); [|apply collectLayout_mono].
    apply resolvedFrom_here; [exact Ep | apply collectLayout_inv, Hl | apply collected].
  - intros H. apply firstSome_some in H as [g [Hg H]].
    destruct (findPage fs (app d [g])) as [pg|] eqn:Eg; [|discriminate].
    injection H as <-.
    apply (resolvedFrom_weaken _ _ (collectLayout fs (app d [g]) (collectLayout fs d ls))).
    2: { intros l Hl'. apply collectLayout_mono, collectLayout_mono, Hl'. }
    eapply resolvedFrom_step.
    + apply resolvedFrom_here; [exact Eg | | apply collected].
      apply collectLayout_inv, LInv_child, collectLayout_inv, Hl.
    + intros Hd. apply (layoutIn_mono _ (collectLayout fs d ls)); [apply collected, Hd|].
      intros l. apply collectLayout_mono.
    + intros ds Hm. apply md_group; [apply (getRouteGroups_group fs d g Hg) | exact Hm].
Qed.

Lemma dynLoop_sound fs appDir recRest base bl c rest ps r :
  (forall dp bl' ps' r', LInv dp bl' -> recRest dp bl' ps' = Some r' ->
     resolvedFrom fs dp bl' ps' rest r') ->
  LInv base bl -> (hasLayoutAt fs base -> layoutIn base bl) ->
  dynLoop fs appDir recRest base bl c rest ps = Some r ->
  resolvedFrom fs base bl ps (c :: rest) r.
Proof.
  intros Hrec Hl Hb H. unfold dynLoop in H.
  apply firstSome_some in H as [e [_ H]]. unfold dynEntry in H.
  destruct (isDirectory fs (app base [e])); [|discriminate].
  destruct (classify e) as [n|n|n|] eqn:Ec; [| | |discriminate].
  - apply tryEmpty_sound in H; [|apply LInv_child, Hl].
    apply (resolvedFrom_step _ _ _ _ _ _ _ _ _ H Hb).
    intros ds Hm. apply (md_catch e n); [left; exact Ec | exact Hm].
  - apply tryEmpty_sound in H; [|apply LInv_child, Hl].
    apply (resolvedFrom_step _ _ _ _ _ _ _ _ _ H Hb).
    intros ds Hm. apply (md_catch e n); [right; exact Ec | exact Hm].
  - apply Hrec in H; [|apply LInv_child, Hl].
    apply (resolvedFrom_step _ _ _ _ _ _ _ _ _ H Hb).
    intros ds Hm. apply (md_single e n); [exact Ec | exact Hm].
Qed.

Lemma tryPath_sound fs appDir segs : forall d ls ps r,
  LInv d ls -> tryPath fs appDir d segs ls ps = Some r -> resolvedFrom fs d ls ps segs r.
Proof.
  induction segs as [|c rest IH]; intros d ls ps r Hl H.
  - apply (tryEmpty_sound fs appDir); assumption.
  - cbn [tryPath] in H.
    set (L1 := collectLayout fs d ls) in H.
    assert (HL1 : LInv d L1) by (apply collectLayout_inv, Hl).
    assert (HC1 : hasLayoutAt fs d -> layoutIn d L1) by apply collected.
    apply (resolvedFrom_weaken _ _ L1); [|apply collectLayout_mono].
    apply orElse_some in H as [H | H].
    + destruct (isDirectory fs (app d [c])); [|discriminate].
      apply IH in H; [|apply LInv_child, HL1].
      apply (resolvedFrom_step _ _ _ _ _ _ _ _ _ H HC1).
      intros ds Hm. apply md_exact, Hm.
    + apply orElse_some in H as [H | H].
      * apply firstSome_some in H as [g [Hg H]].
        set (gl := collectLayout fs (app d [g]) L1) in H.
        assert (Hgl : LInv (app d [g]) gl) by (apply collectLayout_inv, LInv_child, HL1).
        assert (Hgc : hasLayoutAt fs (app d [g]) -> layoutIn (app d [g]) gl) by apply collected.
        apply (resolvedFrom_weaken _ _ gl); [|apply collectLayout_mono].
        assert (Hg' : resolvedFrom fs (app d [g]) gl ps (c :: rest) r).
        { apply orElse_some in H as [H | H].
          - destruct (isDirectory fs (app (app d [g]) [c])); [|discriminate].
            apply IH in H; [|apply LInv_child, Hgl].
            apply (resolvedFrom_step _ _ _ _ _ _ _ _ _ H Hgc).
            intros ds Hm. apply md_exact, Hm.
          - apply (dynLoop_sound fs appDir _ _ _ _ _ _ _ (fun dp bl' ps' r' => IH dp bl' ps' r') Hgl Hgc H). }
        apply (resolvedFrom_step _ _ _ _ _ _ _ _ _ Hg').
        -- intros Hd. apply (layoutIn_mono _ L1); [apply HC1, Hd | apply collectLayout_mono].
        -- intros ds Hm. apply md_group; [apply (getRouteGroups_group fs d g Hg) | exact Hm].
      * apply (dynLoop_sound fs appDir _ _ _ _ _ _ _ (fun dp bl' ps' r' => IH dp bl' ps' r') HL1 HC1 H).
Qed.

Lemma resolveAppRoute_sound fs appDir pathname r :
  resolveAppRoute fs appDir pathname = Some r ->
  resolvedFrom fs appDir [] [] (segmentsOf pathname) r.
Proof.
  unfold resolveAppRoute, resolveAppDynamicRoute. intros H.
  apply tryPath_sound in H.
  - apply (resolvedFrom_weaken _ _ _ _ _ _ _ H). intros l [].
  - destruct (find _ extensions) as [ext|].
    + split.
      * intros l [<- | []]. rewrite layoutDir_layout. apply isPrefix_refl.
      * constructor; constructor.
    + split; [intros l [] | constructor].
Qed.

(** The route-group scenario: [/app/(marketing)/layout.tsx] and
    [/app/(marketing)/about/page.tsx], with or without a root layout. *)
Definition marketingFs (root : option string) : vfs :=
  app ([(["app"], true)] ++ match root with
                            | Some e => [(["app"; "layout" ++ e], false)]
                            | None => []
                            end)
      [(["app"; "(marketing)"], true);
       (["app"; "(marketing)"; "layout.tsx"], false);
       (["app"; "(marketing)"; "about"], true);
       (["app"; "(marketing)"; "about"; "page.tsx"], false)]%list.

Definition rootLayouts (root : option string) : list path :=
  match root with Some e => [["app"; "layout" ++ e]] | None => [] end.

Definition aboutResolves (root : option string) : Prop :=
  option_map (fun r => (page r, layouts r, params r))
    (resolveAppRoute (marketingFs root) ["app"] "/about")
  = Some (["app"; "(marketing)"; "about"; "page.tsx"],
          app (rootLayouts root) [["app"; "(marketing)"; "layout.tsx"]], []).

(** The catch-all scenario: [/app/docs/[...slug]/page.tsx]. *)
Definition catchAllFs : vfs :=
  [(["app"], true); (["app"; "docs"], true); (["app"; "docs"; "[...slug]"], true);
   (["app"; "docs"; "[...slug]"; "page.tsx"], false)].

(** The optional catch-all scenario: [/app/docs/[[...slug]]/page.tsx]. *)
Definition optCatchAllFs : vfs :=
  [(["app"], true); (["app"; "docs"], true); (["app"; "docs"; "[[...slug]]"], true);
   (["app"; "docs"; "[[...slug]]"; "page.tsx"], false)].

(** C5: resolving [/about] in the route-group scenario gives the group's
    page, the root layout (if there is one) and then the group's layout,
    and no params. In general, a resolved route's layouts are outermost
    first (each layout's directory is an ancestor-or-self of the directory
    of every later one), all lie on the way to the page, and every
    directory on the way that has a layout file contributes one, route
    groups included; a route group consumes no URL segment ([md_group]). *)
Theorem app_layouts_outermost_first fs appDir pathname r
    (H : resolveAppRoute fs appDir pathname = Some r) :
  (exists ds ext,
     page r = app (app appDir ds) ["page" ++ ext] /\
     matchDirs ds (segmentsOf pathname) [] (params r) /\
     outermostFirst (layouts r) /\
     (forall l, In l (layouts r) -> isPrefix (layoutDir l) (app appDir ds)) /\
     (forall d', isPrefix appDir d' -> isPrefix d' (app appDir ds) ->
        hasLayoutAt fs d' -> layoutIn d' (layouts r))) /\
  Forall aboutResolves (None :: map Some extensions).
Proof.
  split.
  - destruct (resolveAppRoute_sound _ _ _ _ H) as [ds [ext [H1 [_ [H3 [[H4a H4b] [_ H6]]]]]]].
    exists ds, ext. repeat split; assumption.
  - repeat constructor.
Qed.

(** C6: in the catch-all scenario, [/docs/a/b/c] resolves with
    [params.slug = ["a","b","c"]]. In general, a resolved route's params
    are exactly those bound by the dynamic directories on the page's path
    ([matchDirs] from no params): a [[name]] directory binds the one
    segment it consumes as a string, a catch-all binds the remaining
    segments as a sequence, and nothing else binds. *)
Theorem app_params_dynamic fs appDir pathname r
    (H : resolveAppRoute fs appDir pathname = Some r) :
  (exists ds ext,
     page r = app (app appDir ds) ["page" ++ ext] /\ In ext extensions /\
     matchDirs ds (segmentsOf pathname) [] (params r)) /\
  option_map params (resolveAppRoute catchAllFs ["app"] "/docs/a/b/c")
  = Some [("slug", PList ["a"; "b"; "c"])].
Proof.
  split.
  - destruct (resolveAppRoute_sound _ _ _ _ H) as [ds [ext [H1 [H2 [H3 _]]]]].
    exists ds, ext. repeat split; assumption.
  - vm_compute. reflexivity.
Qed.

(** C7: the optional catch-all directory is never tried with an empty
    remainder: in the optional catch-all scenario [/docs] does not resolve,
    while [/docs/x] does, with [params.slug = ["x"]]. *)
Theorem app_optional_catch_all_empty_unmatched :
  resolveAppRoute optCatchAllFs ["app"] "/docs" = None /\
  option_map params (resolveAppRoute optCatchAllFs ["app"] "/docs/x")
  = Some [("slug", PList ["x"])].
Proof. split; vm_compute; reflexivity. Qed.

Lemma app_layouts_outermost_first_witness :
  let r := {| page := ["app"; "(marketing)"; "about"; "page.tsx"];
              layouts := [["app"; "layout.tsx"]; ["app"; "(marketing)"; "layout.tsx"]];
              params := []; loading := None; error := None; notFound := None |} in
  resolveAppRoute (marketingFs (Some ".tsx")) ["app"] "/about" = Some r /\
  ((exists ds ext,
     page r = app (app ["app"] ds) ["page" ++ ext] /\
     matchDirs ds (segmentsOf "/about") [] (params r) /\
     outermostFirst (layouts r) /\
     (forall l, In l (layouts r) -> isPrefix (layoutDir l) (app ["app"] ds)) /\
     (forall d', isPrefix ["app"] d' -> isPrefix d' (app ["app"] ds) ->
        hasLayoutAt (marketingFs (Some ".tsx")) d' -> layoutIn d' (layouts r))) /\
   Forall aboutResolves (None :: map Some extensions)).
Proof.
  intros r. split.
  - vm_compute. reflexivity.
  - apply (app_layouts_outermost_first (marketingFs (Some ".tsx")) ["app"] "/about" r).
    vm_compute. reflexivity.
Defined.

Lemma app_params_dynamic_witness :
  let r := {| page := ["app"; "docs"; "[...slug]"; "page.tsx"]; layouts := [];
              params := [("slug", PList ["a"; "b"; "c"])];
              loading := None; error := None; notFound := None |} in
  resolveAppRoute catchAllFs ["app"] "/docs/a/b/c" = Some r /\
  ((exists ds ext,
     page r = app (app ["app"] ds) ["page" ++ ext] /\ In ext extensions /\
     matchDirs ds (segmentsOf "/docs/a/b/c") [] (params r)) /\
   option_map params (resolveAppRoute catchAllFs ["app"] "/docs/a/b/c")
   = Some [("slug", PList ["a"; "b"; "c"])]).
Proof.
  intros r. split.
  - vm_compute. reflexivity.
  - apply (app_params_dynamic catchAllFs ["app"] "/docs/a/b/c" r).
    vm_compute. reflexivity.
Defined.

End AppRouterFacts.

(** ** Further string facts *)
Module StrFacts.
Import Str.

Lemma append_length (a b : string) : String.length (a ++ b) = String.length a + String.length b.
Proof. induction a as [|c a IH]; cbn; [reflexivity | rewrite IH; reflexivity]. Qed.

Lemma length_drop (k : nat) (s : string) : String.length (drop k s) = String.length s - k.
Proof.
  revert s; induction k as [|k IH]; intros [|c s]; cbn; try reflexivity.
  apply IH.
Qed.

Lemma take_drop (k : nat) (s : string) : s = String.substring 0 k s ++ drop k s.
Proof.
  revert s; induction k as [|k IH]; intros [|c s]; cbn; try reflexivity.
  f_equal. apply IH.
Qed.

Lemma substring_append (t u : string) :
  String.substring 0 (String.length t) (t ++ u) = t.
Proof.
  induction t as [|c t IH]; cbn; [destruct u; reflexivity | rewrite IH; reflexivity].
Qed.

Lemma endsWith_spec (s suf : string) :
  endsWith s suf = true <-> exists t, s = t ++ suf.
Proof.
  unfold endsWith. split.
  - intros H. apply andb_prop in H as [Hl He]. apply String.eqb_eq in He.
    exists (String.substring 0 (String.length s - String.length suf) s).
    rewrite <- He at 2. apply take_drop.
  - intros [t ->]. rewrite append_length.
    replace (String.length t + String.length suf - String.length suf) with (String.length t) by lia.
    rewrite drop_append, String.eqb_refl, andb_true_r. apply Nat.leb_le. lia.
Qed.

Lemma endsWith_false (s suf : string) :
  endsWith s suf = false <-> ~ exists t, s = t ++ suf.
Proof.
  rewrite <- endsWith_spec. destruct (endsWith s suf); split; congruence.
Qed.

Lemma append_assoc (a b c : string) : (a ++ b) ++ c = a ++ (b ++ c).
Proof. induction a as [|x a IH]; cbn; [reflexivity | rewrite IH; reflexivity]. Qed.

Lemma append_nil (a : string) : a ++ "" = a.
Proof. induction a as [|x a IH]; cbn; [reflexivity | rewrite IH; reflexivity]. Qed.

Lemma append_inv_tail (a b c : string) : a ++ c = b ++ c -> a = b.
Proof.
  intros H.
  assert (Hl : String.length a = String.length b).
  { apply (f_equal String.length) in H. rewrite !append_length in H. lia. }
  rewrite <- (substring_append a c), <- (substring_append b c), H, Hl. reflexivity.
Qed.

End StrFacts.

(** ** Configured prefixes ([loadAssetPrefix], lines 1276-1318, and
    [loadBasePath], lines 1323-1349) *)
Module PrefixConfig.
Import Str.

(** The normalisation both loaders apply, to an option value and to a
    value read from [next.config]: a leading [/] is added when missing and
    one trailing [/] is removed ([slice(0, -1)]). *)
Definition normalizePrefix (v : string) : string :=
  let p := if startsWith v "/" then v else "/" ++ v in
  if endsWith p "/" then String.substring 0 (String.length p - 1) p else p.

(** [\s] of a JavaScript regular expression, on the characters a
    [string] holds (code points 0-255). *)
Definition isSpace (c : ascii) : bool :=
  let n := nat_of_ascii c in
  (Nat.leb 9 n && Nat.leb n 13) || Nat.eqb n 32 || Nat.eqb n 160.

Definition isQuote (c : ascii) : bool :=
  Ascii.eqb c (ascii_of_nat 34) || Ascii.eqb c "'"%char.

Fixpoint skipSpaces (s : string) : string :=
  match s with
  | String c s' => if isSpace c then skipSpaces s' else s
  | EmptyString => s
  end.

(** The greedy run of non-quote characters (the regex's negated quote
    class) and what follows it. *)
Fixpoint quoteFreeRun (s : string) : string * string :=
  match s with
  | String c s' => if isQuote c then ("", s)
                   else let '(r, rest) := quoteFreeRun s' in (String c r, rest)
  | EmptyString => ("", "")
  end.

(** The regex [key\s*:\s*Q([^Q]+)Q], with [Q] the class of the two quote
    characters, tried at the start of [s]; the captured group on success. *)
Definition matchHere (key s : string) : option string :=
  if startsWith s key then
    match skipSpaces (drop (String.length key) s) with
    | String c s1 =>
        if Ascii.eqb c ":"%char then
          match skipSpaces s1 with
          | String q s2 =>
              if isQuote q then
                let '(run, rest) := quoteFreeRun s2 in
                match run, rest with
                | String _ _, String _ _ => Some run
                | _, _ => None
                end
              else None
          | EmptyString => None
          end
        else None
    | EmptyString => None
    end
  else None.

(** [content.match(regex)]: the leftmost match. *)
Fixpoint configMatch (key content : string) : option string :=
  match matchHere key content with
  | Some v => Some v
  | None => match content with
            | String _ rest => configMatch key rest
            | EmptyString => None
            end
  end.

Definition configFiles : list string := ["/next.config.ts"; "/next.config.js"; "/next.config.mjs"].

(** The loaders: [key] is [assetPrefix] or [basePath]; [readConfig f] is
    the text of config file [f] when it exists. The field starts as "". *)
Definition loadPrefix (key : string) (readConfig : string -> option string)
    (optionValue : option string) : string :=
  match optionValue with
  | Some v => normalizePrefix v
  | None =>
      match AppRouter.firstSome (fun f =>
              match readConfig f with
              | Some content => option_map normalizePrefix (configMatch key content)
              | None => None
              end) configFiles with
      | Some p => p
      | None => ""
      end
  end.

Definition loadAssetPrefix := loadPrefix "assetPrefix".
Definition loadBasePath := loadPrefix "basePath".

End PrefixConfig.

Module PrefixConfigFacts.
Import Str StrFacts PrefixConfig.

Lemma endsWith_app (t suf : string) : endsWith (t ++ suf) suf = true.
Proof. apply endsWith_spec. exists t. reflexivity. Qed.

Lemma endsWith_slash_prefix (v : string) :
  startsWith v "/" = false -> endsWith ("/" ++ v) "//" = endsWith v "//".
Proof.
  intros Hv. destruct (endsWith v "//") eqn:E.
  - apply endsWith_spec in E as [t ->]. apply endsWith_spec. exists ("/" ++ t). reflexivity.
  - apply endsWith_false. intros [t Ht]. destruct t as [|c t]; cbn in Ht.
    + injection Ht as ->. discriminate Hv.
    + injection Ht as _ ->. rewrite endsWith_app in E. discriminate.
Qed.

Lemma endsWith_double (p : string) : endsWith p "//" = true -> endsWith p "/" = true.
Proof.
  intros H. apply endsWith_spec in H as [t ->]. apply endsWith_spec.
  exists (t ++ "/"). rewrite append_assoc. reflexivity.
Qed.

Lemma chop_slash (t : string) :
  String.substring 0 (String.length (t ++ "/") - 1) (t ++ "/") = t.
Proof.
  rewrite append_length. cbn [String.length].
  replace (String.length t + 1 - 1) with (String.length t) by lia.
  apply substring_append.
Qed.

Lemma normalizePrefix_cases (v : string) : exists p,
  endsWith p "//" = endsWith v "//" /\
  ((p = v /\ startsWith v "/" = true) \/ (p = "/" ++ v /\ startsWith v "/" = false)) /\
  normalizePrefix v =
    (if endsWith p "/" then String.substring 0 (String.length p - 1) p else p).
Proof.
  unfold normalizePrefix. destruct (startsWith v "/") eqn:S.
  - exists v. split; [reflexivity | split; [left; split; reflexivity | reflexivity]].
  - exists ("/" ++ v). split; [apply endsWith_slash_prefix, S|].
    split; [right; split; reflexivity | reflexivity].
Qed.

(** X1: normalising an [assetPrefix] or [basePath] removes exactly one
    trailing slash: the result ends with [/] exactly when the value ended
    with [//]. Normalisation leaves a value unchanged exactly when the value
    is "" or starts with [/] and does not end with [/]. *)
Theorem normalizePrefix_one_slash (v : string) :
  endsWith (normalizePrefix v) "/" = endsWith v "//" /\
  (normalizePrefix v = v <-> v = "" \/ (startsWith v "/" = true /\ endsWith v "/" = false)).
Proof.
  destruct (normalizePrefix_cases v) as [p [Hp [Hform Hn]]]. rewrite Hn.
  destruct (endsWith p "/") eqn:E.
  - apply endsWith_spec in E as [t ->]. rewrite chop_slash. split.
    + rewrite <- Hp. destruct (endsWith t "/") eqn:Et.
      * symmetry. apply endsWith_spec in Et as [u ->]. apply endsWith_spec.
        exists u. rewrite append_assoc. reflexivity.
      * symmetry. apply endsWith_false. intros [u Hu].
        apply endsWith_false in Et. apply Et. exists u.
        apply (append_inv_tail _ _ "/"). rewrite Hu, append_assoc. reflexivity.
    + split.
      * intros Htv. subst v. left. destruct Hform as [[Hv _] | [Hv Hs]].
        -- apply (f_equal String.length) in Hv. rewrite append_length in Hv. cbn in Hv. lia.
        -- destruct t as [|c t]; [reflexivity|]. exfalso. cbn in Hv.
           injection Hv as Hc _. subst c. destruct t; discriminate Hs.
      * intros [-> | [Hs He]].
        -- destruct Hform as [[_ Hs] | [Hv _]]; [discriminate Hs|].
           cbn in Hv. destruct t as [|c t]; [reflexivity|].
           injection Hv as _ Ht. destruct t; discriminate Ht.
        -- destruct Hform as [[Hv _] | [_ Hs']]; [|congruence].
           rewrite <- Hv, endsWith_app in He. discriminate He.
  - split.
    + rewrite E, <- Hp. symmetry. destruct (endsWith p "//") eqn:E2; [|reflexivity].
      rewrite (endsWith_double _ E2) in E. discriminate E.
    + split.
      * intros Hpv. right. destruct Hform as [[_ Hs] | [Hv _]].
        -- split; [exact Hs | rewrite <- Hpv; exact E].
        -- exfalso. rewrite Hpv in Hv. apply (f_equal String.length) in Hv.
           rewrite append_length in Hv. cbn in Hv. lia.
      * intros [-> | [Hs He]].
        -- destruct Hform as [[_ Hs] | [Hv _]]; [discriminate Hs|].
           subst p. discriminate E.
        -- destruct Hform as [[Hv _] | [_ Hs']]; [exact Hv | congruence].
Qed.

Definition quoteFree (v : string) : bool :=
  forallb (fun c => negb (isQuote c)) (list_ascii_of_string v).
Definition sq : string := "'".
Lemma colon_not_space : isSpace ":"%char = false. Proof. reflexivity. Qed.
Lemma space_is_space : isSpace " "%char = true. Proof. reflexivity. Qed.
Lemma sq_not_space : isSpace "'"%char = false. Proof. reflexivity. Qed.
Lemma sq_quote : isQuote "'"%char = true. Proof. reflexivity. Qed.
Lemma quoteFreeRun_app (v rest : string) (q : ascii) :
  quoteFree v = true -> isQuote q = true ->
  quoteFreeRun (v ++ String q rest) = (v, String q rest).
Proof.
  intros Hv Hq. induction v as [|c v IH]; cbn in *.
  - rewrite Hq. reflexivity.
  - apply andb_prop in Hv as [Hc Hv]. apply negb_true_iff in Hc.
    rewrite Hc, (IH Hv). reflexivity.
Qed.
Lemma matchHere_setting (key v rest : string) :
  v <> "" -> quoteFree v = true ->
  matchHere key (key ++ ": " ++ sq ++ v ++ sq ++ rest) = Some v.
Proof.
  intros Hne Hq. unfold matchHere. rewrite startsWith_append, drop_append.
  change (": " ++ sq ++ v ++ sq ++ rest) with (String ":" (String " " (String "'" (v ++ String "'" rest)))).
  cbn [skipSpaces]. rewrite colon_not_space. cbn iota.
  rewrite (eq_refl : Ascii.eqb ":" ":" = true). cbn [skipSpaces].
  rewrite space_is_space, sq_not_space, sq_quote.
  rewrite (quoteFreeRun_app v rest "'"%char Hq sq_quote).
  destruct v; [congruence | reflexivity].
Qed.
Lemma configMatch_cons key c rest :
  configMatch key (String c rest) =
  match matchHere key (String c rest) with Some v => Some v | None => configMatch key rest end.
Proof. reflexivity. Qed.
Lemma configMatch_here key s v : matchHere key s = Some v -> configMatch key s = Some v.
Proof. destruct s; cbn; intros ->; reflexivity. Qed.
Lemma matchHere_not_key key s : startsWith s key = false -> matchHere key s = None.
Proof. unfold matchHere. intros ->. reflexivity. Qed.
(** X2: the settings are found by a plain text search of [next.config]:
    a [basePath] setting in a line comment is honoured, and it wins over a
    real setting after it. *)
Theorem basePath_commented_setting_wins (readConfig : string -> option string)
    (v w post : string)
    (Hv : v <> "") (Hq : quoteFree v = true)
    (Hts : readConfig "/next.config.ts" =
           Some ("// basePath: " ++ sq ++ v ++ sq ++ "
basePath: " ++ sq ++ w ++ sq ++ post)) :
  loadBasePath readConfig None = normalizePrefix v.
Proof.
  unfold loadBasePath, loadPrefix, configFiles. cbn [AppRouter.firstSome]. rewrite Hts.
  change ("// basePath: " ++ ?x) with (String "/" (String "/" (String " " ("basePath" ++ ": " ++ x)))).
  rewrite !configMatch_cons, !matchHere_not_key by reflexivity.
  rewrite (configMatch_here _ _ v); [reflexivity|]. apply matchHere_setting; assumption.
Qed.

Definition commentedConfig (f : string) : option string :=
  if String.eqb f "/next.config.ts"
  then Some ("// basePath: " ++ sq ++ "/old" ++ sq ++ "
basePath: " ++ sq ++ "/new" ++ sq)
  else None.

Lemma basePath_commented_setting_wins_witness :
  ("/old" <> "" /\ quoteFree "/old" = true) /\
  loadBasePath commentedConfig None = normalizePrefix "/old".
Proof.
  split; [split; [discriminate | reflexivity]|].
  apply (basePath_commented_setting_wins commentedConfig "/old" "/new" EmptyString);
    [discriminate | reflexivity | reflexivity].
Defined.

End PrefixConfigFacts.

(** ** Cookies ([parseCookies], lines 2259-2271) *)
Module Cookies.
Import Str.

(** [String.prototype.trim]: JavaScript white space and line terminators
    ([PrefixConfig.isSpace] on code points 0-255) removed at both ends. *)
Fixpoint trimStart (s : string) : string :=
  match s with
  | String c s' => if PrefixConfig.isSpace c then trimStart s' else s
  | EmptyString => EmptyString
  end.

Fixpoint trimEnd (s : string) : string :=
  match s with
  | String c s' =>
      let r := trimEnd s' in
      if String.eqb r "" && PrefixConfig.isSpace c then "" else String c r
  | EmptyString => EmptyString
  end.

Definition trim (s : string) : string := trimStart (trimEnd s).

(** [cookies[name] = value] on a fresh object: assigning a string to
    [__proto__] runs the prototype setter, which ignores it. *)
Definition setCookie (name value : string) (m : list (string * string)) :=
  if String.eqb name "__proto__" then m else Streaming.setKey name value m.

Section Parse.
(** [decodeURIComponent], a builtin: [None] where it throws [URIError]. *)
Variable decodeURIComponent : string -> option string.

(** One [cookie] of the [forEach]: [const [name, value] =
    cookie.trim().split('=')], missing pieces being [undefined]. *)
Definition cookieStep (acc : option (list (string * string))) (cookie : string) :=
  match acc with
  | None => None
  | Some m =>
      let parts := ApiRequest.splitOn "="%char (trim cookie) in
      let name := nth 0 parts "" in
      let value := nth 1 parts "" in
      if negb (String.eqb name "") && negb (String.eqb value "") then
        match decodeURIComponent value with
        | Some d => Some (setCookie name d m)
        | None => None
        end
      else Some m
  end.

(** [parseCookies(cookieHeader)]; [None] when it throws. Only lookups are
    meaningful: the enumeration order of integer-like keys of the
    JavaScript object is not modelled. *)
Definition parseCookies (cookieHeader : string) : option (list (string * string)) :=
  if String.eqb cookieHeader "" then Some []
  else fold_left cookieStep (ApiRequest.splitOn ";"%char cookieHeader) (Some []).

End Parse.

Fixpoint lookup (k : string) (m : list (string * string)) : option string :=
  match m with
  | [] => None
  | (k', v) :: m' => if String.eqb k k' then Some v else lookup k m'
  end.

End Cookies.

Module CookiesFacts.
Import Str StrFacts Cookies.

Fixpoint noSpace (s : string) : bool :=
  match s with
  | String c s' => negb (PrefixConfig.isSpace c) && noSpace s'
  | EmptyString => true
  end.

(** A plain cookie token: non-empty, without [;], [=] or white space. *)
Definition token (t : string) : bool :=
  negb (String.eqb t "") && negb (includesChar ";"%char t)
  && negb (includesChar "="%char t) && noSpace t.

Definition pieceOf (p : string * string) : string := fst p ++ "=" ++ snd p.

(** The header [n1=v1; n2=v2; ...] a browser sends. *)
Fixpoint joinCookies (kvs : list (string * string)) : string :=
  match kvs with
  | [] => ""
  | p :: rest => pieceOf p ++ match rest with [] => "" | _ => "; " ++ joinCookies rest end
  end.

(** The value of the last pair named [n]. *)
Definition lastValue (n : string) (kvs : list (string * string)) : option string :=
  fold_left (fun acc p => if String.eqb n (fst p) then Some (snd p) else acc) kvs None.

Lemma includesChar_app (c : ascii) (a b : string) :
  includesChar c (a ++ b) = includesChar c a || includesChar c b.
Proof. induction a as [|x a IH]; cbn; [reflexivity | rewrite IH, orb_assoc; reflexivity]. Qed.

Lemma noSpace_app (a b : string) : noSpace (a ++ b) = noSpace a && noSpace b.
Proof. induction a as [|x a IH]; cbn; [reflexivity | rewrite IH, andb_assoc; reflexivity]. Qed.

Lemma splitOn_nosep (c : ascii) (a : string) :
  includesChar c a = false -> ApiRequest.splitOn c a = [a].
Proof.
  induction a as [|x a IH]; cbn; [reflexivity|]. intros H.
  apply orb_false_iff in H as [Hx Ha]. rewrite Ascii.eqb_sym, Hx, (IH Ha). reflexivity.
Qed.

Lemma splitOn_app_sep (c : ascii) (a b : string) :
  includesChar c a = false ->
  ApiRequest.splitOn c (a ++ String c b) = a :: ApiRequest.splitOn c b.
Proof.
  induction a as [|x a IH]; cbn; intros H.
  - rewrite Ascii.eqb_refl. reflexivity.
  - apply orb_false_iff in H as [Hx Ha]. rewrite Ascii.eqb_sym, Hx, (IH Ha). reflexivity.
Qed.

Lemma trimEnd_noSpace (s : string) : noSpace s = true -> trimEnd s = s.
Proof.
  induction s as [|c s IH]; cbn; [reflexivity|]. intros H.
  apply andb_prop in H as [Hc Hs]. apply negb_true_iff in Hc.
  rewrite (IH Hs), Hc, andb_false_r. reflexivity.
Qed.

Lemma trimStart_noSpace (s : string) : noSpace s = true -> trimStart s = s.
Proof.
  destruct s as [|c s]; cbn; [reflexivity|]. intros H.
  apply andb_prop in H as [Hc _]. apply negb_true_iff in Hc. rewrite Hc. reflexivity.
Qed.

Lemma trim_noSpace (s : string) : noSpace s = true -> trim s = s.
Proof. intros H. unfold trim. rewrite (trimEnd_noSpace s H). apply trimStart_noSpace, H. Qed.

Lemma trim_space_noSpace (s : string) :
  s <> "" -> noSpace s = true -> trim (String " " s) = s.
Proof.
  intros Hne H. unfold trim. cbn [trimEnd]. rewrite (trimEnd_noSpace s H).
  destruct (String.eqb s "") eqn:E; [apply String.eqb_eq in E; contradiction|].
  cbn [andb]. cbn [trimStart]. rewrite (eq_refl : PrefixConfig.isSpace " "%char = true).
  apply trimStart_noSpace, H.
Qed.

Lemma token_parts (t : string) :
  token t = true ->
  t <> "" /\ includesChar ";"%char t = false /\ includesChar "="%char t = false /\ noSpace t = true.
Proof.
  unfold token. intros H. apply andb_prop in H as [H H4]. apply andb_prop in H as [H H3].
  apply andb_prop in H as [H1 H2]. apply negb_true_iff in H1, H2, H3.
  split; [apply String.eqb_neq, H1 | split; [exact H2 | split; [exact H3 | exact H4]]].
Qed.

Definition plainPair (p : string * string) : Prop :=
  token (fst p) = true /\ token (snd p) = true /\
  includesChar "%"%char (snd p) = false /\ fst p <> "__proto__".

Section WithDecode.
Variable decode : string -> option string.
Hypothesis decode_plain : forall s, includesChar "%"%char s = false -> decode s = Some s.

Lemma pieceOf_parts (p : string * string) :
  plainPair p ->
  includesChar ";"%char (pieceOf p) = false /\ noSpace (pieceOf p) = true /\
  pieceOf p <> "" /\
  ApiRequest.splitOn "="%char (pieceOf p) = [fst p; snd p].
Proof.
  intros [Hn [Hv [_ _]]]. apply token_parts in Hn as [Hn1 [Hn2 [Hn3 Hn4]]].
  apply token_parts in Hv as [Hv1 [Hv2 [Hv3 Hv4]]]. unfold pieceOf.
  split; [rewrite !includesChar_app, Hn2, Hv2; reflexivity|].
  split; [rewrite !noSpace_app, Hn4, Hv4; reflexivity|].
  split; [destruct (fst p); [contradiction | discriminate]|].
  change ("=" ++ snd p) with (String "=" (snd p)).
  rewrite (splitOn_app_sep "="%char (fst p) (snd p) Hn3), (splitOn_nosep _ _ Hv3).
  reflexivity.
Qed.

Lemma cookieStep_piece (p : string * string) (m : list (string * string)) (pre : bool) :
  plainPair p ->
  cookieStep decode (Some m) (if pre then String " " (pieceOf p) else pieceOf p)
  = Some (setCookie (fst p) (snd p) m).
Proof.
  intros Hp. pose proof (pieceOf_parts p Hp) as [_ [Hs [Hne Hsplit]]].
  destruct Hp as [Hn [Hv [Hpct _]]].
  apply token_parts in Hn as [Hn1 _]. apply token_parts in Hv as [Hv1 _].
  unfold cookieStep.
  replace (trim (if pre then String " " (pieceOf p) else pieceOf p)) with (pieceOf p)
    by (destruct pre; symmetry; [apply trim_space_noSpace | apply trim_noSpace]; assumption).
  rewrite Hsplit. cbn [nth].
  apply String.eqb_neq in Hn1, Hv1. rewrite Hn1, Hv1. cbn [negb andb].
  rewrite (decode_plain _ Hpct). reflexivity.
Qed.

Lemma splitOn_join (p : string * string) (rest : list (string * string)) :
  Forall plainPair (p :: rest) ->
  ApiRequest.splitOn ";"%char (joinCookies (p :: rest))
  = pieceOf p :: map (fun q => String " " (pieceOf q)) rest.
Proof.
  revert p. induction rest as [|q rest IH]; intros p Hall.
  - cbn [joinCookies]. rewrite append_nil.
    apply splitOn_nosep. apply (pieceOf_parts p). inversion Hall; assumption.
  - inversion Hall as [|? ? Hp Hrest]; subst.
    replace (joinCookies (p :: q :: rest))
      with (pieceOf p ++ String ";" (String " " (joinCookies (q :: rest)))) by reflexivity.
    rewrite splitOn_app_sep by apply (pieceOf_parts p Hp).
    cbn [ApiRequest.splitOn]. rewrite (eq_refl : Ascii.eqb " " ";" = false).
    rewrite (IH q Hrest). reflexivity.
Qed.

Lemma fold_cookieStep (rest : list (string * string)) (m : list (string * string)) :
  Forall plainPair rest ->
  fold_left (cookieStep decode) (map (fun q => String " " (pieceOf q)) rest) (Some m)
  = Some (fold_left (fun acc q => setCookie (fst q) (snd q) acc) rest m).
Proof.
  revert m. induction rest as [|q rest IH]; intros m Hall; [reflexivity|].
  inversion Hall as [|? ? Hq Hrest]; subst. cbn [map fold_left].
  rewrite (cookieStep_piece q m true Hq). apply IH, Hrest.
Qed.

End WithDecode.

Lemma lookup_setKey (n k v : string) (m : list (string * string)) :
  lookup n (Streaming.setKey k v m) = if String.eqb n k then Some v else lookup n m.
Proof.
  induction m as [|[k' v'] m IH]; cbn; [reflexivity|].
  destruct (String.eqb k k') eqn:E; cbn.
  - apply String.eqb_eq in E. subst k'. destruct (String.eqb n k); reflexivity.
  - rewrite IH. destruct (String.eqb n k) eqn:E1, (String.eqb n k') eqn:E2; try reflexivity.
    apply String.eqb_eq in E1, E2. subst. rewrite String.eqb_refl in E. discriminate.
Qed.

Lemma lookup_fold (n : string) (kvs m : list (string * string)) :
  Forall plainPair kvs ->
  lookup n (fold_left (fun acc q => setCookie (fst q) (snd q) acc) kvs m)
  = fold_left (fun acc p => if String.eqb n (fst p) then Some (snd p) else acc) kvs (lookup n m).
Proof.
  revert m. induction kvs as [|q kvs IH]; intros m Hall; [reflexivity|].
  inversion Hall as [|? ? [_ [_ [_ Hp]]] Hrest]; subst. cbn [fold_left].
  rewrite IH by exact Hrest. f_equal.
  unfold setCookie. apply String.eqb_neq in Hp. rewrite Hp. apply lookup_setKey.
Qed.

(** X3: [parseCookies] reads back a browser cookie header
    [n1=v1; n2=v2; ...] of plain tokens (non-empty, without [;], [=], white
    space, and [%] in the values; no name [__proto__]): each name maps to the
    value of its last occurrence. *)
Theorem parseCookies_round_trip (decode : string -> option string)
    (Hdec : forall s, includesChar "%"%char s = false -> decode s = Some s)
    (kvs : list (string * string)) (Hall : Forall plainPair kvs) :
  exists m, parseCookies decode (joinCookies kvs) = Some m /\
            forall n, lookup n m = lastValue n kvs.
Proof.
  destruct kvs as [|p rest].
  - exists []. split; reflexivity.
  - pose proof Hall as Hall'. inversion Hall' as [|? ? Hp Hrest]; subst.
    pose proof (pieceOf_parts p Hp) as [_ [_ [Hne _]]].
    unfold parseCookies.
    destruct (String.eqb (joinCookies (p :: rest)) "") eqn:E.
    + exfalso. apply String.eqb_eq in E. cbn [joinCookies] in E.
      destruct (pieceOf p); [contradiction | discriminate].
    + rewrite (splitOn_join p rest Hall). cbn [fold_left].
      pose proof (cookieStep_piece decode Hdec p [] false Hp) as Hs.
      change (if false then ?a else ?b) with b in Hs. rewrite Hs.
      rewrite (fold_cookieStep decode Hdec rest _ Hrest).
      eexists. split; [reflexivity|]. intros n.
      change (fold_left (fun acc q => setCookie (fst q) (snd q) acc) rest
                (setCookie (fst p) (snd p) []))
        with (fold_left (fun acc q => setCookie (fst q) (snd q) acc) (p :: rest) []).
      rewrite (lookup_fold n (p :: rest) [] Hall). reflexivity.
Qed.

Definition decodePlain (s : string) : option string :=
  if includesChar "%"%char s then None else Some s.

Lemma parseCookies_round_trip_witness :
  (forall s, includesChar "%"%char s = false -> decodePlain s = Some s) /\
  Forall plainPair [("a", "1"); ("b", "2"); ("a", "3")] /\
  exists m, parseCookies decodePlain (joinCookies [("a", "1"); ("b", "2"); ("a", "3")]) = Some m /\
            forall n, lookup n m = lastValue n [("a", "1"); ("b", "2"); ("a", "3")].
Proof.
  assert (Hd : forall s, includesChar "%"%char s = false -> decodePlain s = Some s).
  { intros s H. unfold decodePlain. rewrite H. reflexivity. }
  assert (Hp : Forall plainPair [("a", "1"); ("b", "2"); ("a", "3")]).
  { repeat constructor; cbn; discriminate. }
  split; [exact Hd | split; [exact Hp|]].
  apply (parseCookies_round_trip decodePlain Hd _ Hp).
Defined.

Lemma splitOn_pieces (c : ascii) (s w : string) :
  In w (ApiRequest.splitOn c s) ->
  includesChar c w = false /\ (forall d, includesChar d w = true -> includesChar d s = true).
Proof.
  revert w. induction s as [|x s IH]; intros w Hw; cbn in Hw.
  - destruct Hw as [<- | []]. split; [reflexivity | intros d H; discriminate H].
  - destruct (Ascii.eqb x c) eqn:Ex.
    + destruct Hw as [<- | Hw].
      * split; [reflexivity | intros d H; discriminate H].
      * destruct (IH w Hw) as [H1 H2]. split; [exact H1|].
        intros d Hd. cbn. rewrite (H2 d Hd), orb_true_r. reflexivity.
    + destruct (ApiRequest.splitOn c s) as [|w' ws] eqn:Es.
      * destruct Hw as [<- | []]. cbn. rewrite Ascii.eqb_sym, Ex.
        split; [reflexivity|]. intros d Hd. cbn in Hd. rewrite orb_false_r in Hd.
        cbn. rewrite Hd. reflexivity.
      * destruct Hw as [<- | Hw].
        -- destruct (IH w' (or_introl eq_refl)) as [H1 H2]. cbn.
           rewrite Ascii.eqb_sym, Ex, H1. split; [reflexivity|].
           intros d Hd. cbn in Hd |- *. apply orb_true_iff in Hd as [Hd | Hd].
           ++ rewrite Hd. reflexivity.
           ++ rewrite (H2 d Hd), orb_true_r. reflexivity.
        -- destruct (IH w (or_intror Hw)) as [H1 H2]. split; [exact H1|].
           intros d Hd. cbn. rewrite (H2 d Hd), orb_true_r. reflexivity.
Qed.

Lemma includesChar_trimStart (d : ascii) (s : string) :
  includesChar d (trimStart s) = true -> includesChar d s = true.
Proof.
  induction s as [|x s IH]; cbn; [trivial|].
  destruct (PrefixConfig.isSpace x); intros H.
  - rewrite (IH H), orb_true_r. reflexivity.
  - exact H.
Qed.

Lemma includesChar_trimEnd (d : ascii) (s : string) :
  includesChar d (trimEnd s) = true -> includesChar d s = true.
Proof.
  induction s as [|x s IH]; cbn; [trivial|].
  destruct (String.eqb (trimEnd s) "" && PrefixConfig.isSpace x); intros H; [discriminate H|].
  cbn in H. apply orb_true_iff in H as [H | H]; [rewrite H; reflexivity|].
  rewrite (IH H), orb_true_r. reflexivity.
Qed.

Lemma nth_in_or_empty (l : list string) (i : nat) : nth i l "" = "" \/ In (nth i l "") l.
Proof.
  destruct (Nat.lt_ge_cases i (length l)) as [H | H].
  - right. apply nth_In, H.
  - left. apply nth_overflow, H.
Qed.

Lemma in_setKey (a b k v : string) (m : list (string * string)) :
  In (a, b) (Streaming.setKey k v m) -> (a, b) = (k, v) \/ In (a, b) m.
Proof.
  induction m as [|[k' v'] m IH]; cbn; [intros [H | []]; left; congruence|].
  destruct (String.eqb k k'); cbn; intros [H | H].
  - left. congruence.
  - right. right. exact H.
  - right. left. exact H.
  - destruct (IH H) as [H' | H']; [left; exact H' | right; right; exact H'].
Qed.

Lemma keys_setKey (k v : string) (m : list (string * string)) :
  NoDup (map fst m) -> NoDup (map fst (Streaming.setKey k v m)).
Proof.
  induction m as [|[k' v'] m IH]; cbn; intros H.
  - constructor; [intros [] | constructor].
  - inversion H as [|? ? Hn Hd]; subst.
    destruct (String.eqb k k') eqn:E; cbn.
    + apply String.eqb_eq in E. subst. constructor; assumption.
    + constructor; [|apply IH, Hd].
      intros Hin. apply in_map_iff in Hin as [[a b] [Ha Hin]]. cbn in Ha. subst a.
      apply in_setKey in Hin as [Heq | Hin].
      * injection Heq as -> _. rewrite String.eqb_refl in E. discriminate.
      * apply Hn. apply in_map_iff. exists (k', b). split; [reflexivity | exact Hin].
Qed.

(** What [parseCookies] stores for a name and a decoded value. *)
Definition storedEntry (decode : string -> option string) (k d : string) : Prop :=
  k <> "" /\ includesChar "="%char k = false /\ includesChar ";"%char k = false /\
  k <> "__proto__" /\
  exists v, v <> "" /\ includesChar "="%char v = false /\ includesChar ";"%char v = false /\
            decode v = Some d.

Definition cookieInv (decode : string -> option string) (m : list (string * string)) : Prop :=
  NoDup (map fst m) /\ forall k d, In (k, d) m -> storedEntry decode k d.

Lemma fold_cookieStep_none decode pieces :
  fold_left (cookieStep decode) pieces None = None.
Proof. induction pieces as [|p ps IH]; [reflexivity | exact IH]. Qed.

Lemma cookieStep_inv decode m piece m' :
  cookieInv decode m -> includesChar ";"%char piece = false ->
  cookieStep decode (Some m) piece = Some m' -> cookieInv decode m'.
Proof.
  intros [Hnd Hin] Hp. unfold cookieStep.
  set (parts := ApiRequest.splitOn "="%char (trim piece)).
  assert (Hpart : forall i, let w := nth i parts "" in
            includesChar "="%char w = false /\ includesChar ";"%char w = false).
  { intros i w. destruct (nth_in_or_empty parts i) as [He | Hi].
    - subst w. rewrite He. split; reflexivity.
    - destruct (splitOn_pieces _ _ _ Hi) as [H1 H2]. split; [exact H1|].
      destruct (includesChar ";"%char w) eqn:E; [|reflexivity].
      apply H2, includesChar_trimStart, includesChar_trimEnd in E. congruence. }
  destruct (negb (String.eqb (nth 0 parts "") "") && negb (String.eqb (nth 1 parts "") "")) eqn:Hc.
  2: { intros H; injection H as <-. split; assumption. }
  apply andb_prop in Hc as [Hk Hv]. apply negb_true_iff, String.eqb_neq in Hk, Hv.
  destruct (decode (nth 1 parts "")) as [d|] eqn:Ed; [|discriminate].
  intros H; injection H as <-. unfold setCookie.
  destruct (String.eqb (nth 0 parts "") "__proto__") eqn:Ep; [split; assumption|].
  apply String.eqb_neq in Ep.
  split; [apply keys_setKey, Hnd|].
  intros k d' Hkd. apply in_setKey in Hkd as [Heq | Hkd]; [|apply Hin, Hkd].
  injection Heq as -> ->. destruct (Hpart 0) as [H0a H0b]. destruct (Hpart 1) as [H1a H1b].
  split; [exact Hk | split; [exact H0a | split; [exact H0b | split; [exact Ep|]]]].
  exists (nth 1 parts ""). split; [exact Hv | split; [exact H1a | split; [exact H1b | exact Ed]]].
Qed.

(** X4: whatever the header and the decoder, the object [parseCookies]
    builds has distinct names, none empty, none containing [=] or [;], none
    [__proto__]; each value is the decoding of a non-empty piece without [=]
    or [;] (a value is cut at its first [=]). *)
Theorem parseCookies_invariant (decode : string -> option string) (header : string)
    (m : list (string * string)) (H : parseCookies decode header = Some m) :
  NoDup (map fst m) /\ forall k d, In (k, d) m -> storedEntry decode k d.
Proof.
  unfold parseCookies in H. destruct (String.eqb header "").
  - injection H as <-. split; [constructor | intros k d []].
  - assert (Hp : forall w, In w (ApiRequest.splitOn ";"%char header) -> includesChar ";"%char w = false)
      by (intros w Hw; apply (splitOn_pieces _ _ _ Hw)).
    assert (Hi : cookieInv decode []) by (split; [constructor | intros k d []]).
    revert H Hp Hi. generalize (ApiRequest.splitOn ";"%char header) as pieces.
    generalize (@nil (string * string)) as m0.
    intros m0 pieces. revert m0. induction pieces as [|p ps IH]; intros m0 H Hp Hi.
    + injection H as <-. exact Hi.
    + cbn [fold_left] in H. destruct (cookieStep decode (Some m0) p) as [m1|] eqn:E.
      * apply (IH m1 H); [intros w Hw; apply Hp; right; exact Hw|].
        apply (cookieStep_inv decode m0 p m1 Hi); [apply Hp; left; reflexivity | exact E].
      * rewrite fold_cookieStep_none in H. discriminate H.
Qed.

Lemma parseCookies_invariant_witness :
  parseCookies decodePlain "a=1=2; __proto__=x; b=; c=3" = Some [("a", "1"); ("c", "3")] /\
  (NoDup (map fst [("a", "1"); ("c", "3")]) /\
   forall k d, In (k, d) [("a", "1"); ("c", "3")] -> storedEntry decodePlain k d).
Proof.
  split; [vm_compute; reflexivity|].
  apply (parseCookies_invariant decodePlain "a=1=2; __proto__=x; b=; c=3").
  vm_compute. reflexivity.
Defined.

End CookiesFacts.

(** ** Buffered API responses ([handleApiRoute], lines 1754-1806, and
    [createMockResponse], lines 2276-2375) *)
Module ApiResponse.
Import Str.

(** The closure variables of [createMockResponse]. *)
Record mockState := {
  statusCode : nat;
  statusMessage : string;
  headers : list (string * string);
  responseBody : string;
  ended : bool;
  headersSent : bool
}.

Definition initState : mockState :=
  {| statusCode := 200; statusMessage := "OK"; headers := []; responseBody := "";
     ended := false; headersSent := false |}.

(** [ResponseData] *)
Record responseData := {
  rdStatusCode : nat;
  rdStatusMessage : string;
  rdHeaders : list (string * string);
  rdBody : string
}.

(** [headers[name] = value] on a plain object: an existing key keeps its
    place, and a string assigned to [__proto__] is ignored by the setter. *)
Definition assignKey (k v : string) (h : list (string * string)) : list (string * string) :=
  if String.eqb k "__proto__" then h else Streaming.setKey k v h.

Definition withStatus (n : nat) (r : mockState) : mockState :=
  {| statusCode := n; statusMessage := statusMessage r; headers := headers r;
     responseBody := responseBody r; ended := ended r; headersSent := headersSent r |}.

Definition withHeader (k v : string) (r : mockState) : mockState :=
  {| statusCode := statusCode r; statusMessage := statusMessage r;
     headers := assignKey k v (headers r);
     responseBody := responseBody r; ended := ended r; headersSent := headersSent r |}.

Definition withBody (b : string) (r : mockState) : mockState :=
  {| statusCode := statusCode r; statusMessage := statusMessage r; headers := headers r;
     responseBody := b; ended := ended r; headersSent := headersSent r |}.

(** [markEnded] (resolving [endedPromise] has no effect on the state). *)
Definition markEnded (r : mockState) : mockState :=
  {| statusCode := statusCode r; statusMessage := statusMessage r; headers := headers r;
     responseBody := responseBody r; ended := true; headersSent := headersSent r |}.

(** One method call on the mock [res]; the payloads of [write], [send]
    and [end] are strings ([Buffer] chunks as their [toString()]), and
    [json(data)] and [send(object)] carry [JSON.stringify(data)]. *)
Definition step (r : mockState) (c : Streaming.call) : mockState :=
  match c with
  | Streaming.Status n => withStatus n r
  | Streaming.SetHeader k v => withHeader k v r
  | Streaming.Write s =>
      {| statusCode := statusCode r; statusMessage := statusMessage r; headers := headers r;
         responseBody := responseBody r ++ s; ended := ended r; headersSent := true |}
  | Streaming.JsonCall j | Streaming.SendObject j =>
      markEnded (withBody j (withHeader "Content-Type" Streaming.jsonCT r))
  | Streaming.SendString s => markEnded (withBody s r)
  | Streaming.EndCall d =>
      match d with
      | Some s => if String.eqb s "" then markEnded r
                  else markEnded (withBody (responseBody r ++ s) r)
      | None => markEnded r
      end
  | Streaming.RedirectStatus n u =>
      markEnded (withHeader "Location"
                   (match u with Some s => if String.eqb s "" then "/" else s | None => "/" end)
                   (withStatus n r))
  | Streaming.RedirectUrl u => markEnded (withHeader "Location" u (withStatus 307 r))
  end.

Definition runCalls (cs : list Streaming.call) (r : mockState) : mockState :=
  fold_left step cs r.

(** [Buffer.from(s).length]: the UTF-8 length of [s], whose characters
    are the code points 0-255. *)
Fixpoint utf8Length (s : string) : nat :=
  match s with
  | String c s' => (if Nat.ltb (nat_of_ascii c) 128 then 1 else 2) + utf8Length s'
  | EmptyString => 0
  end.

(** [String(n)] on a natural number. *)
Definition decimal (n : nat) : string :=
  DecimalString.NilZero.string_of_uint (Nat.to_uint n).

(** [toResponse] *)
Definition toResponse (r : mockState) : responseData :=
  {| rdStatusCode := statusCode r; rdStatusMessage := statusMessage r;
     rdHeaders := assignKey "Content-Length" (decimal (utf8Length (responseBody r))) (headers r);
     rdBody := responseBody r |}.

(** The [catch] block of [handleApiRoute]. *)
Definition errorResponse (msg : string) : responseData :=
  {| rdStatusCode := 500; rdStatusMessage := "Internal Server Error";
     rdHeaders := [("Content-Type", Streaming.jsonCT)];
     rdBody := Json.obj [("error", msg)] |}.

(** [handleApiRoute] on a [pathname] that starts with [/api/] (its only
    caller, [handleRequest], checks it); [run file] is what the handler
    module in [file] does with [res] before [res.waitForEnd()] or the 30 s
    timeout settles, and how its execution (read, transform, evaluation,
    the awaited handler) finishes. *)
Definition handleApiRoute (pagesDir : string) (fexists : string -> bool)
    (run : string -> list Streaming.call * Streaming.outcome) (pathname : string) : responseData :=
  match Streaming.resolveApiFile pagesDir fexists pathname with
  | None =>
      {| rdStatusCode := 404; rdStatusMessage := "Not Found";
         rdHeaders := [("Content-Type", Streaming.jsonCT)];
         rdBody := Json.obj [("error", "API route not found")] |}
  | Some file =>
      let '(cs, out) := run file in
      match out with
      | Streaming.Throws msg => errorResponse msg
      | Streaming.Returns =>
          let r := runCalls cs initState in
          if ended r then toResponse r else errorResponse "API handler timeout"
      end
  end.

End ApiResponse.

Module ApiResponseFacts.
Import Str ApiResponse.

(** The calls that end the response: [json], [send], [end], [redirect]. *)
Definition endsResponse (c : Streaming.call) : bool :=
  match c with
  | Streaming.Status _ | Streaming.SetHeader _ _ | Streaming.Write _ => false
  | _ => true
  end.

(** The body set by the calls that replace it: [json] and [send]. *)
Definition replacement (c : Streaming.call) : option string :=
  match c with
  | Streaming.JsonCall j | Streaming.SendObject j | Streaming.SendString j => Some j
  | _ => None
  end.

(** What a call appends to the body: [write(chunk)] and [end(data)]. *)
Definition appended (c : Streaming.call) : string :=
  match c with
  | Streaming.Write s => s
  | Streaming.EndCall (Some s) => s
  | _ => ""
  end.

Fixpoint appendedAll (cs : list Streaming.call) : string :=
  match cs with
  | [] => ""
  | c :: cs' => appended c ++ appendedAll cs'
  end.

Lemma ended_step (r : mockState) (c : Streaming.call) :
  ended (step r c) = ended r || endsResponse c.
Proof.
  destruct c as [n|k v|s|j|s|j|[d|]|n u|u]; cbn;
    try (rewrite orb_true_r; reflexivity); try (rewrite orb_false_r; reflexivity).
  destruct (String.eqb d ""); rewrite orb_true_r; reflexivity.
Qed.

Lemma ended_runCalls (cs : list Streaming.call) (r : mockState) :
  ended (runCalls cs r) = ended r || existsb endsResponse cs.
Proof.
  unfold runCalls. revert r. induction cs as [|c cs IH]; intros r; cbn.
  - rewrite orb_false_r. reflexivity.
  - rewrite IH, ended_step, orb_assoc. reflexivity.
Qed.

Lemma assignKey_nodup (k v : string) (h : list (string * string)) :
  NoDup (map fst h) -> NoDup (map fst (assignKey k v h)).
Proof.
  unfold assignKey. destruct (String.eqb k "__proto__"); [trivial|].
  apply CookiesFacts.keys_setKey.
Qed.

Lemma nodup_step (r : mockState) (c : Streaming.call) :
  NoDup (map fst (headers r)) -> NoDup (map fst (headers (step r c))).
Proof.
  intros H.
  destruct c as [n|k v|s|j|s|j|[d|]|n u|u]; cbn;
    try (destruct (String.eqb d "")); try (destruct (String.eqb k "__proto__"));
    try exact H; first [apply assignKey_nodup, H | apply CookiesFacts.keys_setKey, H].
Qed.

Lemma nodup_runCalls (cs : list Streaming.call) (r : mockState) :
  NoDup (map fst (headers r)) -> NoDup (map fst (headers (runCalls cs r))).
Proof.
  unfold runCalls. revert r. induction cs as [|c cs IH]; intros r H; cbn; [exact H|].
  apply IH, nodup_step, H.
Qed.

Lemma body_keep (r : mockState) (cs : list Streaming.call) :
  Forall (fun c => replacement c = None) cs ->
  responseBody (runCalls cs r) = responseBody r ++ appendedAll cs.
Proof.
  unfold runCalls. revert r. induction cs as [|c cs IH]; intros r Hf; cbn.
  - symmetry. apply StrFacts.append_nil.
  - inversion Hf as [|? ? Hc Hcs]; subst. rewrite (IH _ Hcs).
    rewrite <- StrFacts.append_assoc. f_equal.
    destruct c as [n|k v|s|j|s|j|[d|]|n u|u]; cbn in Hc |- *; try discriminate;
      try (symmetry; apply StrFacts.append_nil); try reflexivity.
    destruct (String.eqb d "") eqn:E; cbn; [|reflexivity].
    apply String.eqb_eq in E. subst d. symmetry. apply StrFacts.append_nil.
Qed.

Lemma step_replacement (r : mockState) (c : Streaming.call) (b : string) :
  replacement c = Some b -> responseBody (step r c) = b.
Proof.
  destruct c; cbn; intros H; try discriminate H; injection H as <-; reflexivity.
Qed.

Lemma handleApiRoute_found pagesDir fexists run pathname file cs out :
  Streaming.resolveApiFile pagesDir fexists pathname = Some file -> run file = (cs, out) ->
  handleApiRoute pagesDir fexists run pathname =
  match out with
  | Streaming.Throws msg => errorResponse msg
  | Streaming.Returns =>
      if existsb endsResponse cs then toResponse (runCalls cs initState)
      else errorResponse "API handler timeout"
  end.
Proof.
  intros Hf Hr. unfold handleApiRoute. rewrite Hf, Hr.
  destruct out; [|reflexivity]. rewrite ended_runCalls. reflexivity.
Qed.

(** X5: when the API file exists, [handleApiRoute] answers with the
    handler's own response exactly when the handler returned and called
    [json], [send], [end] or [redirect]; a handler that throws gives a 500
    with [{error: message}] whatever it had already sent, and one that ended
    nothing gives the 500 [API handler timeout]. *)
Theorem handleApiRoute_outcome (pagesDir : string) (fexists : string -> bool)
    (run : string -> list Streaming.call * Streaming.outcome) (pathname file : string)
    (cs : list Streaming.call) (out : Streaming.outcome)
    (Hf : Streaming.resolveApiFile pagesDir fexists pathname = Some file)
    (Hr : run file = (cs, out)) :
  handleApiRoute pagesDir fexists run pathname =
  match out with
  | Streaming.Throws msg => errorResponse msg
  | Streaming.Returns =>
      if existsb endsResponse cs then toResponse (runCalls cs initState)
      else errorResponse "API handler timeout"
  end.
Proof. exact (handleApiRoute_found pagesDir fexists run pathname file cs out Hf Hr). Qed.

Definition helloFs (p : string) : bool := String.eqb p "/pages/api/hello.js".

Lemma handleApiRoute_outcome_witness :
  Streaming.resolveApiFile "/pages" helloFs "/api/hello" = Some "/pages/api/hello.js" /\
  handleApiRoute "/pages" helloFs
    (fun _ => ([Streaming.Status 201; Streaming.JsonCall "{}"], Streaming.Throws "boom"))
    "/api/hello" = errorResponse "boom".
Proof.
  split; [reflexivity|].
  apply (handleApiRoute_outcome "/pages" helloFs
           (fun _ => ([Streaming.Status 201; Streaming.JsonCall "{}"], Streaming.Throws "boom"))
           "/api/hello" "/pages/api/hello.js"
           [Streaming.Status 201; Streaming.JsonCall "{}"] (Streaming.Throws "boom"));
    reflexivity.
Defined.

(** X6: a response served from an API handler has distinct header names,
    and its [Content-Length] is the UTF-8 byte length of its body, whatever
    [Content-Length] the handler set itself. *)
Theorem handleApiRoute_content_length (pagesDir : string) (fexists : string -> bool)
    (run : string -> list Streaming.call * Streaming.outcome) (pathname file : string)
    (cs : list Streaming.call)
    (Hf : Streaming.resolveApiFile pagesDir fexists pathname = Some file)
    (Hr : run file = (cs, Streaming.Returns))
    (He : existsb endsResponse cs = true) :
  Cookies.lookup "Content-Length" (rdHeaders (handleApiRoute pagesDir fexists run pathname))
    = Some (decimal (utf8Length (rdBody (handleApiRoute pagesDir fexists run pathname)))) /\
  NoDup (map fst (rdHeaders (handleApiRoute pagesDir fexists run pathname))).
Proof.
  rewrite (handleApiRoute_found pagesDir fexists run pathname file cs _ Hf Hr), He.
  cbn [toResponse rdHeaders rdBody]. split.
  - unfold assignKey. cbn [String.eqb Ascii.eqb Bool.eqb andb].
    rewrite CookiesFacts.lookup_setKey, String.eqb_refl. reflexivity.
  - apply assignKey_nodup, nodup_runCalls. constructor.
Qed.

(** [h] followed by the code point 233. *)
Definition accented : string := String "h"%char (String (ascii_of_nat 233) EmptyString).

Lemma handleApiRoute_content_length_witness :
  (Streaming.resolveApiFile "/pages" helloFs "/api/hello" = Some "/pages/api/hello.js" /\
   existsb endsResponse [Streaming.SetHeader "Content-Length" "999"; Streaming.SendString accented]
     = true) /\
  (Cookies.lookup "Content-Length"
     (rdHeaders (handleApiRoute "/pages" helloFs
        (fun _ => ([Streaming.SetHeader "Content-Length" "999"; Streaming.SendString accented],
                   Streaming.Returns)) "/api/hello"))
   = Some (decimal (utf8Length (rdBody (handleApiRoute "/pages" helloFs
        (fun _ => ([Streaming.SetHeader "Content-Length" "999"; Streaming.SendString accented],
                   Streaming.Returns)) "/api/hello")))) /\
   NoDup (map fst (rdHeaders (handleApiRoute "/pages" helloFs
        (fun _ => ([Streaming.SetHeader "Content-Length" "999"; Streaming.SendString accented],
                   Streaming.Returns)) "/api/hello")))).
Proof.
  split; [split; reflexivity|].
  apply (handleApiRoute_content_length "/pages" helloFs
           (fun _ => ([Streaming.SetHeader "Content-Length" "999"; Streaming.SendString accented],
                      Streaming.Returns)) "/api/hello" "/pages/api/hello.js"
           [Streaming.SetHeader "Content-Length" "999"; Streaming.SendString accented]);
    reflexivity.
Defined.

(** X7: [res.json(data)] and [res.send(data)] replace the body, and the
    [write(chunk)] and [end(data)] calls that follow are appended to it,
    although the response has already ended. *)
Theorem body_after_replacement (pre rest : list Streaming.call) (c : Streaming.call)
    (b : string) (r : mockState)
    (Hc : replacement c = Some b)
    (Hrest : Forall (fun c => replacement c = None) rest) :
  responseBody (runCalls (pre ++ c :: rest) r) = b ++ appendedAll rest.
Proof.
  unfold runCalls. rewrite fold_left_app. cbn [fold_left].
  change (fold_left step rest (step (fold_left step pre r) c))
    with (runCalls rest (step (fold_left step pre r) c)).
  rewrite (body_keep _ _ Hrest), (step_replacement _ _ _ Hc). reflexivity.
Qed.

Lemma body_after_replacement_witness :
  (replacement (Streaming.JsonCall "{}") = Some "{}" /\
   Forall (fun c => replacement c = None) [Streaming.Write "more"; Streaming.EndCall (Some "!")]) /\
  responseBody (runCalls ([Streaming.Write "x"] ++
                          Streaming.JsonCall "{}" :: [Streaming.Write "more"; Streaming.EndCall (Some "!")])
                         initState)
  = "{}" ++ appendedAll [Streaming.Write "more"; Streaming.EndCall (Some "!")].
Proof.
  split; [split; [reflexivity | repeat constructor]|].
  apply (body_after_replacement [Streaming.Write "x"]
           [Streaming.Write "more"; Streaming.EndCall (Some "!")] (Streaming.JsonCall "{}")
           "{}" initState); [reflexivity | repeat constructor].
Defined.

End ApiResponseFacts.


(** ** App Router route handlers ([resolveAppRouteHandler] and
    [resolveAppRouteHandlerDynamic], lines 1811-1905), over the VFS of
    [AppRouter] *)
Module RouteHandlerResolve.
Import Str AppRouter.

Definition routeExtensions : list string := [".ts"; ".js"; ".tsx"; ".jsx"].

(** [entry.startsWith('[') && entry.endsWith(']') && !entry.includes('.')] *)
Definition isDynamicSegment (e : string) : bool :=
  startsWith e "[" && endsWith e "]" && negb (includesChar "."%char e).

(** [entry.startsWith('[...') && entry.endsWith(']')] *)
Definition isCatchAllSegment (e : string) : bool :=
  startsWith e "[..." && endsWith e "]".

Section Resolver.
Variable fs : vfs.
Variable appDir : path.

(** The loop over [extensions] testing [`${dirPath}/route${ext}`]. *)
Definition findRoute (dir : path) : option path :=
  match find (fun ext => existsSync fs (app dir ["route" ++ ext])) routeExtensions with
  | Some ext => Some (app dir ["route" ++ ext])
  | None => None
  end.

(** [tryPath(dirPath, [])]: the route file, else one in a route group of
    [dirPath]. A [readdirSync] that throws lists nothing here. *)
Definition tryRouteEmpty (dir : path) : option path :=
  orElse (findRoute dir)
    (firstSome (fun e => if isRouteGroup e && isDirectory fs (app dir [e])
                         then findRoute (app dir [e]) else None)
       (readdirSync fs dir)).

(** [tryPath(dirPath, remainingSegments)] *)
Fixpoint tryRoutePath (dir : path) (segs : list string) {struct segs} : option path :=
  match segs with
  | [] => tryRouteEmpty dir
  | current :: rest =>
      orElse
        (let exact := app dir [current] in
         if isDirectory fs exact then tryRoutePath exact rest else None)
        (firstSome (fun e =>
           orElse
             (if isRouteGroup e && isDirectory fs (app dir [e]) then
                let ge := app (app dir [e]) [current] in
                if isDirectory fs ge then tryRoutePath ge rest else None
              else None)
           (orElse
             (if isDynamicSegment e then
                let dp := app dir [e] in
                if isDirectory fs dp then tryRoutePath dp rest else None
              else None)
             (if isCatchAllSegment e then
                let dp := app dir [e] in
                if isDirectory fs dp then tryRouteEmpty dp else None
              else None)))
         (readdirSync fs dir))
  end.

Definition resolveAppRouteHandlerDynamic (segments : list string) : option path :=
  tryRoutePath appDir segments.

End Resolver.

(** [resolveAppRouteHandler(pathname)]: the route file of the directory
    spelled by the segments, else the dynamic walk. *)
Definition resolveAppRouteHandler (fs : vfs) (appDir : path) (pathname : string) : option path :=
  let segments := segmentsOf pathname in
  orElse (findRoute fs (app appDir segments)) (resolveAppRouteHandlerDynamic fs appDir segments).

End RouteHandlerResolve.

Module RouteHandlerResolveFacts.
Import Str AppRouter AppRouterFacts RouteHandlerResolve.

(** How the directories between the app directory and a route file spell
    the URL segments in the walk of [resolveAppRouteHandler]: a directory
    named like a segment consumes it; a route group consumes the segment of
    the directory right below it, or nothing when it holds the route file;
    a [[name]] directory without a dot consumes one segment; a directory
    starting with [[...] consumes one segment or more, and holds the route
    file, directly or in a route group. *)
Inductive rhMatch : list string -> list string -> Prop :=
| rh_nil : rhMatch [] []
| rh_group_end g : isRouteGroup g = true -> rhMatch [g] []
| rh_exact c ds rest : rhMatch ds rest -> rhMatch (c :: ds) (c :: rest)
| rh_group g c ds rest :
    isRouteGroup g = true -> rhMatch ds rest -> rhMatch (g :: c :: ds) (c :: rest)
| rh_single e s ds rest :
    isDynamicSegment e = true -> rhMatch ds rest -> rhMatch (e :: ds) (s :: rest)
| rh_catch e s ds rest :
    isCatchAllSegment e = true -> rhMatch ds [] -> rhMatch (e :: ds) (s :: rest).

(** A route file found from [d]. *)
Definition routeFrom (fs : vfs) (d : path) (segs : list string) (f : path) : Prop :=
  exists ds ext, f = app (app d ds) ["route" ++ ext] /\ In ext routeExtensions /\
                 existsSync fs f = true /\ rhMatch ds segs.

Lemma rhMatch_refl (segs : list string) : rhMatch segs segs.
Proof. induction segs; constructor; assumption. Qed.

Lemma findRoute_some fs d f :
  findRoute fs d = Some f ->
  exists ext, f = app d ["route" ++ ext] /\ In ext routeExtensions /\ existsSync fs f = true.
Proof.
  unfold findRoute. destruct (find _ routeExtensions) as [ext|] eqn:E; [|discriminate].
  intros H; injection H as <-. apply find_some in E as [Hin He].
  exists ext. split; [reflexivity | split; assumption].
Qed.

Lemma routeFrom_here fs d f : findRoute fs d = Some f -> routeFrom fs d [] f.
Proof.
  intros H. destruct (findRoute_some _ _ _ H) as [ext [-> [Hi He]]].
  exists [], ext. rewrite app_nil_r. repeat split; try assumption. constructor.
Qed.

Lemma routeFrom_ext fs d es segs segs' f :
  routeFrom fs (app d es) segs' f ->
  (forall ds, rhMatch ds segs' -> rhMatch (app es ds) segs) ->
  routeFrom fs d segs f.
Proof.
  intros [ds [ext [Hf [Hi [He Hm]]]]] Hs. exists (app es ds), ext.
  rewrite app_assoc. exact (conj Hf (conj Hi (conj He (Hs _ Hm)))).
Qed.

Lemma tryRouteEmpty_sound fs d f :
  tryRouteEmpty fs d = Some f -> routeFrom fs d [] f.
Proof.
  unfold tryRouteEmpty. intros H. apply orElse_some in H as [H | H].
  - apply routeFrom_here, H.
  - apply firstSome_some in H as [g [_ H]].
    destruct (isRouteGroup g) eqn:Eg; [|discriminate]. cbn in H.
    destruct (isDirectory fs (app d [g])); [|discriminate].
    destruct (findRoute_some _ _ _ H) as [ext [-> [Hi He]]].
    exists [g], ext. repeat split; try assumption. apply rh_group_end, Eg.
Qed.

Lemma tryRoutePath_sound fs segs : forall d f,
  tryRoutePath fs d segs = Some f -> routeFrom fs d segs f.
Proof.
  induction segs as [|c rest IH]; intros d f H; cbn in H.
  - apply tryRouteEmpty_sound, H.
  - apply orElse_some in H as [H | H].
    + destruct (isDirectory fs (app d [c])); [|discriminate].
      apply (routeFrom_ext _ _ [c] _ _ _ (IH _ _ H)). intros ds Hm. apply rh_exact, Hm.
    + apply firstSome_some in H as [e [_ H]].
      apply orElse_some in H as [H | H]; [|apply orElse_some in H as [H | H]].
      * destruct (isRouteGroup e) eqn:Eg; [|discriminate]. cbn in H.
        destruct (isDirectory fs (app d [e])); [|discriminate].
        destruct (isDirectory fs (app (app d [e]) [c])); [|discriminate].
        rewrite <- app_assoc in H.
        apply (routeFrom_ext _ _ [e; c] _ _ _ (IH _ _ H)). intros ds Hm. apply rh_group; assumption.
      * destruct (isDynamicSegment e) eqn:Ed; [|discriminate].
        destruct (isDirectory fs (app d [e])); [|discriminate].
        apply (routeFrom_ext _ _ [e] _ _ _ (IH _ _ H)). intros ds Hm. apply rh_single; assumption.
      * destruct (isCatchAllSegment e) eqn:Ec; [|discriminate].
        destruct (isDirectory fs (app d [e])); [|discriminate].
        apply (routeFrom_ext _ _ [e] _ _ _ (tryRouteEmpty_sound _ _ _ H)).
        intros ds Hm. apply rh_catch; assumption.
Qed.

Lemma resolveAppRouteHandler_routeFrom fs appDir pathname f :
  resolveAppRouteHandler fs appDir pathname = Some f ->
  routeFrom fs appDir (segmentsOf pathname) f.
Proof.
  unfold resolveAppRouteHandler, resolveAppRouteHandlerDynamic. intros H.
  apply orElse_some in H as [H | H].
  - destruct (findRoute_some _ _ _ H) as [ext [-> [Hi He]]].
    exists (segmentsOf pathname), ext. repeat split; try assumption. apply rhMatch_refl.
  - apply tryRoutePath_sound, H.
Qed.

(** X8: a file that [resolveAppRouteHandler] returns is an existing
    [route] file with one of the extensions [.ts], [.js], [.tsx], [.jsx], in
    a directory below the app directory whose names spell the URL segments
    as [rhMatch] says. *)
Theorem resolveAppRouteHandler_sound (fs : vfs) (appDir : path) (pathname : string) (f : path)
    (H : resolveAppRouteHandler fs appDir pathname = Some f) :
  exists ds ext, f = app (app appDir ds) ["route" ++ ext] /\ In ext routeExtensions /\
                 existsSync fs f = true /\ rhMatch ds (segmentsOf pathname).
Proof. exact (resolveAppRouteHandler_routeFrom fs appDir pathname f H). Qed.

Definition itemFs : vfs :=
  [(["app"], true); (["app"; "items"], true); (["app"; "items"; "[id]"], true);
   (["app"; "items"; "[id]"; "route.ts"], false)].

Lemma resolveAppRouteHandler_sound_witness :
  resolveAppRouteHandler itemFs ["app"] "/items/42" = Some ["app"; "items"; "[id]"; "route.ts"] /\
  exists ds ext, ["app"; "items"; "[id]"; "route.ts"] = app (app ["app"] ds) ["route" ++ ext] /\
    In ext routeExtensions /\ existsSync itemFs ["app"; "items"; "[id]"; "route.ts"] = true /\
    rhMatch ds (segmentsOf "/items/42").
Proof.
  split; [vm_compute; reflexivity|].
  apply (resolveAppRouteHandler_sound itemFs ["app"] "/items/42"). vm_compute. reflexivity.
Defined.

(** X9: for the pathname [/], [resolveAppRouteHandler] returns only the
    [route] file of the app directory itself or of a route group directly
    inside it: an optional catch-all such as [app/[[...slug]]/route.ts]
    never handles [/]. *)
Theorem resolveAppRouteHandler_root (fs : vfs) (appDir : path) (f : path)
    (H : resolveAppRouteHandler fs appDir "/" = Some f) :
  exists ext, In ext routeExtensions /\
    (f = app appDir ["route" ++ ext] \/
     exists g, isRouteGroup g = true /\ f = app appDir [g; "route" ++ ext]).
Proof.
  destruct (resolveAppRouteHandler_routeFrom _ _ _ _ H) as [ds [ext [-> [Hi [_ Hm]]]]].
  exists ext. split; [exact Hi|]. cbn in Hm. inversion Hm; subst.
  - left. rewrite app_nil_r. reflexivity.
  - right. exists g. split; [assumption|]. rewrite <- app_assoc. reflexivity.
Qed.

Definition rootRouteFs : vfs :=
  [(["app"], true); (["app"; "[[...slug]]"], true); (["app"; "[[...slug]]"; "route.ts"], false);
   (["app"; "(api)"], true); (["app"; "(api)"; "route.js"], false)].

Lemma resolveAppRouteHandler_root_witness :
  resolveAppRouteHandler rootRouteFs ["app"] "/" = Some ["app"; "(api)"; "route.js"] /\
  exists ext, In ext routeExtensions /\
    (["app"; "(api)"; "route.js"] = app ["app"] ["route" ++ ext] \/
     exists g, isRouteGroup g = true /\ ["app"; "(api)"; "route.js"] = app ["app"] [g; "route" ++ ext]).
Proof.
  split; [vm_compute; reflexivity|].
  apply (resolveAppRouteHandler_root rootRouteFs ["app"]). vm_compute. reflexivity.
Defined.

End RouteHandlerResolveFacts.

(** ** Pages Router page resolution ([resolvePageFile] and
    [resolveDynamicRoute], lines 3177-3290) *)
Module PagesRouter.
Import Str.

Definition pageExtensions : list string := [".jsx"; ".tsx"; ".js"; ".ts"].

(** [s.replace(pat, rep)] with a string pattern: the first occurrence only. *)
Fixpoint replaceFirst (pat rep s : string) : string :=
  if String.prefix pat s then rep ++ drop (String.length pat) s
  else match s with
       | String c s' => String c (replaceFirst pat rep s')
       | EmptyString => s
       end.

(** [/^\[([^\]]+)\]$/.test(s)] *)
Definition isBracketName (s : string) : bool :=
  match list_ascii_of_string s with
  | c :: rest =>
      Ascii.eqb c "["%char
      && match rev rest with
         | c' :: mid => Ascii.eqb c' "]"%char && negb (Nat.eqb (length mid) 0)
                        && negb (existsb (Ascii.eqb "]"%char) mid)
         | [] => false
         end
  | [] => false
  end.

Section Resolver.
(** Modelled from the spec: the consumed VFS interface ([existsSync],
    [isDirectorySync], [readdirSync], section 6) as arbitrary functions on
    path strings; a [readdirSync] that throws lists nothing. *)
Variable pagesDir : string.
Variable fexists : string -> bool.
Variable isDir : string -> bool.
Variable readdir : string -> list string.

(** A loop [for (const ext of extensions) if (exists(mk(ext))) return mk(ext)]. *)
Definition findWith (mk : string -> string) : option string :=
  match find (fun ext => fexists (mk ext)) pageExtensions with
  | Some ext => Some (mk ext)
  | None => None
  end.

(** [tryPath(dirPath, remainingSegments)] of [resolveDynamicRoute]. *)
Fixpoint tryPagePath (dir : string) (segs : list string) {struct segs} : option string :=
  match segs with
  | [] => findWith (fun ext => dir ++ "/index" ++ ext)
  | current :: rest =>
      let exact := dir ++ "/" ++ current in
      AppRouter.orElse
        (match rest with [] => findWith (fun ext => exact ++ ext) | _ :: _ => None end)
      (AppRouter.orElse
        (if isDir exact then tryPagePath exact rest else None)
        (AppRouter.firstSome (fun entry =>
           let filePath := dir ++ "/" ++ entry in
           AppRouter.orElse
             (AppRouter.firstSome (fun ext =>
                if endsWith entry ext && isBracketName (replaceFirst ext "" entry) then
                  match rest with
                  | [] => if fexists filePath then Some filePath else None
                  | _ :: _ => None
                  end
                else None) pageExtensions)
           (AppRouter.orElse
             (if RouteHandlerResolve.isDynamicSegment entry then
                if isDir filePath then tryPagePath filePath rest else None
              else None)
             (AppRouter.firstSome (fun ext =>
                if startsWith entry "[..." && endsWith entry ("]" ++ ext) then
                  if fexists filePath then Some filePath else None
                else None) pageExtensions)))
         (readdir dir)))
  end.

Definition resolveDynamicRoute (pathname : string) : option string :=
  match filter (fun s => negb (String.eqb s "")) (ApiRequest.splitOn "/"%char pathname) with
  | [] => None
  | segments => tryPagePath pagesDir segments
  end.

Definition resolvePageFile (pathname : string) : option string :=
  let pathname := if String.eqb pathname "/" then "/index" else pathname in
  AppRouter.orElse (findWith (fun ext => pagesDir ++ pathname ++ ext))
    (AppRouter.orElse (findWith (fun ext => pagesDir ++ pathname ++ "/index" ++ ext))
       (resolveDynamicRoute pathname)).

End Resolver.
End PagesRouter.

Module PagesRouterFacts.
Import Str StrFacts PagesRouter.

(** [`${dir}/${c1}/${c2}...`] *)
Definition joinPath (dir : string) (comps : list string) : string :=
  fold_left (fun d c => d ++ "/" ++ c) comps dir.

(** How the path components below the pages directory spell the URL
    segments in the walk of [resolveDynamicRoute]: [index.ext] for no
    segment; [c.ext] or a directory [c] for a segment [c]; a file whose name
    minus its extension is [[name]] for the last segment; a directory
    [[name]] without a dot for one segment; a file [[...name].ext] for one
    segment or more. *)
Inductive pgMatch : list string -> list string -> Prop :=
| pg_index ext : In ext pageExtensions -> pgMatch ["index" ++ ext] []
| pg_file c ext : In ext pageExtensions -> pgMatch [c ++ ext] [c]
| pg_dir c ds rest : pgMatch ds rest -> pgMatch (c :: ds) (c :: rest)
| pg_dynfile e ext s :
    In ext pageExtensions -> endsWith e ext = true ->
    isBracketName (replaceFirst ext "" e) = true -> pgMatch [e] [s]
| pg_dyndir e s ds rest :
    RouteHandlerResolve.isDynamicSegment e = true -> pgMatch ds rest -> pgMatch (e :: ds) (s :: rest)
| pg_catchall e ext s rest :
    In ext pageExtensions -> startsWith e "[..." = true -> endsWith e ("]" ++ ext) = true ->
    pgMatch [e] (s :: rest).

Section Facts.
Variable pagesDir : string.
Variable fexists : string -> bool.
Variable isDir : string -> bool.
Variable readdir : string -> list string.

Lemma findWith_some mk f :
  findWith fexists mk = Some f -> exists ext, In ext pageExtensions /\ f = mk ext /\ fexists f = true.
Proof.
  unfold findWith. destruct (find _ pageExtensions) as [ext|] eqn:E; [|discriminate].
  intros H; injection H as <-. apply find_some in E as [Hi He]. exists ext. auto.
Qed.

Lemma findWith_none mk :
  (forall ext, fexists (mk ext) = false) -> findWith fexists mk = None.
Proof.
  intros H. unfold findWith.
  destruct (find _ pageExtensions) as [ext|] eqn:E; [|reflexivity].
  apply find_some in E as [_ He]. rewrite H in He. discriminate.
Qed.

Lemma tryPagePath_sound segs : forall dir f,
  tryPagePath fexists isDir readdir dir segs = Some f ->
  fexists f = true /\ exists comps, f = joinPath dir comps /\ pgMatch comps segs.
Proof.
  induction segs as [|c rest IH]; intros dir f H; cbn [tryPagePath] in H.
  - destruct (findWith_some _ _ H) as [ext [Hi [-> He]]]. split; [exact He|].
    exists ["index" ++ ext]. split; [reflexivity | apply pg_index, Hi].
  - apply AppRouterFacts.orElse_some in H as [H | H].
    { destruct rest; [|discriminate].
      destruct (findWith_some _ _ H) as [ext [Hi [-> He]]]. split; [exact He|].
      exists [c ++ ext]. split; [|apply pg_file, Hi]. cbn. rewrite !append_assoc. reflexivity. }
    apply AppRouterFacts.orElse_some in H as [H | H].
    { destruct (isDir (dir ++ "/" ++ c)); [|discriminate].
      destruct (IH _ _ H) as [He [comps [-> Hm]]]. split; [exact He|].
      exists (c :: comps). split; [reflexivity | apply pg_dir, Hm]. }
    apply AppRouterFacts.firstSome_some in H as [e [_ H]].
    apply AppRouterFacts.orElse_some in H as [H | H]; [|apply AppRouterFacts.orElse_some in H as [H | H]].
    + apply AppRouterFacts.firstSome_some in H as [ext [Hi H]].
      destruct (endsWith e ext) eqn:E1; [|discriminate].
      destruct (isBracketName (replaceFirst ext "" e)) eqn:E2; [|discriminate].
      destruct rest; [|discriminate].
      destruct (fexists (dir ++ "/" ++ e)) eqn:Ef; [|discriminate].
      injection H as <-. split; [exact Ef|].
      exists [e]. split; [reflexivity | apply (pg_dynfile e ext); assumption].
    + destruct (RouteHandlerResolve.isDynamicSegment e) eqn:Ed; [|discriminate].
      destruct (isDir (dir ++ "/" ++ e)); [|discriminate].
      destruct (IH _ _ H) as [He [comps [-> Hm]]]. split; [exact He|].
      exists (e :: comps). split; [reflexivity | apply pg_dyndir; assumption].
    + apply AppRouterFacts.firstSome_some in H as [ext [Hi H]].
      destruct (startsWith e "[...") eqn:E1; [|discriminate].
      destruct (endsWith e ("]" ++ ext)) eqn:E2; [|discriminate].
      destruct (fexists (dir ++ "/" ++ e)) eqn:Ef; [|discriminate].
      injection H as <-. split; [exact Ef|].
      exists [e]. split; [reflexivity | apply (pg_catchall e ext); assumption].
Qed.

Lemma resolvePageFile_cases pathname f :
  resolvePageFile pagesDir fexists isDir readdir pathname = Some f ->
  let p := if String.eqb pathname "/" then "/index" else pathname in
  fexists f = true /\
  ((exists ext, In ext pageExtensions /\
     (f = pagesDir ++ p ++ ext \/ f = pagesDir ++ p ++ "/index" ++ ext)) \/
   exists comps, f = joinPath pagesDir comps /\
     pgMatch comps (filter (fun s => negb (String.eqb s "")) (ApiRequest.splitOn "/"%char p))).
Proof.
  unfold resolvePageFile. cbv zeta. intros H.
  apply AppRouterFacts.orElse_some in H as [H | H].
  { destruct (findWith_some _ _ H) as [ext [Hi [-> He]]]. split; [exact He|].
    left. exists ext. split; [exact Hi | left; reflexivity]. }
  apply AppRouterFacts.orElse_some in H as [H | H].
  { destruct (findWith_some _ _ H) as [ext [Hi [-> He]]]. split; [exact He|].
    left. exists ext. split; [exact Hi | right; reflexivity]. }
  unfold resolveDynamicRoute in H.
  destruct (filter _ _) as [|s segs] eqn:Es; [discriminate|].
  destruct (tryPagePath_sound _ _ _ H) as [He [comps [-> Hm]]].
  split; [exact He|]. right. exists comps. split; [reflexivity | exact Hm].
Qed.

End Facts.

Lemma firstSome_const {A B : Type} (g : A -> option B) (r : B) (l : list A) :
  (forall y, g y = None \/ g y = Some r) ->
  AppRouter.firstSome g l = None \/ AppRouter.firstSome g l = Some r.
Proof.
  intros Hg. induction l as [|x l IH]; cbn; [left; reflexivity|].
  destruct (Hg x) as [E | E]; rewrite E; [exact IH | right; reflexivity].
Qed.

Lemma firstSome_hit {A B : Type} (g : A -> option B) (r : B) (x : A) (l : list A) :
  (forall y, g y = None \/ g y = Some r) -> In x l -> g x = Some r ->
  AppRouter.firstSome g l = Some r.
Proof.
  intros Hg Hx Hr. induction l as [|y l IH]; cbn; [destruct Hx|].
  destruct Hx as [-> | Hx]; [rewrite Hr; reflexivity|].
  destruct (Hg y) as [E | E]; rewrite E; [apply IH, Hx | reflexivity].
Qed.

(** X10: a file that [resolvePageFile] returns exists; it is the page
    [pages + pathname + ext] or [pages + pathname + /index + ext] ([/]
    standing for [/index]), or a file below the pages directory whose
    components spell the URL segments as [pgMatch] says. *)
Theorem resolvePageFile_sound (pagesDir : string) (fexists isDir : string -> bool)
    (readdir : string -> list string) (pathname f : string)
    (H : resolvePageFile pagesDir fexists isDir readdir pathname = Some f) :
  fexists f = true /\
  ((exists ext, In ext pageExtensions /\
     (f = pagesDir ++ (if String.eqb pathname "/" then "/index" else pathname) ++ ext \/
      f = pagesDir ++ (if String.eqb pathname "/" then "/index" else pathname) ++ "/index" ++ ext)) \/
   exists comps, f = joinPath pagesDir comps /\
     pgMatch comps (filter (fun s => negb (String.eqb s ""))
                      (ApiRequest.splitOn "/"%char (if String.eqb pathname "/" then "/index" else pathname)))).
Proof. exact (resolvePageFile_cases pagesDir fexists isDir readdir pathname f H). Qed.

Definition usersFs (p : string) : bool := String.eqb p "/pages/users/[id].jsx".
Definition usersDirs (p : string) : bool := String.eqb p "/pages/users".
Definition usersListing (d : string) : list string :=
  if String.eqb d "/pages/users" then ["[id].jsx"] else [].

Lemma resolvePageFile_sound_witness :
  resolvePageFile "/pages" usersFs usersDirs usersListing "/users/42" = Some "/pages/users/[id].jsx" /\
  (usersFs "/pages/users/[id].jsx" = true /\
   ((exists ext, In ext pageExtensions /\
      ("/pages/users/[id].jsx" = "/pages" ++ (if String.eqb "/users/42" "/" then "/index" else "/users/42") ++ ext \/
       "/pages/users/[id].jsx" = "/pages" ++ (if String.eqb "/users/42" "/" then "/index" else "/users/42") ++ "/index" ++ ext)) \/
    exists comps, "/pages/users/[id].jsx" = joinPath "/pages" comps /\
      pgMatch comps (filter (fun s => negb (String.eqb s ""))
        (ApiRequest.splitOn "/"%char (if String.eqb "/users/42" "/" then "/index" else "/users/42"))))).
Proof.
  split; [vm_compute; reflexivity|].
  apply (resolvePageFile_sound "/pages" usersFs usersDirs usersListing "/users/42"). vm_compute. reflexivity.
Defined.

(** X11: with no [index] page, [/] is served by a catch-all page
    [[...name].ext] at the top of the pages directory: [/] is looked up as
    the one segment [index], which the catch-all consumes. *)
Theorem root_served_by_catch_all (pagesDir : string) (fexists isDir : string -> bool)
    (readdir : string -> list string) (e ext : string) (others : list string)
    (Hidx : forall x, fexists (pagesDir ++ "/index" ++ x) = false)
    (Hidx2 : forall x, fexists (pagesDir ++ "/index" ++ "/index" ++ x) = false)
    (Hdir : isDir (pagesDir ++ "/index") = false)
    (Hls : readdir pagesDir = e :: others)
    (Hext : In ext pageExtensions)
    (Hstart : startsWith e "[..." = true)
    (Hend : endsWith e ("]" ++ ext) = true)
    (Hf : fexists (pagesDir ++ "/" ++ e) = true) :
  resolvePageFile pagesDir fexists isDir readdir "/" = Some (pagesDir ++ "/" ++ e).
Proof.
  unfold resolvePageFile.
  change (if String.eqb "/" "/" then "/index" else "/") with "/index".
  rewrite (findWith_none fexists (fun x => pagesDir ++ "/index" ++ x) Hidx).
  rewrite (findWith_none fexists (fun x => pagesDir ++ "/index" ++ "/index" ++ x) Hidx2).
  cbn [AppRouter.orElse]. unfold resolveDynamicRoute.
  replace (filter (fun s => negb (String.eqb s "")) (ApiRequest.splitOn "/"%char "/index"))
    with ["index"] by reflexivity.
  cbn [tryPagePath].
  rewrite (findWith_none fexists (fun x => (pagesDir ++ "/" ++ "index") ++ x)).
  2: { intros x. rewrite append_assoc. exact (Hidx x). }
  assert (Hd : isDir (pagesDir ++ "/" ++ "index") = false) by exact Hdir.
  rewrite Hd, Hls. cbn [AppRouter.orElse AppRouter.firstSome].
  assert (Hdot : RouteHandlerResolve.isDynamicSegment e = false).
  { unfold RouteHandlerResolve.isDynamicSegment.
    apply endsWith_spec in Hend as [t ->].
    rewrite CookiesFacts.includesChar_app.
    assert (Hx : includesChar "."%char ("]" ++ ext) = true)
      by (destruct Hext as [<- | [<- | [<- | [<- | []]]]]; reflexivity).
    rewrite Hx, orb_true_r, !andb_false_r. reflexivity. }
  rewrite Hdot, Hf.
  set (fp := pagesDir ++ "/" ++ e).
  assert (Hc : AppRouter.firstSome (fun x =>
              if startsWith e "[..." && endsWith e ("]" ++ x) then Some fp else None)
              pageExtensions = Some fp).
  { apply (firstSome_hit _ fp ext); [| exact Hext | rewrite Hstart, Hend; reflexivity].
    intros y. destruct (startsWith e "[..." && endsWith e ("]" ++ y)); [right | left]; reflexivity. }
  destruct (firstSome_const (fun x =>
              if endsWith e x && isBracketName (replaceFirst x "" e) then Some fp else None)
              fp pageExtensions) as [E | E].
  { intros y. destruct (endsWith e y && isBracketName (replaceFirst y "" e)); [right | left]; reflexivity. }
  - rewrite E. cbn [AppRouter.orElse]. rewrite Hc. reflexivity.
  - rewrite E. reflexivity.
Qed.

Definition slugFs (p : string) : bool := String.eqb p "/pages/[...slug].jsx".
Definition slugListing (d : string) : list string :=
  if String.eqb d "/pages" then ["[...slug].jsx"] else [].

Lemma root_served_by_catch_all_witness :
  ((forall x, slugFs ("/pages" ++ "/index" ++ x) = false) /\
   (forall x, slugFs ("/pages" ++ "/index" ++ "/index" ++ x) = false) /\
   (fun _ : string => false) ("/pages" ++ "/index") = false /\
   slugListing "/pages" = ["[...slug].jsx"] /\ In ".jsx" pageExtensions /\
   startsWith "[...slug].jsx" "[..." = true /\ endsWith "[...slug].jsx" ("]" ++ ".jsx") = true /\
   slugFs ("/pages" ++ "/" ++ "[...slug].jsx") = true) /\
  resolvePageFile "/pages" slugFs (fun _ => false) slugListing "/" = Some ("/pages" ++ "/" ++ "[...slug].jsx").
Proof.
  split.
  - repeat split; try (intros x; reflexivity); try reflexivity. cbn. tauto.
  - apply (root_served_by_catch_all "/pages" slugFs (fun _ => false) slugListing
             "[...slug].jsx" ".jsx" []);
      try (intros x; reflexivity); try reflexivity. cbn. tauto.
Defined.

End PagesRouterFacts.

(** ** App Router detection ([hasAppRouter], lines 1473-1505) and runtime
    env ([setEnv], lines 1393-1396) *)
Module ServerState.
Import Str AppRouter.

(** [hasAppRouter()] over the VFS of [AppRouter]; a [readdirSync] that
    throws lists nothing. *)
Definition hasAppRouter (fs : vfs) (appDir : path) : bool :=
  existsSync fs appDir
  && (existsb (fun ext => existsSync fs (app appDir ["page" ++ ext])) extensions
      || existsb (fun entry =>
           isRouteGroup entry && isDirectory fs (app appDir [entry])
           && existsb (fun ext => existsSync fs (app (app appDir [entry]) ["page" ++ ext])) extensions)
         (readdirSync fs appDir)
      || existsb (fun ext => existsSync fs (app appDir ["layout" ++ ext])) extensions).

(** [setEnv(key, value)]: [this.options.env[key] = value] on a plain
    object. *)
Definition setEnv (key value : string) (env : list (string * string)) : list (string * string) :=
  ApiResponse.assignKey key value env.

End ServerState.

Module ServerStateFacts.
Import Str AppRouter AppRouterFacts ServerState.

Definition isSome {A : Type} (o : option A) : bool :=
  match o with Some _ => true | None => false end.

Lemma isSome_find {A : Type} (p : A -> bool) (l : list A) :
  isSome (find p l) = existsb p l.
Proof. induction l as [|x l IH]; cbn; [reflexivity|]. destruct (p x); [reflexivity | exact IH]. Qed.

Lemma isSome_firstSome {A B : Type} (f : A -> option B) (l : list A) :
  isSome (firstSome f l) = existsb (fun x => isSome (f x)) l.
Proof. induction l as [|x l IH]; cbn; [reflexivity|]. destruct (f x); [reflexivity | exact IH]. Qed.

Lemma existsb_filter {A : Type} (p f : A -> bool) (l : list A) :
  existsb f (filter p l) = existsb (fun x => p x && f x) l.
Proof. induction l as [|x l IH]; cbn; [reflexivity|]. destruct (p x); cbn; rewrite IH; reflexivity. Qed.

Lemma existsb_ext {A : Type} (f g : A -> bool) (l : list A) :
  (forall x, f x = g x) -> existsb f l = existsb g l.
Proof. intros H. induction l as [|x l IH]; cbn; [reflexivity | rewrite H, IH; reflexivity]. Qed.

Lemma isSome_findPage fs d :
  isSome (findPage fs d) = existsb (fun ext => existsSync fs (app d ["page" ++ ext])) extensions.
Proof.
  unfold findPage, findFile. rewrite <- isSome_find.
  destruct (find _ extensions); reflexivity.
Qed.

(** X12: [hasAppRouter] holds exactly when the app directory exists and
    either [resolveAppRoute] resolves [/] (a root page, directly or in a
    route group) or the app directory has a root layout: a root layout
    alone turns the App Router on although [/] has no page. *)
Theorem hasAppRouter_iff_root (fs : vfs) (appDir : path) :
  hasAppRouter fs appDir =
  existsSync fs appDir
  && (isSome (resolveAppRoute fs appDir "/")
      || existsb (fun ext => existsSync fs (app appDir ["layout" ++ ext])) extensions).
Proof.
  unfold hasAppRouter, resolveAppRoute, resolveAppDynamicRoute.
  change (segmentsOf "/") with (@nil string). cbn [tryPath]. unfold tryEmpty.
  f_equal. f_equal.
  rewrite <- (isSome_findPage fs appDir). destruct (findPage fs appDir); [reflexivity|]. cbn [orb].
  rewrite isSome_firstSome. unfold getRouteGroups. rewrite existsb_filter.
  apply existsb_ext. intros e. cbv beta.
  rewrite <- (isSome_findPage fs (app appDir [e])).
  destruct (findPage fs (app appDir [e])); reflexivity.
Qed.

Lemma lookup_filter_public (k : string) (l : list (string * string)) :
  EnvScript.isPublic k = true ->
  Cookies.lookup k (filter (fun kv => EnvScript.isPublic (fst kv)) l) = Cookies.lookup k l.
Proof.
  intros Hk. induction l as [|[k' v'] l IH]; [reflexivity|].
  cbn [filter fst]. destruct (EnvScript.isPublic k') eqn:E.
  - cbn [Cookies.lookup]. rewrite IH. reflexivity.
  - rewrite IH. cbn [Cookies.lookup].
    destruct (String.eqb k k') eqn:Ek; [|reflexivity].
    apply String.eqb_eq in Ek. subst. congruence.
Qed.

Lemma publicEnvVars_setKey_private (k v : string) (env acc : list (string * string)) :
  EnvScript.isPublic k = false ->
  fold_left (fun acc kv => if EnvScript.isPublic (fst kv) then Streaming.setKey (fst kv) (snd kv) acc
                           else acc) (Streaming.setKey k v env) acc
  = fold_left (fun acc kv => if EnvScript.isPublic (fst kv) then Streaming.setKey (fst kv) (snd kv) acc
                             else acc) env acc.
Proof.
  intros Hk. revert acc. induction env as [|[k' v'] env IH]; intros acc;
    cbn [Streaming.setKey fold_left fst snd].
  - rewrite Hk. reflexivity.
  - destruct (String.eqb k k') eqn:E; cbn [fold_left fst snd].
    + apply String.eqb_eq in E. subst k'. rewrite Hk. reflexivity.
    + rewrite IH. reflexivity.
Qed.

(** X13: for an env with distinct keys, [setEnv] of a [NEXT_PUBLIC_] key
    makes the injected env object map that key to the new value, and
    [setEnv] of any other key leaves the env script unchanged. *)
Theorem setEnv_script (env : list (string * string)) (key value basePath : string)
    (Hnd : NoDup (map fst env)) :
  (EnvScript.isPublic key = true ->
   Cookies.lookup key (EnvScript.publicEnvVars (setEnv key value env)) = Some value) /\
  (EnvScript.isPublic key = false ->
   EnvScript.generateEnvScript (setEnv key value env) basePath
   = EnvScript.generateEnvScript env basePath).
Proof.
  unfold setEnv, ApiResponse.assignKey. split; intros Hk.
  - destruct (String.eqb key "__proto__") eqn:Ep.
    { apply String.eqb_eq in Ep. subst key. discriminate Hk. }
    rewrite (EnvScriptFacts.publicEnvVars_filter _ (CookiesFacts.keys_setKey key value env Hnd)).
    rewrite (lookup_filter_public _ _ Hk), CookiesFacts.lookup_setKey, String.eqb_refl.
    reflexivity.
  - destruct (String.eqb key "__proto__"); [reflexivity|].
    unfold EnvScript.generateEnvScript, EnvScript.publicEnvVars.
    rewrite (publicEnvVars_setKey_private _ _ _ _ Hk). reflexivity.
Qed.

Lemma setEnv_script_witness :
  NoDup (map fst [("NEXT_PUBLIC_API", "a"); ("SECRET", "s")]) /\
  ((EnvScript.isPublic "NEXT_PUBLIC_API" = true ->
    Cookies.lookup "NEXT_PUBLIC_API"
      (EnvScript.publicEnvVars (setEnv "NEXT_PUBLIC_API" "b" [("NEXT_PUBLIC_API", "a"); ("SECRET", "s")]))
    = Some "b") /\
   (EnvScript.isPublic "NEXT_PUBLIC_API" = false ->
    EnvScript.generateEnvScript (setEnv "NEXT_PUBLIC_API" "b" [("NEXT_PUBLIC_API", "a"); ("SECRET", "s")]) ""
    = EnvScript.generateEnvScript [("NEXT_PUBLIC_API", "a"); ("SECRET", "s")] "")).
Proof.
  assert (N : NoDup (map fst [("NEXT_PUBLIC_API", "a"); ("SECRET", "s")])).
  { cbn. constructor; [cbn; intros [H | []]; discriminate | constructor; [intros [] | constructor]]. }
  split; [exact N|].
  exact (setEnv_script [("NEXT_PUBLIC_API", "a"); ("SECRET", "s")] "NEXT_PUBLIC_API" "b" "" N).
Defined.

End ServerStateFacts.

(** ** [resolvePath] (lines 3804-3819) *)
Module PathResolve.
Import Str.

(** [resolvePath(urlPath)] with [this.root] as [root]. *)
Definition resolvePath (root urlPath : string) : string :=
  let path := ApiRequest.takeUntil (fun c => Ascii.eqb c "#"%char)
                (ApiRequest.takeUntil (fun c => Ascii.eqb c "?"%char) urlPath) in
  let path := if startsWith path "/" then path else "/" ++ path in
  if negb (String.eqb root "/") then root ++ path else path.

End PathResolve.

Module PathResolveFacts.
Import Str PathResolve.

Lemma takeUntil_excludes (c : ascii) (s : string) :
  includesChar c (ApiRequest.takeUntil (fun x => Ascii.eqb x c) s) = false.
Proof.
  induction s as [|x s IH]; cbn; [reflexivity|].
  destruct (Ascii.eqb x c) eqn:E; cbn; [reflexivity|].
  rewrite Ascii.eqb_sym, E, IH. reflexivity.
Qed.

Lemma takeUntil_includes (p : ascii -> bool) (d : ascii) (s : string) :
  includesChar d (ApiRequest.takeUntil p s) = true -> includesChar d s = true.
Proof.
  induction s as [|x s IH]; cbn; [trivial|].
  destruct (p x); cbn; [discriminate|].
  intros H. apply orb_true_iff in H as [H | H]; [rewrite H; reflexivity|].
  rewrite (IH H), orb_true_r. reflexivity.
Qed.

Lemma takeUntil_free (c : ascii) (s : string) :
  includesChar c s = false -> ApiRequest.takeUntil (fun x => Ascii.eqb x c) s = s.
Proof.
  induction s as [|x s IH]; cbn; [reflexivity|].
  intros H. apply orb_false_iff in H as [H1 H2]. rewrite Ascii.eqb_sym, H1, (IH H2).
  reflexivity.
Qed.

Lemma rooted_path (q : string) :
  startsWith (if startsWith q "/" then q else "/" ++ q) "/" = true.
Proof.
  destruct (startsWith q "/") eqn:E; [exact E|]. destruct q; reflexivity.
Qed.

Lemma includes_rooted (d : ascii) (q : string) :
  includesChar d q = false -> d <> "/"%char ->
  includesChar d (if startsWith q "/" then q else "/" ++ q) = false.
Proof.
  intros H Hd. destruct (startsWith q "/"); [exact H|].
  change ("/" ++ q) with (String "/" q). cbn. rewrite H, orb_false_r.
  apply Ascii.eqb_neq. intros E. apply Hd. exact E.
Qed.

(** X14: [resolvePath] is the root (unless it is [/]) before the path that
    [resolvePath] gives for the root [/]; that path starts with [/],
    contains no [?] and no [#], and [resolvePath] with the root [/] leaves
    it unchanged. *)
Theorem resolvePath_shape (root u : string) :
  resolvePath root u = (if String.eqb root "/" then "" else root) ++ resolvePath "/" u /\
  startsWith (resolvePath "/" u) "/" = true /\
  includesChar "?"%char (resolvePath "/" u) = false /\
  includesChar "#"%char (resolvePath "/" u) = false /\
  resolvePath "/" (resolvePath "/" u) = resolvePath "/" u.
Proof.
  set (q := ApiRequest.takeUntil (fun c => Ascii.eqb c "#"%char)
              (ApiRequest.takeUntil (fun c => Ascii.eqb c "?"%char) u)).
  assert (Hr : resolvePath "/" u = if startsWith q "/" then q else "/" ++ q) by reflexivity.
  assert (Hq1 : includesChar "?"%char q = false).
  { destruct (includesChar "?"%char q) eqn:E; [|reflexivity].
    apply takeUntil_includes in E. rewrite takeUntil_excludes in E. discriminate. }
  assert (Hq2 : includesChar "#"%char q = false) by apply takeUntil_excludes.
  assert (H1 : includesChar "?"%char (resolvePath "/" u) = false)
    by (rewrite Hr; apply includes_rooted; [exact Hq1 | discriminate]).
  assert (H2 : includesChar "#"%char (resolvePath "/" u) = false)
    by (rewrite Hr; apply includes_rooted; [exact Hq2 | discriminate]).
  assert (H0 : startsWith (resolvePath "/" u) "/" = true) by (rewrite Hr; apply rooted_path).
  split; [|split; [exact H0 | split; [exact H1 | split; [exact H2|]]]].
  - unfold resolvePath at 1. fold q. rewrite <- Hr.
    destruct (String.eqb root "/"); reflexivity.
  - set (r := resolvePath "/" u) in *. unfold resolvePath at 1.
    rewrite (takeUntil_free _ _ H1), (takeUntil_free _ _ H2), H0. reflexivity.
Qed.

End PathResolveFacts.

(** ** Import path aliases ([resolvePathAliases], lines 1356-1386) *)
Module PathAliases.
Import Str PrefixConfig.

(** [\s*Q], with [Q] the class of the two quote characters: the spaces,
    the quote, and what follows. A greedy [\s*] never gives back a space
    here, since a space is no quote. *)
Fixpoint spacesQuote (s : string) : option (string * ascii * string) :=
  match s with
  | String c s' =>
      if isSpace c then
        match spacesQuote s' with
        | Some (sp, q, r) => Some (String c sp, q, r)
        | None => None
        end
      else if isQuote c then Some (EmptyString, c, s')
      else None
  | EmptyString => None
  end.

(** [\s*\(]: the text matched and what follows. *)
Fixpoint spacesParen (s : string) : option (string * string) :=
  match s with
  | String c s' =>
      if isSpace c then
        match spacesParen s' with
        | Some (sp, r) => Some (String c sp, r)
        | None => None
        end
      else if Ascii.eqb c "("%char then Some (String c EmptyString, s')
      else None
  | EmptyString => None
  end.

(** The group [(from\s*Q|import\s*\(\s*Q)] at the start of [s]: the
    text matched and what follows. *)
Definition openQuote (s : string) : option (string * string) :=
  if startsWith s "from" then
    match spacesQuote (drop 4 s) with
    | Some (sp, q, r) => Some ("from" ++ sp ++ String q EmptyString, r)
    | None => None
    end
  else if startsWith s "import" then
    match spacesParen (drop 6 s) with
    | Some (sp1, r1) =>
        match spacesQuote r1 with
        | Some (sp2, q, r) => Some ("import" ++ sp1 ++ sp2 ++ String q EmptyString, r)
        | None => None
        end
    | None => None
    end
  else None.

(** The whole pattern [prefix + aliasEscaped + (R+)(Q)], with [R] the
    class of the non-quote characters, at the start of [s] (the escaped
    alias matches the alias literally): the groups [prefix], [path] and
    [quote], and what follows the match. A greedy [R+] never gives back a
    character here. *)
Definition matchAt (alias s : string) : option (string * string * ascii * string) :=
  match openQuote s with
  | Some (o, r) =>
      if startsWith r alias then
        match quoteFreeRun (drop (String.length alias) r) with
        | (String c p, String q r') => Some (o, String c p, q, r')
        | _ => None
        end
      else None
  | None => None
  end.

(** [result.replace(pattern, fn)] with the global flag: leftmost matches,
    left to right, each replaced by [prefix + virtualBase + target + path +
    quote]; [fuel] bounds the scan. *)
Fixpoint replaceAllF (alias target virtualBase : string) (fuel : nat) (s : string) : string :=
  match fuel with
  | 0 => s
  | S f =>
      match s with
      | EmptyString => EmptyString
      | String c s' =>
          match matchAt alias s with
          | Some (o, p, q, r) =>
              (o ++ virtualBase ++ target ++ p ++ String q EmptyString)
              ++ replaceAllF alias target virtualBase f r
          | None => String c (replaceAllF alias target virtualBase f s')
          end
      end
  end.

Definition replaceAlias (alias target virtualBase code : string) : string :=
  replaceAllF alias target virtualBase (S (String.length code)) code.

(** [resolvePathAliases(code, currentFile)]: [pathAliases] is the alias
    map in insertion order, [port] is [this.port]. *)
Definition resolvePathAliases (pathAliases : list (string * string)) (port : nat)
    (code : string) : string :=
  match pathAliases with
  | [] => code
  | _ :: _ =>
      let virtualBase := "/__virtual__/" ++ ApiResponse.decimal port in
      fold_left (fun result entry => replaceAlias (fst entry) (snd entry) virtualBase result)
        pathAliases code
  end.

End PathAliases.

Module PathAliasesFacts.
Import Str StrFacts PrefixConfig PrefixConfigFacts PathAliases.

Fixpoint allSpace (s : string) : bool :=
  match s with
  | String c s' => isSpace c && allSpace s'
  | EmptyString => true
  end.

(** [s] contains [pat] ([s.includes(pat)]). *)
Fixpoint containsStr (pat s : string) : bool :=
  startsWith s pat || match s with String _ s' => containsStr pat s' | EmptyString => false end.

Lemma quote_not_space (q : ascii) : isQuote q = true -> isSpace q = false.
Proof.
  unfold isQuote. intros H. apply orb_true_iff in H as [H | H];
    apply Ascii.eqb_eq in H; subst q; reflexivity.
Qed.

Lemma quoteFree_app (a b : string) : quoteFree (a ++ b) = quoteFree a && quoteFree b.
Proof.
  induction a as [|c a IH]; [reflexivity|].
  unfold quoteFree in *. cbn. rewrite IH, andb_assoc. reflexivity.
Qed.

Lemma allSpace_quoteFree (s : string) : allSpace s = true -> quoteFree s = true.
Proof.
  induction s as [|c s IH]; [reflexivity|]. cbn. intros H.
  apply andb_prop in H as [Hc Hs]. unfold quoteFree in *. cbn.
  destruct (isQuote c) eqn:E; [rewrite (quote_not_space _ E) in Hc; discriminate|].
  apply IH, Hs.
Qed.

Lemma allSpace_noF (s : string) : allSpace s = true -> includesChar "f"%char s = false.
Proof.
  induction s as [|c s IH]; [reflexivity|]. cbn [allSpace includesChar]. intros H.
  apply andb_prop in H as [Hc Hs]. rewrite (IH Hs), orb_false_r.
  destruct (Ascii.eqb "f"%char c) eqn:E; [|reflexivity].
  apply Ascii.eqb_eq in E. subst c. discriminate Hc.
Qed.

Lemma spacesQuote_some (s sp r : string) (q : ascii) :
  spacesQuote s = Some (sp, q, r) ->
  s = sp ++ String q r /\ allSpace sp = true /\ isQuote q = true.
Proof.
  revert sp. induction s as [|c s IH]; intros sp H; cbn in H; [discriminate|].
  destruct (isSpace c) eqn:Es.
  - destruct (spacesQuote s) as [[[sp' q'] r']|] eqn:E; [|discriminate].
    injection H as <- <- <-. destruct (IH sp' eq_refl) as [-> [Ha Hq]].
    cbn. rewrite Es, Ha. auto.
  - destruct (isQuote c) eqn:Eq; [|discriminate]. injection H as <- <- <-. auto.
Qed.

Lemma spacesQuote_app (sp x : string) (q : ascii) :
  allSpace sp = true -> isQuote q = true -> spacesQuote (sp ++ String q x) = Some (sp, q, x).
Proof.
  intros Hs Hq. induction sp as [|c sp IH]; cbn in *.
  - rewrite (quote_not_space _ Hq), Hq. reflexivity.
  - apply andb_prop in Hs as [Hc Hs]. rewrite Hc, (IH Hs). reflexivity.
Qed.

Lemma spacesParen_some (s w r : string) :
  spacesParen s = Some (w, r) ->
  s = w ++ r /\ exists sp, allSpace sp = true /\ w = sp ++ "(".
Proof.
  revert w. induction s as [|c s IH]; intros w H; cbn in H; [discriminate|].
  destruct (isSpace c) eqn:Es.
  - destruct (spacesParen s) as [[sp' r']|] eqn:E; [|discriminate].
    injection H as <- <-. destruct (IH sp' eq_refl) as [-> [sp [Ha ->]]].
    split; [reflexivity|]. exists (String c sp). cbn. rewrite Es, Ha. auto.
  - destruct (Ascii.eqb c "("%char) eqn:Ep; [|discriminate]. injection H as <- <-.
    apply Ascii.eqb_eq in Ep. subst c. split; [reflexivity|]. exists "". auto.
Qed.

(** What the opening group can match before its quote. *)
Definition openText (t : string) : Prop :=
  (exists sp, allSpace sp = true /\ t = "from" ++ sp) \/
  (exists sp1 sp2, allSpace sp1 = true /\ allSpace sp2 = true /\
     t = "import" ++ sp1 ++ "(" ++ sp2).

Lemma openQuote_some (s o r : string) :
  openQuote s = Some (o, r) ->
  exists t q, s = t ++ String q r /\ o = t ++ String q "" /\ quoteFree t = true /\
              isQuote q = true /\ openText t.
Proof.
  unfold openQuote. intros H.
  destruct (startsWith s "from") eqn:Ef.
  - apply startsWith_drop in Ef. cbn [String.length] in Ef.
    destruct (spacesQuote (drop 4 s)) as [[[sp q] r']|] eqn:E; [|discriminate].
    injection H as <- <-. apply spacesQuote_some in E as [E [Ha Hq]].
    exists ("from" ++ sp), q. rewrite E in Ef.
    split; [rewrite Ef, append_assoc; reflexivity|].
    split; [rewrite append_assoc; reflexivity|].
    split; [rewrite quoteFree_app, (allSpace_quoteFree _ Ha); reflexivity|].
    split; [exact Hq | left; exists sp; auto].
  - destruct (startsWith s "import") eqn:Ei; [|discriminate].
    apply startsWith_drop in Ei. cbn [String.length] in Ei.
    destruct (spacesParen (drop 6 s)) as [[w r1]|] eqn:E1; [|discriminate].
    destruct (spacesQuote r1) as [[[sp2 q] r']|] eqn:E2; [|discriminate].
    injection H as <- <-.
    apply spacesParen_some in E1 as [E1 [sp1 [Ha1 ->]]].
    apply spacesQuote_some in E2 as [E2 [Ha2 Hq]].
    exists ("import" ++ sp1 ++ "(" ++ sp2), q. rewrite E1, E2 in Ei.
    split; [rewrite Ei, !append_assoc; reflexivity|].
    split; [rewrite !append_assoc; reflexivity|].
    split.
    { rewrite !quoteFree_app, (allSpace_quoteFree _ Ha1), (allSpace_quoteFree _ Ha2). reflexivity. }
    split; [exact Hq | right; exists sp1, sp2; auto].
Qed.

Lemma first_quote (t1 t2 r1 r2 : string) (q1 q2 : ascii) :
  quoteFree t1 = true -> quoteFree t2 = true -> isQuote q1 = true -> isQuote q2 = true ->
  t1 ++ String q1 r1 = t2 ++ String q2 r2 -> t1 = t2.
Proof.
  revert t2. induction t1 as [|c t1 IH]; intros [|c' t2] H1 H2 Hq1 Hq2 H; cbn in H.
  - reflexivity.
  - injection H as -> _. unfold quoteFree in H2. cbn in H2. rewrite Hq1 in H2. discriminate.
  - injection H as <- _. unfold quoteFree in H1. cbn in H1. rewrite Hq2 in H1. discriminate.
  - injection H as -> H. unfold quoteFree in H1, H2. cbn in H1, H2.
    apply andb_prop in H1 as [_ H1]. apply andb_prop in H2 as [_ H2].
    rewrite (IH t2 H1 H2 Hq1 Hq2 H). reflexivity.
Qed.

(** No opening group starts inside quote-free text that precedes a
    [from] clause. *)
Lemma openQuote_before_from (ps sp x : string) (q : ascii) :
  ps <> "" -> quoteFree ps = true -> allSpace sp = true -> isQuote q = true ->
  openQuote (ps ++ "from" ++ sp ++ String q x) = None.
Proof.
  intros Hne Hps Hsp Hq.
  destruct (openQuote (ps ++ "from" ++ sp ++ String q x)) as [[o r]|] eqn:E; [|reflexivity].
  exfalso. apply openQuote_some in E as [t [q' [Es [_ [Ht [Hq' Ho]]]]]].
  assert (Hf : quoteFree (ps ++ "from" ++ sp) = true).
  { rewrite !quoteFree_app, Hps, (allSpace_quoteFree _ Hsp). reflexivity. }
  assert (Ht' : t = ps ++ "from" ++ sp).
  { apply (first_quote t (ps ++ "from" ++ sp) r x q' q Ht Hf Hq' Hq).
    rewrite <- Es, !append_assoc. reflexivity. }
  subst t. destruct Ho as [[sp' [Ha E]] | [sp1 [sp2 [Ha1 [Ha2 E]]]]].
  - destruct ps as [|c ps]; [contradiction|]. cbn in E. injection E as _ E.
    apply (f_equal (includesChar "f"%char)) in E. cbn in E.
    rewrite (allSpace_noF _ Ha) in E.
    rewrite CookiesFacts.includesChar_app in E. cbn in E. rewrite orb_true_r in E. discriminate.
  - apply (f_equal (includesChar "f"%char)) in E.
    rewrite !CookiesFacts.includesChar_app in E. cbn in E.
    rewrite (allSpace_noF _ Ha1), (allSpace_noF _ Ha2) in E. cbn in E.
    rewrite orb_true_r in E. discriminate.
Qed.

Lemma quoteFreeRun_split (x a b : string) : quoteFreeRun x = (a, b) -> x = a ++ b.
Proof.
  revert a b. induction x as [|c x IH]; intros a b H; cbn in H.
  - injection H as <- <-. reflexivity.
  - destruct (isQuote c).
    + injection H as <- <-. reflexivity.
    + destruct (quoteFreeRun x) as [a' b'] eqn:E. injection H as <- <-.
      cbn. rewrite (IH a' b' eq_refl). reflexivity.
Qed.

Lemma matchAt_split (alias s o p r : string) (q : ascii) :
  matchAt alias s = Some (o, p, q, r) -> s = o ++ alias ++ p ++ String q r.
Proof.
  unfold matchAt. destruct (openQuote s) as [[o' r1]|] eqn:E; [|discriminate].
  destruct (startsWith r1 alias) eqn:Ea; [|discriminate].
  destruct (quoteFreeRun (drop (String.length alias) r1)) as [[|c p'] [|q' r']] eqn:Er;
    try discriminate.
  intros H; injection H as <- <- <- <-.
  apply openQuote_some in E as [t [q0 [Es [Eo _]]]].
  apply startsWith_drop in Ea. apply quoteFreeRun_split in Er. rewrite Er in Ea.
  rewrite Es, Eo, Ea, append_assoc. reflexivity.
Qed.

Section Replace.
Variables alias target virtualBase : string.

Lemma replaceAllF_fuel (n m : nat) (s : string) :
  String.length s < n -> String.length s < m ->
  replaceAllF alias target virtualBase n s = replaceAllF alias target virtualBase m s.
Proof.
  revert m s. induction n as [|n IH]; intros m s Hn Hm; [lia|].
  destruct m as [|m]; [lia|]. destruct s as [|c s']; [reflexivity|].
  cbn [replaceAllF].
  destruct (matchAt alias (String c s')) as [[[[o p] q] r]|] eqn:E.
  - f_equal. apply matchAt_split in E.
    assert (Hl : String.length r < String.length (String c s')).
    { rewrite E, !append_length. cbn [String.length]. lia. }
    apply IH; lia.
  - f_equal. cbn [String.length] in Hn, Hm. apply IH; lia.
Qed.

Lemma replaceAlias_cons (c : ascii) (s : string) :
  replaceAlias alias target virtualBase (String c s) =
  match matchAt alias (String c s) with
  | Some (o, p, q, r) =>
      (o ++ virtualBase ++ target ++ p ++ String q EmptyString)
      ++ replaceAlias alias target virtualBase r
  | None => String c (replaceAlias alias target virtualBase s)
  end.
Proof.
  unfold replaceAlias at 1. cbn [replaceAllF].
  destruct (matchAt alias (String c s)) as [[[[o p] q] r]|] eqn:E.
  - f_equal. apply matchAt_split in E. unfold replaceAlias.
    apply replaceAllF_fuel; [|lia].
    rewrite E, !append_length. cbn [String.length]. lia.
  - reflexivity.
Qed.

Lemma openQuote_from (sp x : string) (q : ascii) :
  allSpace sp = true -> isQuote q = true ->
  openQuote ("from" ++ sp ++ String q x) = Some ("from" ++ sp ++ String q EmptyString, x).
Proof.
  intros Hs Hq. unfold openQuote. rewrite startsWith_append.
  change 4 with (String.length "from"). rewrite drop_append, (spacesQuote_app _ _ _ Hs Hq).
  reflexivity.
Qed.

Lemma replaceAlias_before_from (sp x : string) (q : ascii) (pre : string) :
  quoteFree pre = true -> allSpace sp = true -> isQuote q = true ->
  replaceAlias alias target virtualBase (pre ++ "from" ++ sp ++ String q x)
  = pre ++ replaceAlias alias target virtualBase ("from" ++ sp ++ String q x).
Proof.
  intros Hpre Hsp Hq. induction pre as [|c pre IH]; [reflexivity|].
  change (replaceAlias alias target virtualBase (String c (pre ++ "from" ++ sp ++ String q x))
          = String c (pre ++ replaceAlias alias target virtualBase ("from" ++ sp ++ String q x))).
  rewrite replaceAlias_cons.
  replace (matchAt alias (String c (pre ++ "from" ++ sp ++ String q x))) with
    (@None (string * string * ascii * string)).
  2: { unfold matchAt. change (String c (pre ++ "from" ++ sp ++ String q x))
         with (String c pre ++ "from" ++ sp ++ String q x).
       rewrite openQuote_before_from; [reflexivity | discriminate | exact Hpre | exact Hsp | exact Hq]. }
  f_equal. apply IH. unfold quoteFree in Hpre |- *. cbn in Hpre.
  apply andb_prop in Hpre as [_ Hpre]. exact Hpre.
Qed.

Lemma containsStr_app (x y : string) : containsStr alias (x ++ alias ++ y) = true.
Proof.
  induction x as [|c x IH].
  - destruct alias as [|a al]; [destruct y; reflexivity|].
    change (containsStr (String a al) (String a al ++ y))
      with (startsWith (String a al ++ y) (String a al) || containsStr (String a al) (al ++ y)).
    apply orb_true_intro; left; exact (startsWith_append (String a al) y).
  - change (containsStr alias (String c x ++ alias ++ y))
      with (startsWith (String c (x ++ alias ++ y)) alias || containsStr alias (x ++ alias ++ y)).
    rewrite IH, orb_true_r. reflexivity.
Qed.

Lemma replaceAllF_absent (n : nat) (s : string) :
  containsStr alias s = false -> replaceAllF alias target virtualBase n s = s.
Proof.
  revert s. induction n as [|n IH]; intros s H; [reflexivity|].
  destruct s as [|c s']; [reflexivity|]. cbn [replaceAllF].
  destruct (matchAt alias (String c s')) as [[[[o p] q] r]|] eqn:E.
  - apply matchAt_split in E. rewrite E, containsStr_app in H. discriminate.
  - cbn [containsStr] in H. apply orb_false_iff in H as [_ H]. rewrite (IH s' H). reflexivity.
Qed.

End Replace.

Lemma matchAt_from (alias sp p post : string) (q q' : ascii) :
  allSpace sp = true -> isQuote q = true -> isQuote q' = true ->
  p <> EmptyString -> quoteFree p = true ->
  matchAt alias ("from" ++ sp ++ String q (alias ++ p ++ String q' post))
  = Some ("from" ++ sp ++ String q EmptyString, p, q', post).
Proof.
  intros Hsp Hq Hq' Hp Hpq. unfold matchAt.
  rewrite (openQuote_from _ _ _ Hsp Hq), startsWith_append, drop_append,
    (quoteFreeRun_app _ _ _ Hpq Hq').
  destruct p as [|c p]; [contradiction|]. reflexivity.
Qed.

Lemma replaceAlias_from_clause (alias target virtualBase pre sp p post : string) (q q' : ascii) :
  quoteFree pre = true -> allSpace sp = true -> isQuote q = true -> isQuote q' = true ->
  p <> EmptyString -> quoteFree p = true ->
  replaceAlias alias target virtualBase
    (pre ++ "from" ++ sp ++ String q (alias ++ p ++ String q' post))
  = pre ++ "from" ++ sp ++ String q (virtualBase ++ target ++ p ++ String q'
      (replaceAlias alias target virtualBase post)).
Proof.
  intros Hpre Hsp Hq Hq' Hp Hpq.
  rewrite (replaceAlias_before_from _ _ _ _ _ _ _ Hpre Hsp Hq). f_equal.
  change ("from" ++ sp ++ String q (alias ++ p ++ String q' post))
    with (String "f" ("rom" ++ sp ++ String q (alias ++ p ++ String q' post))).
  rewrite replaceAlias_cons.
  change (String "f" ("rom" ++ sp ++ String q (alias ++ p ++ String q' post)))
    with ("from" ++ sp ++ String q (alias ++ p ++ String q' post)).
  rewrite (matchAt_from _ _ _ _ _ _ Hsp Hq Hq' Hp Hpq).
  rewrite !append_assoc. reflexivity.
Qed.

(** X15: with a single alias, an import or export clause [from Q alias p Q']
    (spaces between [from] and the quote, [p] a non-empty run of non-quote
    characters), preceded by text without quotes, has the alias replaced by
    [/__virtual__/PORT] followed by the alias target, keeping the prefix,
    the path and the closing quote; the rest of the code is processed the
    same way. *)
Theorem resolvePathAliases_from_clause (alias target pre sp p post : string) (q q' : ascii)
    (port : nat)
    (Hpre : quoteFree pre = true) (Hsp : allSpace sp = true)
    (Hq : isQuote q = true) (Hq' : isQuote q' = true)
    (Hp : p <> EmptyString) (Hpq : quoteFree p = true) :
  resolvePathAliases [(alias, target)] port
    (pre ++ "from" ++ sp ++ String q (alias ++ p ++ String q' post))
  = pre ++ "from" ++ sp ++ String q (("/__virtual__/" ++ ApiResponse.decimal port)
      ++ target ++ p ++ String q' (resolvePathAliases [(alias, target)] port post)).
Proof.
  unfold resolvePathAliases. cbn [fold_left fst snd].
  apply replaceAlias_from_clause; assumption.
Qed.

Lemma resolvePathAliases_from_clause_witness :
  (quoteFree "x; " = true /\ allSpace " " = true /\ isQuote "'"%char = true
   /\ "components/faq" <> EmptyString /\ quoteFree "components/faq" = true) /\
  resolvePathAliases [("@/", "/")] 3001
    ("x; " ++ "from" ++ " " ++ String "'" ("@/" ++ "components/faq" ++ String "'" ";"))
  = "x; " ++ "from" ++ " " ++ String "'" (("/__virtual__/" ++ ApiResponse.decimal 3001)
      ++ "/" ++ "components/faq" ++ String "'" (resolvePathAliases [("@/", "/")] 3001 ";")).
Proof.
  split; [repeat split; try reflexivity; discriminate|].
  apply (resolvePathAliases_from_clause "@/" "/" "x; " " " "components/faq" ";" "'" "'" 3001);
    try reflexivity; discriminate.
Defined.

(** X16: when no alias of the map occurs anywhere in the code, the code is
    returned unchanged. *)
Theorem resolvePathAliases_no_alias (pathAliases : list (string * string)) (port : nat)
    (code : string)
    (H : Forall (fun entry => containsStr (fst entry) code = false) pathAliases) :
  resolvePathAliases pathAliases port code = code.
Proof.
  destruct pathAliases as [|e es]; [reflexivity|]. unfold resolvePathAliases.
  generalize (e :: es) H. clear. intros l H.
  induction H as [|[a t] l Ha _ IH]; [reflexivity|].
  cbn [fold_left fst snd] in *. unfold replaceAlias at 2.
  rewrite (replaceAllF_absent _ _ _ _ _ Ha). exact IH.
Qed.

Lemma resolvePathAliases_no_alias_witness :
  Forall (fun entry => containsStr (fst entry) "import x from './a';" = false)
    [("@/", "/"); ("~/", "/src/")] /\
  resolvePathAliases [("@/", "/"); ("~/", "/src/")] 7 "import x from './a';"
  = "import x from './a';".
Proof.
  split; [repeat constructor|].
  apply resolvePathAliases_no_alias. repeat constructor.
Defined.

End PathAliasesFacts.

Module ResolveExtFacts.
Import Str Dispatch.

Definition tryExtensions : list string := [".tsx"; ".ts"; ".jsx"; ".js"].

(** X17: [resolveFileWithExtension] only answers with a path that exists:
    the path itself when it has an extension, the path with one of the
    four extensions, or the path's [index] file with one of them; it
    answers [null] only when none of these candidates exists (the path
    itself when it has an extension, and the eight others), and it prefers
    a direct extension to an index file. *)
Theorem resolveFileWithExtension_spec (fs : fsview) (p : string) :
  match resolveFileWithExtension fs p with
  | Some f =>
      fexists fs f = true /\
      ((f = p /\ hasExtension p = true) \/
       (exists e, In e tryExtensions /\ f = p ++ e) \/
       (exists e, In e tryExtensions /\ f = p ++ "/index" ++ e /\
          forall e', In e' tryExtensions -> fexists fs (p ++ e') = false))
  | None =>
      (hasExtension p = true -> fexists fs p = false) /\
      forall e, In e tryExtensions ->
        fexists fs (p ++ e) = false /\ fexists fs (p ++ "/index" ++ e) = false
  end.
Proof.
  unfold resolveFileWithExtension.
  destruct (hasExtension p && fexists fs p) eqn:Eh.
  - apply andb_prop in Eh as [Eh Ef]. split; [exact Ef|]. left. split; auto.
  - destruct (find (fun e => fexists fs (p ++ e)) [".tsx"; ".ts"; ".jsx"; ".js"]) as [e|] eqn:E1.
    + apply find_some in E1 as [Hin He]. split; [exact He|]. right; left. exists e. auto.
    + pose proof (find_none _ _ E1) as N1. cbn beta in N1.
      destruct (find (fun e => fexists fs (p ++ "/index" ++ e)) [".tsx"; ".ts"; ".jsx"; ".js"])
        as [e|] eqn:E2.
      * apply find_some in E2 as [Hin He]. split; [exact He|]. right; right.
        exists e. split; [exact Hin|]. split; [reflexivity|]. exact N1.
      * pose proof (find_none _ _ E2) as N2. cbn beta in N2.
        split.
        -- intros Hx. rewrite Hx in Eh. exact Eh.
        -- intros e He. split; [apply N1 | apply N2]; exact He.
Qed.

End ResolveExtFacts.

(** ** Client-side component URLs ([servePageComponent], lines 1711-1727,
    and [serveAppComponent], lines 1733-1749) *)
Module ComponentServe.
Import Str PagesRouter.

(** The two outcomes: [this.transformAndServe(file, url)] and
    [this.notFound(pathname)]. *)
Inductive served :=
| TransformS (file url : string)
| NotFoundS (pathname : string).

(** [s.replace(/\.js$/, '')] *)
Definition stripJs (s : string) : string :=
  if endsWith s ".js" then String.substring 0 (String.length s - 3) s else s.

Definition servePageComponent (pagesDir : string) (fexists isDir : string -> bool)
    (readdir : string -> list string) (pathname : string) : served :=
  let route := stripJs (replaceFirst "/_next/pages" "" pathname) in
  match resolvePageFile pagesDir fexists isDir readdir route with
  | None => NotFoundS pathname
  | Some pageFile => TransformS pageFile pageFile
  end.

Definition appComponentExtensions : list string := [".tsx"; ".jsx"; ".ts"; ".js"].

Definition serveAppComponent (fexists : string -> bool) (pathname : string) : served :=
  let filePath := stripJs (replaceFirst "/_next/app" "" pathname) in
  match find (fun ext => fexists (filePath ++ ext)) appComponentExtensions with
  | Some ext => TransformS (filePath ++ ext) (filePath ++ ext)
  | None => NotFoundS pathname
  end.

End ComponentServe.

Module ComponentServeFacts.
Import Str StrFacts PagesRouter ComponentServe.

Lemma replaceFirst_prefix (pat rep x : string) :
  pat <> EmptyString -> replaceFirst pat rep (pat ++ x) = rep ++ x.
Proof.
  intros Hp. destruct pat as [|a pat]; [contradiction|].
  change (String a pat ++ x) with (String a (pat ++ x)).
  cbn [replaceFirst].
  change (String a (pat ++ x)) with (String a pat ++ x).
  change (String.prefix (String a pat) (String a pat ++ x)) with (startsWith (String a pat ++ x) (String a pat)).
  rewrite startsWith_append, drop_append. reflexivity.
Qed.

Lemma stripJs_append (r : string) : stripJs (r ++ ".js") = r.
Proof.
  unfold stripJs. rewrite (proj2 (endsWith_spec _ _) (ex_intro _ r eq_refl)).
  rewrite append_length. cbn [String.length].
  replace (String.length r + 3 - 3) with (String.length r) by lia.
  apply substring_append.
Qed.

(** X18: the component URLs of client-side navigation round-trip: for any
    [route], [/_next/pages] + [route] + [.js] serves the page file that
    [resolvePageFile] gives for [route] (and is a 404 when there is none),
    and [/_next/app] + [file] + [.js] serves [file] with the first of
    [.tsx], [.jsx], [.ts], [.js] that exists (a 404 when none does). *)
Theorem component_urls_round_trip (pagesDir : string) (fexists isDir : string -> bool)
    (readdir : string -> list string) (route file : string) :
  servePageComponent pagesDir fexists isDir readdir ("/_next/pages" ++ route ++ ".js")
  = match resolvePageFile pagesDir fexists isDir readdir route with
    | Some f => TransformS f f
    | None => NotFoundS ("/_next/pages" ++ route ++ ".js")
    end /\
  serveAppComponent fexists ("/_next/app" ++ file ++ ".js")
  = match find (fun ext => fexists (file ++ ext)) appComponentExtensions with
    | Some ext => TransformS (file ++ ext) (file ++ ext)
    | None => NotFoundS ("/_next/app" ++ file ++ ".js")
    end.
Proof.
  split.
  - unfold servePageComponent.
    rewrite (replaceFirst_prefix "/_next/pages" "" (route ++ ".js")) by discriminate.
    cbn [append]. rewrite stripJs_append. reflexivity.
  - unfold serveAppComponent.
    rewrite (replaceFirst_prefix "/_next/app" "" (file ++ ".js")) by discriminate.
    cbn [append]. rewrite stripJs_append. reflexivity.
Qed.

End ComponentServeFacts.

Module ApiFileFacts.
Import Str Streaming.

Definition apiExtensions : list string := [".js"; ".ts"; ".jsx"; ".tsx"].

Lemma expandReplacement_plain (after t : string) :
  includesChar "$"%char t = false -> expandReplacement after t = t.
Proof.
  induction t as [|c t IH]; intros H; [reflexivity|].
  cbn [includesChar] in H. apply orb_false_iff in H as [Hc H].
  cbn [expandReplacement]. rewrite Ascii.eqb_sym, Hc, (IH H). reflexivity.
Qed.

(** X19: for a request path [/api] + [rest] and a [pagesDir] without [$]
    (so that the replacement template is taken literally), [resolveApiFile]
    only answers with an existing file under [pagesDir/api]: [rest] with
    one of the four extensions, or, when none of those exists, [rest/index]
    with one of them; it answers [null] only when none of the eight
    candidates exists. *)
Theorem resolveApiFile_spec (pagesDir : string) (fexists : string -> bool) (rest : string)
    (Hd : includesChar "$"%char pagesDir = false) :
  let apiPath := pagesDir ++ "/api" ++ rest in
  match resolveApiFile pagesDir fexists ("/api" ++ rest) with
  | Some f =>
      fexists f = true /\
      ((exists e, In e apiExtensions /\ f = apiPath ++ e) \/
       (exists e, In e apiExtensions /\ f = apiPath ++ "/index" ++ e /\
          forall e', In e' apiExtensions -> fexists (apiPath ++ e') = false))
  | None =>
      forall e, In e apiExtensions ->
        fexists (apiPath ++ e) = false /\ fexists (apiPath ++ "/index" ++ e) = false
  end.
Proof.
  intros apiPath. unfold resolveApiFile.
  change (drop 4 ("/api" ++ rest)) with (drop (String.length "/api") ("/api" ++ rest)).
  rewrite drop_append, expandReplacement_plain, StrFacts.append_assoc
    by (rewrite CookiesFacts.includesChar_app, Hd; reflexivity).
  fold apiPath.
  destruct (find (fun e => fexists (apiPath ++ e)) [".js"; ".ts"; ".jsx"; ".tsx"]) as [e|] eqn:E1.
  - apply find_some in E1 as [Hin He]. split; [exact He|]. left. exists e. auto.
  - pose proof (find_none _ _ E1) as N1. cbn beta in N1.
    destruct (find (fun e => fexists (apiPath ++ "/index" ++ e)) [".js"; ".ts"; ".jsx"; ".tsx"])
      as [e|] eqn:E2.
    + apply find_some in E2 as [Hin He]. split; [exact He|]. right.
      exists e. split; [exact Hin|]. split; [reflexivity|]. exact N1.
    + pose proof (find_none _ _ E2) as N2. cbn beta in N2.
      intros e He. split; [apply N1 | apply N2]; exact He.
Qed.

Definition helloApi (f : string) : bool := String.eqb f "/pages/api/hello/index.ts".

Lemma resolveApiFile_spec_witness :
  includesChar "$"%char "/pages" = false /\
  (let apiPath := "/pages" ++ "/api" ++ "/hello" in
   match resolveApiFile "/pages" helloApi ("/api" ++ "/hello") with
   | Some f =>
       helloApi f = true /\
       ((exists e, In e apiExtensions /\ f = apiPath ++ e) \/
        (exists e, In e apiExtensions /\ f = apiPath ++ "/index" ++ e /\
           forall e', In e' apiExtensions -> helloApi (apiPath ++ e') = false))
   | None =>
       forall e, In e apiExtensions ->
         helloApi (apiPath ++ e) = false /\ helloApi (apiPath ++ "/index" ++ e) = false
   end).
Proof.
  split; [reflexivity|].
  exact (resolveApiFile_spec "/pages" helloApi "/hello" eq_refl).
Defined.

End ApiFileFacts.

(** ** Alias map from [tsconfig.json] ([loadPathAliases], lines 1242-1270) *)
Module LoadAliases.
Import Str.

(** An element of a [paths] array: a string, or any other JSON value
    (which has no [replace] method, so [targets[0].replace] throws). *)
Inductive jsonTarget :=
| TStr (s : string)
| TOther.

(** The value of a [paths] entry: an array, or anything else. *)
Inductive pathsValue :=
| PArray (ts : list jsonTarget)
| PNonArray.

(** [s.replace(/\*$/, '')] *)
Definition stripStar (s : string) : string :=
  if endsWith s "*" then String.substring 0 (String.length s - 1) s else s.

(** [s.replace(/^\./, '')] *)
Definition stripDot (s : string) : string :=
  if startsWith s "." then drop 1 s else s.

(** The loop over [Object.entries(paths)] on the [Map] [m] ([Map.set]
    keeps an existing key in place): a throw leaves the loop, and the
    [catch] keeps what was already set. *)
Fixpoint loadEntries (m : list (string * string)) (es : list (string * pathsValue))
    : list (string * string) :=
  match es with
  | [] => m
  | (alias, v) :: es' =>
      match v with
      | PArray (TStr t :: _) =>
          loadEntries (Streaming.setKey (stripStar alias) (stripDot (stripStar t)) m) es'
      | PArray (TOther :: _) => m
      | _ => loadEntries m es'
      end
  end.

(** [paths] is [None] when [/tsconfig.json] is missing, fails to parse, or
    has no truthy [compilerOptions.paths]; otherwise the entries of the
    parsed [paths] object. *)
Definition loadPathAliases (paths : option (list (string * pathsValue)))
    (m : list (string * string)) : list (string * string) :=
  match paths with
  | None => m
  | Some es => loadEntries m es
  end.

End LoadAliases.

Module LoadAliasesFacts.
Import Str StrFacts LoadAliases.

Definition throwing (e : string * pathsValue) : Prop :=
  exists ts, snd e = PArray (TOther :: ts).

(** X20: in [loadPathAliases], an entry whose value is not an array, or is
    an empty array, is skipped; an entry whose first target is not a
    string throws, which ends the loop and keeps the aliases already set
    by the entries before it (when none of those threw). *)
Theorem loadEntries_skip_and_stop (m : list (string * string)) (pre post : list (string * pathsValue))
    (a : string) :
  loadEntries m (pre ++ (a, PNonArray) :: post) = loadEntries m (pre ++ post) /\
  loadEntries m (pre ++ (a, PArray []) :: post) = loadEntries m (pre ++ post) /\
  (Forall (fun e => ~ throwing e) pre ->
   forall ts, loadEntries m (pre ++ (a, PArray (TOther :: ts)) :: post) = loadEntries m pre).
Proof.
  revert m. induction pre as [|[al v] pre IH]; intros m.
  - split; [reflexivity|]. split; [reflexivity|]. intros _ ts. reflexivity.
  - cbn [app loadEntries].
    destruct v as [[|[t|] ts0]|];
      [| | split; [reflexivity|]; split; [reflexivity|];
           intros Hf; inversion Hf as [|? ? Hn _]; exfalso; apply Hn; exists ts0; reflexivity
         |];
      match goal with
      | |- context [loadEntries ?m' (pre ++ _)] =>
          destruct (IH m') as [H1 [H2 H3]]; split; [exact H1|]; split; [exact H2|];
          intros Hf; inversion Hf; subst; apply H3; assumption
      end.
Qed.

Lemma loadEntries_skip_and_stop_witness :
  Forall (fun e => ~ throwing e) [("@/*", PArray [TStr "./*"])] /\
  (loadEntries [] ([("@/*", PArray [TStr "./*"])] ++ ("x", PNonArray) :: [("~/*", PArray [TStr "./src/*"])])
   = loadEntries [] ([("@/*", PArray [TStr "./*"])] ++ [("~/*", PArray [TStr "./src/*"])]) /\
   loadEntries [] ([("@/*", PArray [TStr "./*"])] ++ ("x", PArray []) :: [("~/*", PArray [TStr "./src/*"])])
   = loadEntries [] ([("@/*", PArray [TStr "./*"])] ++ [("~/*", PArray [TStr "./src/*"])]) /\
   (Forall (fun e => ~ throwing e) [("@/*", PArray [TStr "./*"])] ->
    forall ts, loadEntries [] ([("@/*", PArray [TStr "./*"])] ++ ("x", PArray (TOther :: ts))
                                 :: [("~/*", PArray [TStr "./src/*"])])
               = loadEntries [] [("@/*", PArray [TStr "./*"])])).
Proof.
  split.
  - constructor; [|constructor]. intros [ts Ht]. discriminate.
  - apply loadEntries_skip_and_stop.
Defined.

Lemma stripStar_append (a : string) : stripStar (a ++ "*") = a.
Proof.
  unfold stripStar. rewrite (proj2 (endsWith_spec _ _) (ex_intro _ a eq_refl)).
  rewrite append_length. cbn [String.length].
  replace (String.length a + 1 - 1) with (String.length a) by lia.
  apply substring_append.
Qed.

Lemma stripDot_dot (t : string) : stripDot ("." ++ t) = t.
Proof. unfold stripDot. rewrite startsWith_append. reflexivity. Qed.

End LoadAliasesFacts.

Module AliasPipelineFacts.
Import Str StrFacts PrefixConfig PrefixConfigFacts PathAliases PathAliasesFacts LoadAliases LoadAliasesFacts.

(** X21: a [tsconfig.json] path entry [A*] with first target [.T*] gives
    the single alias [A] with target [T] (the server starts with an empty
    alias map), and [resolvePathAliases] then rewrites a clause
    [from Q A p Q'] (preceded by quote-free text, [p] a non-empty run of
    non-quote characters) to [from Q /__virtual__/PORT T p Q']. *)
Theorem tsconfig_alias_rewrites_import (A T pre sp p post : string) (q q' : ascii)
    (ts : list jsonTarget) (port : nat)
    (Hpre : quoteFree pre = true) (Hsp : allSpace sp = true)
    (Hq : isQuote q = true) (Hq' : isQuote q' = true)
    (Hp : p <> EmptyString) (Hpq : quoteFree p = true) :
  let aliases := loadPathAliases (Some [(A ++ "*", PArray (TStr ("." ++ T ++ "*") :: ts))]) [] in
  aliases = [(A, T)] /\
  resolvePathAliases aliases port (pre ++ "from" ++ sp ++ String q (A ++ p ++ String q' post))
  = pre ++ "from" ++ sp ++ String q (("/__virtual__/" ++ ApiResponse.decimal port)
      ++ T ++ p ++ String q' (resolvePathAliases aliases port post)).
Proof.
  intros aliases.
  assert (Ha : aliases = [(A, T)]).
  { unfold aliases, loadPathAliases. cbn [loadEntries].
    rewrite stripStar_append, <- append_assoc, stripStar_append, stripDot_dot. reflexivity. }
  split; [exact Ha|]. rewrite Ha.
  unfold resolvePathAliases. cbn [fold_left fst snd].
  apply replaceAlias_from_clause; assumption.
Qed.

Lemma tsconfig_alias_rewrites_import_witness :
  (quoteFree "x; " = true /\ allSpace " " = true /\ isQuote "'"%char = true
   /\ "components/faq" <> EmptyString /\ quoteFree "components/faq" = true) /\
  (let aliases := loadPathAliases (Some [("@/" ++ "*", PArray (TStr ("." ++ "/src/" ++ "*") :: []))]) [] in
   aliases = [("@/", "/src/")] /\
   resolvePathAliases aliases 3001
     ("x; " ++ "from" ++ " " ++ String "'" ("@/" ++ "components/faq" ++ String "'" ";"))
   = "x; " ++ "from" ++ " " ++ String "'" (("/__virtual__/" ++ ApiResponse.decimal 3001)
       ++ "/src/" ++ "components/faq" ++ String "'" (resolvePathAliases aliases 3001 ";"))).
Proof.
  split; [repeat split; try reflexivity; discriminate|].
  apply (tsconfig_alias_rewrites_import "@/" "/src/" "x; " " " "components/faq" ";" "'" "'" [] 3001);
    try reflexivity; discriminate.
Defined.

End AliasPipelineFacts.


(** ** Page routes ([handlePageRoute], lines 2455-2501) *)
Module PageRoute.
Import Str Dispatch PagesRouter.

(** The responses [handlePageRoute] builds, by the branch that builds them. *)
Inductive pageResponse :=
| AppRouterPage (pathname : string)
| NotFoundPageHtml (notFoundPage : string)
| Serve404Page
| TransformPage (pageFile pathname : string)
| PageHtml (pageFile pathname : string).

Definition handlePageRoute (useAppRouter : bool) (pagesDir : string)
    (fexists isDir : string -> bool) (readdir : string -> list string)
    (pathname : string) : pageResponse :=
  if useAppRouter then AppRouterPage pathname else
  match resolvePageFile pagesDir fexists isDir readdir pathname with
  | None =>
      match resolvePageFile pagesDir fexists isDir readdir "/404" with
      | Some notFoundPage => NotFoundPageHtml notFoundPage
      | None => Serve404Page
      end
  | Some pageFile =>
      if needsTransform pathname then TransformPage pageFile pathname
      else PageHtml pageFile pathname
  end.

(** The status code of each response: 404 for the [/404] page and for
    [serve404Page()] (whose HTML does not depend on the path), 200 for
    the page shell; [None] where [handleAppRouterPage] or
    [transformAndServe] decides. *)
Definition pageStatus (r : pageResponse) : option nat :=
  match r with
  | NotFoundPageHtml _ | Serve404Page => Some 404
  | PageHtml _ _ => Some 200
  | AppRouterPage _ | TransformPage _ _ => None
  end.

End PageRoute.

Module PageRouteFacts.
Import Str Dispatch DispatchFacts PageRoute.

(** A file system holding only [/pages/docs.jsx]. *)
Definition docsFiles : list string := ["/pages/docs.jsx"].
Definition docsDirs : list string := ["/pages"].
Definition docsIsDir (p : string) : bool := existsb (String.eqb p) docsDirs.
Definition docsExists (p : string) : bool :=
  existsb (String.eqb p) docsFiles || docsIsDir p.
Definition docsReaddir (p : string) : list string :=
  if String.eqb p "/pages" then ["docs.jsx"] else [].
Definition docsFs : fsview := {| fexists := docsExists; fisDir := docsIsDir |}.

(** C1 counterexample: with [basePath = "/docs"], the default [/pages]
    directory and only [/pages/docs.jsx], the path [P = /docs] behind
    [basePath] ([/docs/docs]) is stripped once and served the page shell of
    [/pages/docs.jsx] with status 200, while [/docs] alone is stripped to
    [/], which has no page and no [/404] page: [serve404Page()] answers
    404. *)
Lemma handleRequest_prefix_not_transparent :
  fst (fst (handleRequest cfgDocs docsFs (fun _ => None)
              {| rmethod := "GET"; rpathname := "/docs" ++ "/docs"; rsearch := "" |}))
  = PageRouteD "/docs" /\
  fst (fst (handleRequest cfgDocs docsFs (fun _ => None)
              {| rmethod := "GET"; rpathname := "/docs"; rsearch := "" |}))
  = PageRouteD "/" /\
  handlePageRoute (useAppRouter cfgDocs) "/pages" docsExists docsIsDir docsReaddir "/docs"
  = PageHtml "/pages/docs.jsx" "/docs" /\
  handlePageRoute (useAppRouter cfgDocs) "/pages" docsExists docsIsDir docsReaddir "/"
  = Serve404Page /\
  pageStatus (PageHtml "/pages/docs.jsx" "/docs") = Some 200 /\
  pageStatus Serve404Page = Some 404.
Proof. vm_compute. repeat split. Qed.

End PageRouteFacts.
